(** * The filename-semantics engine of org-app, embedded in Rocq

    The development follows [organize.py] (normalizer, name/code/variant
    extractor, code consolidator, collision resolver, folder pruning) and the
    conflict path of [split.py].

    Conventions of the embedding.
    - A Python [str] is a [list ascii].  The model covers 7-bit file names:
      on that range Python's Unicode-aware classes [\w], [\s], [\d] and
      [str.lower] coincide with the definitions of module [Py]; characters
      above 127 are treated as plain symbols.
    - [None] is [None]; a Python tuple is a Rocq tuple.
    - Each regular expression of the source is written out as the function
      that computes the same match, with the expression in its comment.
      [$] has Python's meaning: end of text, or just before a final line
      feed.
    - [os.path] is [posixpath].  *)

From Stdlib Require Import List Ascii Bool Arith ZArith Lia Sorted Permutation.
From Stdlib Require String DecimalString DecimalNat.
Import ListNotations.
Import String.StringSyntax.

Abbreviation str := (list ascii).

Definition lit (s : String.string) : list ascii := String.list_ascii_of_string s.
Coercion lit : String.string >-> list.

Open Scope string_scope.
Open Scope list_scope.

(** ** Python string primitives *)
Module Py.

Definition ord (c : ascii) : nat := nat_of_ascii c.

Definition in_range (lo hi : nat) (c : ascii) : bool :=
  (lo <=? ord c) && (ord c <=? hi).

Definition is_upper (c : ascii) : bool := in_range 65 90 c.
Definition is_lower (c : ascii) : bool := in_range 97 122 c.

(** [[a-zA-Z]] *)
Definition is_alpha (c : ascii) : bool := is_upper c || is_lower c.

(** [\d] *)
Definition is_digit (c : ascii) : bool := in_range 48 57 c.

(** [[A-Za-z0-9]] *)
Definition is_alnum (c : ascii) : bool := is_alpha c || is_digit c.

(** [\w] *)
Definition is_word (c : ascii) : bool := is_alnum c || Ascii.eqb c "_".

(** [\s], also the characters removed by [str.strip()]:
    tab, line feed, vertical tab, form feed, carriage return,
    the four separators 0x1c..0x1f and the space. *)
Definition is_space (c : ascii) : bool := in_range 9 13 c || in_range 28 32 c.

Definition newline : ascii := "010".

(** [c.lower()] and [c.upper()] *)
Definition lower_char (c : ascii) : ascii :=
  if is_upper c then ascii_of_nat (ord c + 32) else c.

Definition upper_char (c : ascii) : ascii :=
  if is_lower c then ascii_of_nat (ord c - 32) else c.

Definition lower (s : str) : str := map lower_char s.

Definition str_eqb (a b : str) : bool :=
  if list_eq_dec ascii_dec a b then true else false.

Definition is_empty (s : str) : bool :=
  match s with [] => true | _ :: _ => false end.

(** [c in s] *)
Definition contains (c : ascii) (s : str) : bool := existsb (Ascii.eqb c) s.

Fixpoint drop_while (p : ascii -> bool) (s : str) : str :=
  match s with
  | [] => []
  | c :: t => if p c then drop_while p t else s
  end.

Fixpoint take_while (p : ascii -> bool) (s : str) : str :=
  match s with
  | [] => []
  | c :: t => if p c then c :: take_while p t else []
  end.

(** [s.strip()] *)
Definition lstrip (s : str) : str := drop_while is_space s.
Definition rstrip (s : str) : str := rev (drop_while is_space (rev s)).
Definition strip (s : str) : str := rstrip (lstrip s).

(** [sep.join(l)] *)
Fixpoint join (sep : str) (l : list str) : str :=
  match l with
  | [] => []
  | x :: t => match t with
              | [] => x
              | _ :: _ => x ++ sep ++ join sep t
              end
  end.

(** [s.startswith(p)], returning what follows the prefix *)
Fixpoint strip_prefix (p s : str) : option str :=
  match p, s with
  | [], _ => Some s
  | _ :: _, [] => None
  | a :: p', b :: s' => if Ascii.eqb a b then strip_prefix p' s' else None
  end.

Definition startswith (s p : str) : bool :=
  match strip_prefix p s with Some _ => true | None => false end.

Definition endswith (s p : str) : bool := startswith (rev s) (rev p).

(** [s.replace(a, b)] for single characters *)
Definition replace_char (a b : ascii) (s : str) : str :=
  map (fun c => if Ascii.eqb c a then b else c) s.

(** [str(n)] for a non-negative integer *)
Definition str_of_nat (n : nat) : str :=
  lit (DecimalString.NilZero.string_of_uint (Nat.to_uint n)).

(** [s.rfind(c)], [None] for -1 *)
Fixpoint rfind (c : ascii) (s : str) : option nat :=
  match s with
  | [] => None
  | x :: t => match rfind c t with
              | Some i => Some (S i)
              | None => if Ascii.eqb x c then Some 0 else None
              end
  end.

(** Comparison of two strings as Python compares them: code point by code
    point, a proper prefix being smaller. *)
Fixpoint str_compare (a b : str) : comparison :=
  match a, b with
  | [], [] => Eq
  | [], _ :: _ => Lt
  | _ :: _, [] => Gt
  | x :: a', y :: b' =>
      match Nat.compare (ord x) (ord y) with
      | Eq => str_compare a' b'
      | r => r
      end
  end.

Definition str_leb (a b : str) : bool :=
  match str_compare a b with Gt => false | _ => true end.

(** Truth value of an optional string: [None] and [''] are false. *)
Definition truthy (o : option str) : bool :=
  match o with
  | Some (_ :: _) => true
  | _ => false
  end.

(** An insertion-ordered [dict] as an association list. *)
Section Dict.
Context {K V : Type} (eqb : K -> K -> bool).

Fixpoint dict_get (d : list (K * V)) (k : K) : option V :=
  match d with
  | [] => None
  | (k', v) :: t => if eqb k k' then Some v else dict_get t k
  end.

Fixpoint dict_set (d : list (K * V)) (k : K) (v : V) : list (K * V) :=
  match d with
  | [] => [(k, v)]
  | (k', v') :: t => if eqb k k' then (k', v) :: t else (k', v') :: dict_set t k v
  end.

End Dict.

(** [d[k].append(x)] on a [defaultdict(list)] *)
Definition dict_append {K V : Type} (eqb : K -> K -> bool)
    (d : list (K * list V)) (k : K) (x : V) : list (K * list V) :=
  match dict_get eqb d k with
  | Some l => dict_set eqb d k (l ++ [x])
  | None => d ++ [(k, [x])]
  end.

(** [sorted(l, key=...)], stable, for a key order given as [leb] *)
Section Sorted.
Context {A : Type} (leb : A -> A -> bool).

Fixpoint insert_sorted (x : A) (l : list A) : list A :=
  match l with
  | [] => [x]
  | y :: t => if leb x y then x :: l else y :: insert_sorted x t
  end.

Definition sorted (l : list A) : list A := fold_right insert_sorted [] l.

(** [m] is an element of [l] that the order puts before every element *)
Definition least (m : A) (l : list A) : Prop :=
  In m l /\ forall y, In y l -> leb m y = true.

End Sorted.

End Py.

(** ** The regular expressions of the source *)
Module Re.
Import Py.

(** [$] holds where the rest of the text is empty or one final line feed. *)
Definition at_eos (s : str) : bool :=
  match s with
  | [] => true
  | [c] => Ascii.eqb c newline
  | _ => false
  end.

(** [[-_\s]] *)
Definition is_sep (c : ascii) : bool :=
  Ascii.eqb c "-" || Ascii.eqb c "_" || is_space c.

(** [[\w\s\.-]], the characters kept by [re.sub(r'[^\w\s\.-]', '', s)] *)
Definition is_kept (c : ascii) : bool :=
  is_word c || is_space c || Ascii.eqb c "." || Ascii.eqb c "-".

(** [_v\d+$] tried at the head of [s]; the result is [group(0)]. *)
Definition match_version_here (s : str) : option str :=
  match s with
  | c1 :: c2 :: t =>
      let ds := take_while is_digit t in
      if Ascii.eqb c1 "_" && Ascii.eqb c2 "v" && negb (is_empty ds)
         && at_eos (drop_while is_digit t)
      then Some (c1 :: c2 :: ds) else None
  | _ => None
  end.

(** [re.search(r'_v\d+$', s)]: the pair [(s[:m.start()], m.group(0))] *)
Fixpoint search_version (s : str) : option (str * str) :=
  match match_version_here s with
  | Some g => Some ([], g)
  | None =>
      match s with
      | [] => None
      | c :: t =>
          match search_version t with
          | Some (pre, g) => Some (c :: pre, g)
          | None => None
          end
      end
  end.

(** [re.sub(r'_v\d+$', '', s)] *)
Fixpoint sub_version (s : str) : str :=
  match match_version_here s with
  | Some g => skipn (List.length g) s
  | None =>
      match s with
      | [] => []
      | c :: t => c :: sub_version t
      end
  end.

(** [re.search(r'([a-zA-Z])$', s)]: [group(1)] *)
Fixpoint search_final_letter (s : str) : option ascii :=
  match s with
  | [] => None
  | c :: t => if is_alpha c && at_eos t then Some c else search_final_letter t
  end.

(** [re.sub(r'[-_\s]', '', s)] *)
Definition remove_seps (s : str) : str := filter (fun c => negb (is_sep c)) s.

(** [re.sub(r'[^\w\s\.-]', '', s)] *)
Definition clean (s : str) : str := filter is_kept s.

(** [re.split(r'[-_\s]', s)] *)
Fixpoint split_seps (s : str) : list str :=
  match s with
  | [] => [[]]
  | c :: t =>
      if is_sep c then [] :: split_seps t
      else match split_seps t with
           | w :: ws => (c :: w) :: ws
           | [] => [[c]]
           end
  end.

(** [re.fullmatch(r'[a-zA-Z]+', s)] *)
Definition fullmatch_alpha (s : str) : bool :=
  negb (is_empty s) && forallb is_alpha s.

(** [re.fullmatch(r'\d+', s)] *)
Definition fullmatch_digits (s : str) : bool :=
  negb (is_empty s) && forallb is_digit s.

(** [re.search(r'[a-zA-Z]', s)] and [re.search(r'\d', s)] *)
Definition search_alpha (s : str) : bool := existsb is_alpha s.
Definition search_digit (s : str) : bool := existsb is_digit s.

(** [re.fullmatch(r'^[A-Za-z0-9]$', s)] *)
Definition fullmatch_alnum1 (s : str) : bool :=
  match s with
  | [c] => is_alnum c
  | _ => false
  end.

(** [re.search(r'\d+\.\d+', s)] *)
Fixpoint search_dotted_version (s : str) : bool :=
  match s with
  | [] => false
  | a :: t =>
      match t with
      | b :: c :: _ =>
          (is_digit a && Ascii.eqb b "." && is_digit c) || search_dotted_version t
      | _ => false
      end
  end.

(** [re.match] of [^([a-zA-Z]+)(\d+.* )$] (the source has no blank in it):
    the pair [(group(1), group(2))].  [.] does not match a line feed. *)
Definition match_brand_model (s : str) : option (str * str) :=
  let letters := take_while is_alpha s in
  let rest := drop_while is_alpha s in
  let not_nl := fun c => negb (Ascii.eqb c newline) in
  match letters, rest with
  | _ :: _, d :: _ =>
      if is_digit d && at_eos (drop_while not_nl rest)
      then Some (letters, take_while not_nl rest)
      else None
  | _, _ => None
  end.

(** [re.sub(rf'^{re.escape(p)}[-_\s]*', '', s, 1)] *)
Definition sub_name_prefix (p s : str) : str :=
  match strip_prefix p s with
  | Some rest => drop_while is_sep rest
  | None => s
  end.

(** [[-_\s]*{v}$] tried at the head of [s], for a [v] that starts with a
    character that is no separator; the result is what follows the match. *)
Definition match_variant_here (v s : str) : option str :=
  match strip_prefix v (drop_while is_sep s) with
  | Some rest => if at_eos rest then Some rest else None
  | None => None
  end.

(** [re.sub(rf'[-_\s]*{re.escape(v)}$', '', s)], same proviso on [v] *)
Fixpoint sub_variant_suffix (v s : str) : str :=
  match match_variant_here v s with
  | Some rest => rest
  | None =>
      match s with
      | [] => []
      | c :: t => c :: sub_variant_suffix v t
      end
  end.

(** [re.match(r'^([A-Za-z0-9]+)', s)]: [group(1)] *)
Definition match_leading_alnum (s : str) : option str :=
  match take_while is_alnum s with
  | [] => None
  | r => Some r
  end.

End Re.

(** ** [os.path] *)
Module OsPath.
Import Py.

(** [sepIndex + 1]: where the last path component starts *)
Definition name_start (p : str) : nat :=
  match rfind "/" p with Some i => S i | None => 0 end.

Definition not_dot (c : ascii) : bool := negb (Ascii.eqb c ".").

(** [os.path.splitext(p)]: the extension starts at the last dot, when that
    dot lies in the last path component and some character of the
    component before it is not a dot. *)
Definition splitext (p : str) : str * str :=
  let start := name_start p in
  match rfind "." p with
  | Some d =>
      if (start <=? d)
         && existsb not_dot (firstn (d - start) (skipn start p))
      then (firstn d p, skipn d p)
      else (p, [])
  | None => (p, [])
  end.

End OsPath.

(** ** [organize.py]: normalizer, extractor, consolidator *)
Module Organize.
Import Py Re OsPath.

(** The stem with a trailing version marker cut off, and the marker
    ([version_match.group(0)], [''] when there is none). *)
Definition strip_version (basename : str) : str * str :=
  match search_version basename with
  | Some (pre, g) => (pre, g)
  | None => (basename, [])
  end.

Definition normalize_filename (filename : str) : str :=
  let '(basename, ext) := splitext filename in
  let basename := fst (strip_version basename) in
  let normalized := lower (strip (remove_seps basename)) in
  normalized ++ lower ext.

Definition convert_alpha_to_numeric_suffix (filename : str) : str :=
  let '(basename, ext) := splitext filename in
  let '(basename, version_suffix) := strip_version basename in
  match search_final_letter basename with
  | Some c =>
      let alpha_char := upper_char c in
      let numeric_value := ord alpha_char - ord "A" + 1 in
      let converted_basename := removelast basename ++ str_of_nat numeric_value in
      converted_basename ++ version_suffix ++ ext
  | None => basename ++ version_suffix ++ ext
  end.

Definition normalize_filename_with_alpha_numeric (filename : str) : str :=
  let alpha_converted := convert_alpha_to_numeric_suffix filename in
  normalize_filename alpha_converted.

Definition is_variant_code (word : str) : bool := fullmatch_alnum1 word.

(** Index of the first element that satisfies [p] *)
Fixpoint find_index {A : Type} (p : A -> bool) (l : list A) : option nat :=
  match l with
  | [] => None
  | x :: t => if p x then Some 0
              else match find_index p t with
                   | Some i => Some (S i)
                   | None => None
                   end
  end.

Definition is_nil {A : Type} (l : list A) : bool :=
  match l with [] => true | _ :: _ => false end.

(** The branch on the number of tokens taken when no token carries a
    dotted version number: [(name_parts, code_parts)]. *)
Definition split_by_arity (parts : list str) : list str * list str :=
  match parts with
  | [single_part] =>
      match match_brand_model single_part with
      | Some (brand, model) => ([brand], [model])
      | None => ([single_part], [])
      end
  | [first_part; second_part] =>
      match match_brand_model first_part with
      | Some (brand, model_part1) => ([brand], [model_part1; second_part])
      | None =>
          if fullmatch_alpha first_part && search_digit second_part
          then ([first_part], [second_part])
          else if 2 <=? List.length second_part
               then ([first_part], [second_part])
               else (parts, [])
      end
  | _ =>
      let first_part := hd [] parts in
      if fullmatch_alpha first_part
      then ([first_part], skipn 1 parts)
      else
        let product_code_start :=
          match find_index search_digit (skipn 1 parts) with
          | Some i => S i
          | None => 1
          end in
        (firstn product_code_start parts, skipn product_code_start parts)
  end.

(** The special case for names such as [Uniserve-UNIO22-4] *)
Definition special_three_token (parts : list str) : option (str * str) :=
  match parts with
  | first_part :: ((second_part :: third_part :: _) as remaining_parts) =>
      if fullmatch_alpha first_part
         && search_alpha second_part && search_digit second_part
         && fullmatch_digits third_part
      then Some (first_part, join "-" remaining_parts)
      else None
  | _ => None
  end.

(** The non-empty tokens of a stem: [cleaned], [re.split] and the
    comprehension [[p for p in parts if p]] *)
Definition tokens (basename : str) : list str :=
  let cleaned := clean basename in
  filter (fun p => negb (is_empty p)) (split_seps cleaned).

(** "Check for variant (single letter/number at the end)" *)
Definition pop_variant (parts : list str) : option str * list str :=
  if (1 <? List.length parts) && is_variant_code (last parts [])
  then (Some (last parts []), removelast parts)
  else (None, parts).

(** "Look for technical terms with version numbers", else the branch on
    the number of tokens: [(name_parts, code_parts)] *)
Definition locate_code (parts : list str) : list str * list str :=
  match find_index search_dotted_version parts with
  | Some 0 => (firstn 1 parts, skipn 1 parts)
  | Some tech_with_version_idx =>
      (firstn tech_with_version_idx parts, skipn tech_with_version_idx parts)
  | None => split_by_arity parts
  end.

(** The block [if code_parts: ... else: code = None] *)
Definition assemble_code (basename : str) (name_parts code_parts : list str)
    (variant : option str) : option str :=
  match code_parts with
  | [] => None
  | [c] => Some c
  | _ =>
      let code_portion :=
        fold_left (fun portion name_part => sub_name_prefix name_part portion)
                  name_parts basename in
      let code_portion :=
        if truthy variant
        then sub_variant_suffix (match variant with Some v => v | None => [] end)
                                code_portion
        else code_portion in
      if contains "_" code_portion && negb (contains "-" code_portion)
      then Some (join "_" code_parts)
      else Some (join "-" code_parts)
  end.

(** The two closing checks, [if not name and code] and
    [if not name and not code] *)
Definition post_check (name code : option str) (parts : list str)
  : option str * option str :=
  let '(name, code) :=
    if negb (truthy name) && truthy code
    then
      let c := match code with Some c => c | None => [] end in
      if negb (search_digit c) && negb (contains "-" c)
      then (Some (replace_char "-" " " c), None)
      else (name, code)
    else (name, code) in
  let name :=
    if negb (truthy name) && negb (truthy code)
    then (if is_nil parts then None else Some (join " " (firstn 1 parts)))
    else name in
  (name, code).

Definition extract_name_code_variant (basename : str)
  : option str * option str * option str :=
  let basename := fst (strip_version basename) in
  let parts := tokens basename in
  if is_nil parts then (None, None, None) else
  match special_three_token parts with
  | Some (first_part, product_code) => (Some first_part, Some product_code, None)
  | None =>
      let '(variant, parts) := pop_variant parts in
      let '(name_parts, code_parts) := locate_code parts in
      let name :=
        if is_nil name_parts then None else Some (strip (join " " name_parts)) in
      let code := assemble_code basename name_parts code_parts variant in
      let '(name, code) := post_check name code parts in
      (name, code, variant)
  end.

End Organize.

(** ** [organize.py]: the code consolidator *)
Module Consolidate.
Import Py Re Organize.

(** The order of [key=lambda x: (-len(x), x)] *)
Definition code_key_leb (a b : str) : bool :=
  (List.length b <? List.length a)
  || ((List.length a =? List.length b) && str_leb a b).

(** The first loop: [code_groups[base].append(code)] *)
Definition group_step (code_groups : list (str * list str)) (code : str)
  : list (str * list str) :=
  match match_leading_alnum code with
  | Some base => dict_append str_eqb code_groups base code
  | None => code_groups
  end.

Definition group_codes (product_codes : list str) : list (str * list str) :=
  fold_left group_step product_codes [].

(** The body of the second loop for one group *)
Definition consolidate_group (consolidated : list (str * str))
    (group : str * list str) : list (str * str) :=
  let codes := snd group in
  if List.length codes =? 1
  then dict_set str_eqb consolidated (hd [] codes) (hd [] codes)
  else
    let sorted_codes := sorted code_key_leb codes in
    let most_specific := hd [] sorted_codes in
    fold_left (fun d code => dict_set str_eqb d code most_specific)
              codes consolidated.

(** What the second loop records for every code of a group *)
Definition representative (codes : list str) : str :=
  if List.length codes =? 1 then hd [] codes
  else hd [] (sorted code_key_leb codes).

(** The group of a base after more codes [m] were appended to it *)
Definition extend (o : option (list str)) (m : list str) : option (list str) :=
  match m with
  | [] => o
  | _ :: _ => Some (match o with Some g => g | None => [] end ++ m)
  end.

(** [product_codes] is the set's elements in iteration order.  The empty
    set is returned as it is, here the empty mapping. *)
Definition consolidate_product_codes (product_codes : list str)
  : list (str * str) :=
  if is_nil product_codes then []
  else fold_left consolidate_group (group_codes product_codes) [].

End Consolidate.

(** ** The consolidator as the specification words it *)
Module ConsolidateSpec.
Import Py Re Consolidate.

(** The codes of [codes] whose leading alphanumeric run is [base] *)
Definition same_base (base code : str) : bool :=
  match match_leading_alnum code with
  | Some b => str_eqb b base
  | None => false
  end.

Definition group_of (base : str) (codes : list str) : list str :=
  filter (same_base base) codes.

(** [x] is a strict prefix of [y] *)
Definition strict_prefix (x y : str) : Prop :=
  exists t, t <> [] /\ y = x ++ t.

(** "when two codes of a group share the maximal length, every code of the
    group maps to the lexicographically later of them" *)
Definition later_tie_break : Prop :=
  forall (codes : list str) (base c x y : str),
    NoDup codes ->
    In c (group_of base codes) ->
    In x (group_of base codes) -> In y (group_of base codes) ->
    (forall z, In z (group_of base codes) -> List.length z <= List.length x) ->
    List.length x = List.length y ->
    str_compare x y = Lt ->
    dict_get str_eqb (consolidate_product_codes codes) c = Some y.

End ConsolidateSpec.

(** ** Notions used to state the extractor's properties *)
Module ExtractSpec.
Import Py Re.

(** A token: not empty, no separator inside *)
Definition token_ok (t : str) : Prop :=
  t <> [] /\ forallb (fun c => negb (is_sep c)) t = true.

(** A string with a character that [strip] keeps *)
Definition has_ink (t : str) : Prop :=
  existsb (fun c => negb (is_space c)) t = true.

(** A letter, a digit or a dot: what the tokens of a product code are made
    of *)
Definition is_code_char (c : ascii) : bool := is_alnum c || Ascii.eqb c ".".

(** A token of a product code: letters, digits and dots, at least one *)
Definition code_token (t : str) : bool :=
  negb (is_empty t) && forallb is_code_char t.

(** The codes, given by their hyphen-joined tokens, that come back whole
    after a purely alphabetic brand: one token of two characters or more;
    or several, either a token with a letter and a digit followed by a
    token of digits, or a last token that is no variant and no dotted
    version number after the first token unless the first token has one *)
Definition recoverable (toks : list str) : bool :=
  match toks with
  | [] => false
  | [t] => 2 <=? List.length t
  | t1 :: t2 :: _ =>
      (search_alpha t1 && search_digit t1 && fullmatch_digits t2)
      || (negb (Organize.is_variant_code (last toks []))
          && (search_dotted_version t1
              || forallb (fun t => negb (search_dotted_version t)) toks))
  end.

End ExtractSpec.

(** ** The alpha-numeric key as the specification words it *)
Module NormalizeSpec.
Import Py Re.

Definition alphabet : str := "ABCDEFGHIJKLMNOPQRSTUVWXYZ".

(** The 1-based position of a letter in the alphabet, A or a being 1 *)
Definition alpha_position (c : ascii) : nat :=
  match Organize.find_index (Ascii.eqb (upper_char c)) alphabet with
  | Some i => S i
  | None => 0
  end.

(** The stem ends in a letter that follows a separator. *)
Definition ends_in_sep_letter (s : str) : bool :=
  match rev s with
  | c :: sep :: _ => is_alpha c && is_sep sep
  | _ => false
  end.

(** The stem ends in a letter, or in a letter and one final line feed
    (where [$] holds as well). *)
Definition ends_in_letter (s : str) : bool :=
  match rev s with
  | c :: rest =>
      is_alpha c
      || (Ascii.eqb c newline
          && match rest with c' :: _ => is_alpha c' | [] => false end)
  | [] => false
  end.

End NormalizeSpec.

(** ** The file tree

    The state of the run is the tree below the folder it is given.  A
    directory lists its entries in the order [os.listdir] and [os.walk]
    report them; a new entry goes to the end.  A file carries an identity and
    its modification time.  Paths are lists of components from the root of
    the tree; there are no links and no permissions in the model: an
    operation fails only for the shape of the tree, except where a caller
    passes an oracle for failures. *)
Module Fs.
Import Py.

#[warnings="-register-all"]
Inductive node : Type :=
| File (ident : nat) (mtime : Z)
| Dir (entries : list (str * node)).

Abbreviation path := (list str).

Definition is_dir (n : node) : bool :=
  match n with Dir _ => true | File _ _ => false end.

Definition is_file (n : node) : bool :=
  match n with Dir _ => false | File _ _ => true end.

Fixpoint lookup (n : node) (p : path) : option node :=
  match p with
  | [] => Some n
  | c :: p' =>
      match n with
      | Dir es =>
          match dict_get str_eqb es c with
          | Some ch => lookup ch p'
          | None => None
          end
      | File _ _ => None
      end
  end.

(** [os.path.exists], [os.path.isfile], [os.path.isdir], [os.listdir] *)
Definition exists_ (fs : node) (p : path) : bool :=
  match lookup fs p with Some _ => true | None => false end.

Definition isfile (fs : node) (p : path) : bool :=
  match lookup fs p with Some (File _ _) => true | _ => false end.

Definition isdir (fs : node) (p : path) : bool :=
  match lookup fs p with Some (Dir _) => true | _ => false end.

Definition listdir (fs : node) (p : path) : list str :=
  match lookup fs p with Some (Dir es) => map fst es | _ => [] end.

Definition dict_remove {V : Type} (d : list (str * V)) (k : str) : list (str * V) :=
  filter (fun e => negb (str_eqb k (fst e))) d.

(** The tree without the entry at [p] (and what is below it) *)
Fixpoint remove (n : node) (p : path) : node :=
  match p with
  | [] => n
  | c :: p' =>
      match n with
      | File _ _ => n
      | Dir es =>
          match p' with
          | [] => Dir (dict_remove es c)
          | _ :: _ =>
              match dict_get str_eqb es c with
              | Some ch => Dir (dict_set str_eqb es c (remove ch p'))
              | None => n
              end
          end
      end
  end.

(** The tree with [x] as the entry at [p]; the parent of [p] has to be a
    directory. *)
Fixpoint put (n : node) (p : path) (x : node) : option node :=
  match p with
  | [] => None
  | c :: p' =>
      match n with
      | File _ _ => None
      | Dir es =>
          match p' with
          | [] => Some (Dir (dict_set str_eqb es c x))
          | _ :: _ =>
              match dict_get str_eqb es c with
              | Some ch =>
                  match put ch p' x with
                  | Some ch' => Some (Dir (dict_set str_eqb es c ch'))
                  | None => None
                  end
              | None => None
              end
          end
      end
  end.

(** [os.makedirs(p, exist_ok=True)]; [None] when a file is in the way *)
Fixpoint makedirs (n : node) (p : path) : option node :=
  match n with
  | File _ _ => None
  | Dir es =>
      match p with
      | [] => Some n
      | c :: p' =>
          let ch := match dict_get str_eqb es c with
                    | Some ch => ch
                    | None => Dir []
                    end in
          match makedirs ch p' with
          | Some ch' => Some (Dir (dict_set str_eqb es c ch'))
          | None => None
          end
      end
  end.

Definition path_eqb (p q : path) : bool :=
  if list_eq_dec (list_eq_dec ascii_dec) p q then true else false.

Fixpoint is_prefix (p q : path) : bool :=
  match p, q with
  | [], _ => true
  | _ :: _, [] => false
  | a :: p', b :: q' => str_eqb a b && is_prefix p' q'
  end.

Definition basename (p : path) : str := last p [].

(** [shutil.move(src, dst)]; [None] when it raises, the tree being then as
    it was.  A file replaces a file; a directory does not; an existing
    directory [dst] receives the source under its own name. *)
Definition move (fs : node) (src dst : path) : option node :=
  match lookup fs src with
  | None => None
  | Some x =>
      if isdir fs dst && path_eqb src dst then Some fs else
      let real_dst := if isdir fs dst then dst ++ [basename src] else dst in
      if isdir fs dst && exists_ fs real_dst then None
      else if path_eqb src real_dst then Some fs
      else if is_prefix src real_dst then None
      else if is_dir x && exists_ fs real_dst then None
      else put (remove fs src) real_dst x
  end.

(** [os.walk(top)], top-down: a triple [(root, dirs, files)] for every
    directory, the directory first and then its sub-directories in order *)
Fixpoint walk (here : path) (n : node) : list (path * list str * list str) :=
  match n with
  | File _ _ => []
  | Dir es =>
      (here,
       map fst (filter (fun e => is_dir (snd e)) es),
       map fst (filter (fun e => is_file (snd e)) es))
      :: flat_map (fun e => walk (here ++ [fst e]) (snd e)) es
  end.

(** The directories that [os.walk(top, topdown=False)] names in the [dirs]
    of its triples, in the order of the triples *)
Fixpoint walk_dirs_bottom_up (here : path) (n : node) : list path :=
  match n with
  | File _ _ => []
  | Dir es =>
      flat_map (fun e => walk_dirs_bottom_up (here ++ [fst e]) (snd e)) es
      ++ map (fun e => here ++ [fst e]) (filter (fun e => is_dir (snd e)) es)
  end.

(** The roots of the triples of [os.walk(top, topdown=False)] *)
Fixpoint walk_roots_bottom_up (here : path) (n : node) : list path :=
  match n with
  | File _ _ => []
  | Dir es =>
      flat_map (fun e => walk_roots_bottom_up (here ++ [fst e]) (snd e)) es
      ++ [here]
  end.

End Fs.

(** ** [organize.py]: the collision resolver and the folder materializer *)
Module Materialize.
Import Py Re OsPath Organize Consolidate Fs.

(** [s.split(c)] *)
Fixpoint split_char (c : ascii) (s : str) : list str :=
  match s with
  | [] => [[]]
  | x :: t =>
      if Ascii.eqb x c then [] :: split_char c t
      else match split_char c t with
           | w :: ws => (x :: w) :: ws
           | [] => [[x]]
           end
  end.

(** [os.path.basename] of a string *)
Definition str_basename (s : str) : str := skipn (name_start s) s.

(** The leftmost place where [m] matches what remains of [s]:
    [(s[:start], result)] *)
Fixpoint search_at {A : Type} (m : str -> option A) (s : str) : option (str * A) :=
  match m s with
  | Some r => Some ([], r)
  | None =>
      match s with
      | [] => None
      | c :: t =>
          match search_at m t with
          | Some (pre, r) => Some (c :: pre, r)
          | None => None
          end
      end
  end.

Definition is_dash (c : ascii) : bool := Ascii.eqb c "-" || Ascii.eqb c "_".

(** [[-_]([A-Za-z])$] at the head of [s]: [group(1)] *)
Definition match_letter_suffix (s : str) : option str :=
  match s with
  | c0 :: c1 :: t =>
      if is_dash c0 && is_alpha c1 && at_eos t then Some [c1] else None
  | _ => None
  end.

(** [[-_](\d+)$] at the head of [s]: [group(1)] *)
Definition match_digit_suffix (s : str) : option str :=
  match s with
  | c0 :: t =>
      let ds := take_while is_digit t in
      if is_dash c0 && negb (is_empty ds) && at_eos (drop_while is_digit t)
      then Some ds else None
  | [] => None
  end.

(** [[-_]([A-Za-z]\d+)$] at the head of [s]: [group(1)] *)
Definition match_letter_digit_suffix (s : str) : option str :=
  match s with
  | c0 :: c1 :: t =>
      let ds := take_while is_digit t in
      if is_dash c0 && is_alpha c1 && negb (is_empty ds)
         && at_eos (drop_while is_digit t)
      then Some (c1 :: ds) else None
  | _ => None
  end.

Definition extract_basename_and_suffix (filename : str) : str * option str :=
  let '(basename_no_ext, ext) := splitext filename in
  let basename_no_ext := fst (strip_version basename_no_ext) in
  match search_at match_letter_suffix basename_no_ext with
  | Some (basename, suffix) => (basename, Some suffix)
  | None =>
      match search_at match_digit_suffix basename_no_ext with
      | Some (basename, suffix) => (basename, Some suffix)
      | None =>
          match search_at match_letter_digit_suffix basename_no_ext with
          | Some (basename, suffix) => (basename, Some suffix)
          | None => (basename_no_ext, None)
          end
      end
  end.

Definition get_file_category (filename : str) : option str :=
  let ext := lower (snd (splitext filename)) in
  let basename := lower (str_basename filename) in
  if startswith basename "img" then Some (lit "Unedited")
  else if str_eqb ext ".webp" then Some (lit "WEBP")
  else if str_eqb ext ".jpg" || str_eqb ext ".jpeg" || str_eqb ext ".png"
       then Some (lit "JPEG")
  else if str_eqb ext ".mov" then Some (lit "Video/Unedited video")
  else if str_eqb ext ".mp4" then Some (lit "Video/Edited video")
  else None.

(** The test of [find_existing_file_variant] on two names *)
Definition same_asset (filename existing_file : str) : bool :=
  let normalized_new := normalize_filename filename in
  let alpha_numeric_new := normalize_filename_with_alpha_numeric filename in
  let normalized_existing := normalize_filename existing_file in
  let alpha_numeric_existing := normalize_filename_with_alpha_numeric existing_file in
  str_eqb normalized_new normalized_existing
  || str_eqb alpha_numeric_new alpha_numeric_existing
  || str_eqb normalized_new alpha_numeric_existing
  || str_eqb alpha_numeric_new normalized_existing.

Definition find_existing_file_variant (fs : node) (target_folder : path)
    (filename : str) : option path :=
  if negb (exists_ fs target_folder) then None else
  match find (fun existing_file =>
                isfile fs (target_folder ++ [existing_file])
                && same_asset filename existing_file)
             (listdir fs target_folder) with
  | Some existing_file => Some (target_folder ++ [existing_file])
  | None => None
  end.

(** The first pass of [determine_final_product_codes]:
    [(all_product_codes, file_to_product_code)]; the set is kept in the order
    of first insertion. *)
Definition collect_codes (brand_files : list str)
  : list str * list (str * str) :=
  fold_left
    (fun acc filename =>
       let '(all_product_codes, file_to_product_code) := acc in
       let '(basename, suffix) := extract_basename_and_suffix filename in
       let '(name, product_code, variant) := extract_name_code_variant basename in
       if truthy product_code
       then
         let code := match product_code with Some c => c | None => [] end in
         ((if existsb (str_eqb code) all_product_codes
           then all_product_codes else all_product_codes ++ [code]),
          dict_set str_eqb file_to_product_code filename code)
       else acc)
    brand_files ([], []).

Definition determine_final_product_codes (brand_files : list str)
  : list (str * str) :=
  let '(all_product_codes, file_to_product_code) := collect_codes brand_files in
  let code_mapping := consolidate_product_codes all_product_codes in
  fold_left
    (fun final filename_code =>
       let '(filename, original_code) := filename_code in
       match dict_get str_eqb code_mapping original_code with
       | Some c => dict_set str_eqb final filename c
       | None => dict_set str_eqb final filename original_code
       end)
    file_to_product_code [].

(** How a run stands: going on or completed, stopped by an exception that
    nothing catches, or outside the model (a folder name that is [.] or
    [..], which the tree does not interpret). *)
Variant status : Type := Normal | Raised | Unmodelled.

Record state : Type := mk_state {
  tree : node;
  stamps : nat;
  stat : status
}.

Definition running (st : state) : bool :=
  match stat st with Normal => true | _ => false end.

Definition with_tree (st : state) (t : node) : state :=
  mk_state t (stamps st) (stat st).

Definition with_status (st : state) (s : status) : state :=
  mk_state (tree st) (stamps st) s.

(** A name that [os.path.join] adds as one component below a folder *)
Definition plain_component (c : str) : bool :=
  negb (is_empty c) && negb (str_eqb c ".") && negb (str_eqb c "..")
  && negb (contains "/" c).

Definition do_makedirs (st : state) (p : path) : state :=
  if negb (running st) then st else
  match makedirs (tree st) p with
  | Some t => with_tree st t
  | None => with_status st Raised
  end.

(** The creation of the category folders, one [os.makedirs] for each part
    of the category *)
Definition make_category_folders (st : state) (target_folder : path)
    (parts : list str) : state * path :=
  fold_left
    (fun acc part =>
       let '(st, category_folder_path) := acc in
       (do_makedirs st (category_folder_path ++ [part]),
        category_folder_path ++ [part]))
    parts (st, target_folder).

Section Run.

(** [datetime.now().strftime("%Y%m%d_%H%M%S")] at the k-th call of
    [handle_existing_file] *)
Variable clock : nat -> str.

Definition category_parts (category : option str) : list str :=
  if truthy category
  then split_char "/" (match category with Some c => c | None => [] end)
  else [].

Definition create_old_images_folder (st : state) (target_folder : path)
    (category : option str) : state * path :=
  let old_images_path := (target_folder ++ [lit "Old Images"]) ++ category_parts category in
  if exists_ (tree st) old_images_path then (st, old_images_path)
  else (do_makedirs st old_images_path, old_images_path).

Definition replaced_name (filename timestamp : str) : str :=
  let '(base, ext) := splitext filename in
  base ++ "_replaced_" ++ timestamp ++ ext.

Definition handle_existing_file (st : state) (existing_file_path : path)
    (old_images_folder : path) : state :=
  if negb (running st) then st else
  let filename := basename existing_file_path in
  let timestamp := clock (stamps st) in
  let new_name := replaced_name filename timestamp in
  let old_file_path := old_images_folder ++ [new_name] in
  let t := match move (tree st) existing_file_path old_file_path with
           | Some t => t
           | None => tree st
           end in
  mk_state t (S (stamps st)) (stat st).

(** The first [os.path.join(root, filename)] of the walk with [filename]
    among the files of [root] *)
Definition find_file_path (fs : node) (filename : str) : option path :=
  match find (fun t => existsb (str_eqb filename) (snd t)) (walk [] fs) with
  | Some t => Some (fst (fst t) ++ [filename])
  | None => None
  end.

(** The body of the loop over the files of a product code group *)
Definition place_file (target_folder : path) (st : state) (filename : str)
  : state :=
  if negb (running st) then st else
  match find_file_path (tree st) filename with
  | None => st
  | Some file_path =>
      let file_category := get_file_category filename in
      let '(st, final_destination_folder) :=
        make_category_folders st target_folder (category_parts file_category) in
      if negb (running st) then st else
      let existing_file_path :=
        find_existing_file_variant (tree st) final_destination_folder filename in
      let final_destination := final_destination_folder ++ [filename] in
      let st :=
        match existing_file_path with
        | Some existing =>
            let '(st, old_images_folder) :=
              create_old_images_folder st target_folder file_category in
            handle_existing_file st existing old_images_folder
        | None =>
            if exists_ (tree st) final_destination
            then
              let '(st, old_images_folder) :=
                create_old_images_folder st target_folder file_category in
              handle_existing_file st final_destination old_images_folder
            else st
        end in
      if negb (running st) then st else
      if path_eqb file_path final_destination then st
      else match move (tree st) file_path final_destination with
           | Some t => with_tree st t
           | None => st
           end
  end.

(** The body of the loop over the product code groups of a brand *)
Definition place_group (brand_name : str) (st : state)
    (group : option str * list str) : state :=
  if negb (running st) then st else
  let '(product_code, files_in_product) := group in
  if negb (plain_component brand_name) then with_status st Unmodelled else
  let brand_folder_path := [brand_name] in
  let st := do_makedirs st brand_folder_path in
  if truthy product_code
  then
    let code := match product_code with Some c => c | None => [] end in
    if negb (plain_component code) then with_status st Unmodelled else
    let product_folder_path := brand_folder_path ++ [code] in
    let st := do_makedirs st product_folder_path in
    fold_left (place_file product_folder_path) files_in_product st
  else fold_left (place_file brand_folder_path) files_in_product st.

Definition option_str_eqb (a b : option str) : bool :=
  match a, b with
  | Some x, Some y => str_eqb x y
  | None, None => true
  | _, _ => false
  end.

(** [product_code_groups], keyed by the final product code or [None] *)
Definition group_by_code (files : list str) (file_to_final : list (str * str))
  : list (option str * list str) :=
  fold_left
    (fun groups filename =>
       dict_append option_str_eqb groups (dict_get str_eqb file_to_final filename)
                   filename)
    files [].

(** The body of the loop over the brands *)
Definition place_brand (st : state) (brand : str * list str) : state :=
  let '(brand_name, files) := brand in
  let file_to_final_product_code := determine_final_product_codes files in
  let product_code_groups := group_by_code files file_to_final_product_code in
  fold_left (place_group brand_name) product_code_groups st.

(** The first pass: [brand_files] *)
Definition collect_brand_files (fs : node) : list (str * list str) :=
  fold_left
    (fun brand_files filename =>
       if negb (contains "." filename) then brand_files else
       let basename_no_ext := fst (splitext filename) in
       let '(name, product_code, variant) :=
         extract_name_code_variant basename_no_ext in
       if truthy name
       then dict_append str_eqb brand_files
                        (match name with Some n => n | None => [] end) filename
       else brand_files)
    (flat_map (fun t => snd t) (walk [] fs)) [].

Definition organize_webp_folder_only (st : state) : state :=
  fold_left place_brand (collect_brand_files (tree st)) st.

(** *** Pruning *)

(** [shutil.rmtree] succeeds on this directory; where it does not, the
    directory is left as it was. *)
Variable can_remove : path -> bool.

(** The inner walk of [clean_up_empty_product_folders]: no file below, and
    no directory other than ones named [Old Images] *)
Fixpoint only_old_images (n : node) : bool :=
  match n with
  | File _ _ => false
  | Dir es =>
      forallb (fun e => is_dir (snd e) && str_eqb (fst e) "Old Images"
                        && only_old_images (snd e)) es
  end.

(** The test and removal applied to a directory [name] of the [dirs] of a
    triple *)
Definition pruned (here : path) (e : str * node) : bool :=
  is_dir (snd e) && negb (str_eqb (fst e) "Old Images")
  && only_old_images (snd e) && can_remove (here ++ [fst e]).

(** The bottom-up walk: the sub-directories are walked first, each in its
    own subtree, then the directories of this one are tested in turn. *)
Fixpoint clean_up_from (here : path) (n : node) : node :=
  match n with
  | File _ _ => n
  | Dir es =>
      let walked :=
        map (fun e => (fst e, clean_up_from (here ++ [fst e]) (snd e))) es in
      Dir (filter (fun e => negb (pruned here e)) walked)
  end.

Definition clean_up_empty_product_folders (fs : node) : node :=
  clean_up_from [] fs.

(** [organize_webp_files]: [folder] is [None] when the path does not exist.
    The result is the tree, how the run stands, and the value returned, if
    any. *)
Definition organize_webp_files (folder : option node)
  : option node * status * option bool :=
  match folder with
  | None => (None, Normal, Some false)
  | Some fs =>
      let st := organize_webp_folder_only (mk_state fs 0 Normal) in
      match stat st with
      | Normal => (Some (clean_up_empty_product_folders (tree st)), Normal, Some true)
      | s => (Some (tree st), s, None)
      end
  end.

End Run.

End Materialize.

(** ** Notions used to state what a run leaves in place *)
Module FrameSpec.
Import Py Fs.

(** The file [File i m] is at path [p]. *)
Definition file_at (fs : node) (p : path) (i : nat) (m : Z) : Prop :=
  lookup fs p = Some (File i m).

(** A name without a dot; a path none of whose components has a dot *)
Definition dotless (c : str) : bool := negb (contains "." c).

Definition plain (p : path) : bool := forallb dotless p.

(** Every file of [fs] is at its path in [fs']. *)
Definition keeps_files (fs fs' : node) : Prop :=
  forall p i m, file_at fs p i m -> file_at fs' p i m.


(** Some file lies at or below [p]. *)
Definition holds_file (fs : node) (p : path) : Prop :=
  exists q i m, file_at fs (p ++ q) i m.

End FrameSpec.

(** ** [split.py]: the version chain and the aggressive pruning

    Paths are taken from the main folder.  [pathlib]'s [suffix] is the one
    of Python up to 3.13: the last dot of the name starts the suffix unless
    it is the first or the last character. *)
Module Split.
Import Py Re Fs.

(** [Path(p).suffix] and [Path(p).stem] of a name *)
Definition suffix (name : str) : str :=
  match rfind "." name with
  | Some i => if (0 <? i) && (i <? List.length name - 1) then skipn i name else []
  | None => []
  end.

Definition stem (name : str) : str :=
  match rfind "." name with
  | Some i => if (0 <? i) && (i <? List.length name - 1) then firstn i name else name
  | None => name
  end.

(** The name of [get_versioned_filename(file_path, version)] *)
Definition versioned_name (name : str) (version : nat) : str :=
  sub_version (stem name) ++ "_v" ++ str_of_nat version ++ suffix name.

Definition get_versioned_filename (file_path : path) (version : nat) : path :=
  removelast file_path ++ [versioned_name (basename file_path) version].

(** [directory.glob(f"{base_name}*{extension}")] for a base name and an
    extension without the characters that a glob pattern interprets: the
    entries whose name starts with the one and ends with the other. *)
Definition glob_match (base_name extension name : str) : bool :=
  startswith name base_name && endswith name extension
  && (List.length base_name + List.length extension <=? List.length name).

Definition glob (fs : node) (directory : path) (base_name extension : str)
  : list path :=
  map (fun name => directory ++ [name])
      (filter (glob_match base_name extension) (listdir fs directory)).

(** [enumerate(l, 1)] *)
Fixpoint enumerate_from {A : Type} (n : nat) (l : list A) : list (nat * A) :=
  match l with
  | [] => []
  | x :: t => (n, x) :: enumerate_from (S n) t
  end.

Section VersionChain.

(** The modification time of a directory, which the tree does not keep *)
Variable dir_mtime : path -> Z.

(** [os.path.getmtime], 0 when the path is not there *)
Definition get_file_timestamp (fs : node) (p : path) : Z :=
  match lookup fs p with
  | Some (File _ m) => m
  | Some (Dir _) => dir_mtime p
  | None => 0%Z
  end.

(** [conflicting_files] before it is sorted: what the glob finds, the
    source left out, and then the source *)
Definition collect_conflicting (fs : node) (source_file dest_file : path)
  : list (Z * path) :=
  let base_name := sub_version (stem (basename dest_file)) in
  let extension := suffix (basename dest_file) in
  let directory := removelast dest_file in
  map (fun f => (get_file_timestamp fs f, f))
      (filter (fun f => negb (path_eqb f source_file))
              (glob fs directory base_name extension))
  ++ [(get_file_timestamp fs source_file, source_file)].

(** [conflicting_files] after [sort(key=lambda x: x[0])] *)
Definition conflicting_files (fs : node) (source_file dest_file : path)
  : list (Z * path) :=
  sorted (fun a b => (fst a <=? fst b)%Z)
         (collect_conflicting fs source_file dest_file).

(** The renamings that the loop of [resolve_conflict] asks for, in order:
    [(file_path, new_path)] *)
Definition version_chain (fs : node) (source_file dest_file webp_folder : path)
  : list (path * path) :=
  map (fun e => (snd (snd e),
                 webp_folder ++ [versioned_name (basename (snd (snd e))) (fst e)]))
      (enumerate_from 1 (conflicting_files fs source_file dest_file)).

(** One turn of the loop of [resolve_conflict]; the flag is false once a
    move has raised, which nothing catches. *)
Definition rename_step (acc : node * bool) (e : path * path) : node * bool :=
  let '(fs, ok) := acc in
  if negb ok then acc else
  let '(file_path, new_path) := e in
  if exists_ fs file_path
  then match move fs file_path new_path with
       | Some fs' => (fs', true)
       | None => (fs, false)
       end
  else acc.

(** The result is the tree and the path returned, [None] when a move has
    raised. *)
Definition resolve_conflict (fs : node) (source_file dest_file webp_folder : path)
  : node * option path :=
  let chain := version_chain fs source_file dest_file webp_folder in
  let '(fs', ok) := fold_left rename_step chain (fs, true) in
  (fs',
   if ok
   then Some (webp_folder
              ++ [versioned_name (basename source_file) (List.length chain)])
   else None).

(** [move_file_safely]: the tree and the path returned, [None] when the
    creation of the parent folders or a move has raised *)
Definition move_file_safely (fs : node) (source_file dest_file webp_folder : path)
  : node * option path :=
  match makedirs fs (removelast dest_file) with
  | None => (fs, None)
  | Some fs1 =>
      if negb (exists_ fs1 dest_file)
      then match move fs1 source_file dest_file with
           | Some fs2 => (fs2, Some dest_file)
           | None => (fs1, None)
           end
      else resolve_conflict fs1 source_file dest_file webp_folder
  end.

End VersionChain.

(** *** Pruning *)
Section Pruning.

(** One of the three strategies of [force_remove_directory] succeeds on
    this directory. *)
Variable can_remove : path -> bool.

Definition kept_folders : list path :=
  [ []; [lit "Needs Labeling"];
    [lit "__WEBP To be move to the right folders"]; [lit "gslisting"] ].

Definition is_kept_folder (p : path) : bool := existsb (path_eqb p) kept_folders.

Definition force_remove_directory (fs : node) (dir_path : path) : node * bool :=
  match lookup fs dir_path with
  | Some (Dir _) =>
      if can_remove dir_path then (remove fs dir_path, true) else (fs, false)
  | _ => (fs, false)
  end.

Definition is_directory_truly_empty (fs : node) (dir_path : path) : bool :=
  match lookup fs dir_path with
  | Some (Dir []) => true
  | _ => false
  end.

(** The loop over [all_dirs] of one pass: the tree and [current_pass_removed] *)
Definition pass_step (acc : node * nat) (dir_path : path) : node * nat :=
  let '(fs, removed) := acc in
  if is_kept_folder dir_path || negb (exists_ fs dir_path) then acc
  else if is_directory_truly_empty fs dir_path
       then let '(fs', ok) := force_remove_directory fs dir_path in
            if ok then (fs', S removed) else (fs, removed)
       else acc.

Definition aggressive_pass (fs : node) : node * nat :=
  let all_dirs :=
    sorted (fun a b : path => List.length b <=? List.length a)
           (walk_dirs_bottom_up [] fs) in
  fold_left pass_step all_dirs (fs, 0).

(** [for pass_num in range(max_passes)], leaving at the first pass that
    removes nothing *)
Fixpoint aggressive_passes (max_passes : nat) (fs : node) (removed : nat)
  : node * nat :=
  match max_passes with
  | 0 => (fs, removed)
  | S n =>
      let '(fs', current_pass_removed) := aggressive_pass fs in
      if current_pass_removed =? 0 then (fs', removed)
      else aggressive_passes n fs' (removed + current_pass_removed)
  end.

(** The final verification: the tree and [final_removed] *)
Definition final_step (acc : node * nat) (empty_dir : path) : node * nat :=
  let '(fs, final_removed) := acc in
  let '(fs', ok) := force_remove_directory fs empty_dir in
  if ok then (fs', S final_removed) else (fs, final_removed).

(** The result is the tree and the pair that the function returns. *)
Definition remove_empty_dirs_aggressive (fs : node) : node * (nat * nat) :=
  let '(fs, removed) := aggressive_passes 10 fs 0 in
  let remaining_empty :=
    filter (fun root_path =>
              negb (is_kept_folder root_path) && negb (path_eqb root_path [])
              && is_directory_truly_empty fs root_path)
           (walk_roots_bottom_up [] fs) in
  let '(fs', final_removed) := fold_left final_step remaining_empty (fs, 0) in
  (fs', (removed + final_removed, List.length remaining_empty - final_removed)).

End Pruning.

End Split.

(** ** [split.py]: the classification of names

    The functions below are applied to names, the last component of a path
    ([file_path.name], the [files] of [os.walk]); [Path(name).suffix] and
    [Path(name).stem] are then [Split.suffix] and [Split.stem]; the names
    [.] and [..] are no names of files. *)
Module Classify.
Import Py Re Split.

Definition media_extensions : list str :=
  [lit ".webp"; lit ".jpg"; lit ".jpeg"; lit ".mov"; lit ".mp4"; lit ".png"].

Definition is_media_file (filename : str) : bool :=
  existsb (str_eqb (lower (suffix filename))) media_extensions.

(** [bool(re.search(...))] for an expression given by the function [m] that
    tells whether it matches at the head of a text *)
Fixpoint search_bool (m : str -> bool) (s : str) : bool :=
  m s || match s with
         | [] => false
         | _ :: t => search_bool m t
         end.

(** [\d{8}_\d{6}] at the head of [s] *)
Definition match_timestamp (s : str) : bool :=
  (List.length (firstn 8 s) =? 8) && forallb is_digit (firstn 8 s)
  && match skipn 8 s with
     | c :: t =>
         Ascii.eqb c "_" && (List.length (firstn 6 t) =? 6)
         && forallb is_digit (firstn 6 t)
     | [] => false
     end.

Definition is_image_file (filename : str) : bool :=
  if endswith (lower filename) ".mov" then false
  else startswith (lower filename) "img"
       || startswith (lower filename) "images"
       || startswith (lower filename) "image"
       || search_bool match_timestamp filename.

(** [_v\d+] at the head of [s] *)
Definition match_version_mark (s : str) : bool :=
  match s with
  | c1 :: c2 :: c3 :: _ => Ascii.eqb c1 "_" && Ascii.eqb c2 "v" && is_digit c3
  | _ => false
  end.

Definition is_versioned_file (filename : str) : bool :=
  search_bool match_version_mark filename.

(** [[-_\s][A-Za-z0-9]$] at the head of [s] *)
Definition match_sequence (s : str) : bool :=
  match s with
  | c0 :: c1 :: t => is_sep c0 && is_alnum c1 && at_eos t
  | _ => false
  end.

Definition has_sequence_suffix (filename : str) : bool :=
  search_bool match_sequence (stem filename).

(** The result is the name of the path returned. *)
Definition ensure_sequence_suffix (filename : str) : str :=
  if has_sequence_suffix filename then filename
  else stem filename ++ "-0" ++ suffix filename.

End Classify.

(** ** [split.py]: the intake of [.mov] files and of [.gslisting] folders

    Paths are taken from the main folder, so a path is the [parts] of its
    [relative_to(main_path)].  The names that go into a glob pattern are
    taken to be free of the characters that a pattern interprets. *)
Module Intake.
Import Py Re Fs Split.

(** [string.ascii_uppercase] *)
Definition ascii_uppercase : str := "ABCDEFGHIJKLMNOPQRSTUVWXYZ".

(** How a call ends: with the path it returns, or with an exception that it
    does not catch *)
Variant result : Type :=
| Returns (dest : path)
| IndexError
| MoveError.

Definition mov_brand (parts : path) : str :=
  if 1 <? List.length parts then nth 0 parts [] else lit "UnknownBrand".

Definition mov_product (parts : path) : str :=
  if 2 <? List.length parts then nth 1 parts [] else lit "UnknownProduct".

(** [existing_files] *)
Definition mov_existing (fs : node) (file_path webp_folder : path) : list path :=
  glob fs webp_folder
       (mov_brand file_path ++ "-" ++ mov_product file_path ++ "-")
       (suffix (basename file_path)).

Definition process_mov_file (fs : node) (file_path webp_folder : path)
  : node * result :=
  let brand := mov_brand file_path in
  let product := mov_product file_path in
  let existing_files := mov_existing fs file_path webp_folder in
  let seq_id :=
    if Organize.is_nil existing_files then Some "A"%char
    else nth_error ascii_uppercase (List.length existing_files) in
  match seq_id with
  | None => (fs, IndexError)
  | Some c =>
      let new_name :=
        brand ++ "-" ++ product ++ "-" ++ [c] ++ suffix (basename file_path) in
      let dest := webp_folder ++ [new_name] in
      match move fs file_path dest with
      | Some fs' => (fs', Returns dest)
      | None => (fs, MoveError)
      end
  end.

(** [f"{original_dest.stem}_{counter}{original_dest.suffix}"] *)
Definition numbered_name (name : str) (counter : nat) : str :=
  stem name ++ "_" ++ str_of_nat counter ++ suffix name.

(** The loop [while dest.exists()] from [counter] on, for at most [fuel]
    turns: the name that it leaves with *)
Fixpoint first_free (fuel : nat) (fs : node) (folder : path) (name : str)
    (counter : nat) : option str :=
  match fuel with
  | 0 => None
  | S fuel' =>
      let candidate := numbered_name name counter in
      if exists_ fs (folder ++ [candidate])
      then first_free fuel' fs folder name (S counter)
      else Some candidate
  end.

(** The name of [dest] after the loop; the turns are bounded by the number
    of entries of the folder, which is shown to be enough. *)
Definition free_name (fs : node) (gslisting_folder : path) (name : str)
  : option str :=
  if exists_ fs (gslisting_folder ++ [name])
  then first_free (S (List.length (listdir fs gslisting_folder)))
                  fs gslisting_folder name 1
  else Some name.

(** [None] only if the loop does not leave within its bound.  Where the
    folder [gslisting] is missing, [shutil.move] of a directory falls back
    on [copytree], which makes it. *)
Definition process_gslisting_folder (fs : node)
    (folder_path gslisting_folder : path) : option (node * result) :=
  match free_name fs gslisting_folder (basename folder_path) with
  | None => None
  | Some name =>
      let dest := gslisting_folder ++ [name] in
      let fs0 :=
        if isdir fs folder_path && negb (exists_ fs gslisting_folder)
        then match makedirs fs gslisting_folder with
             | Some t => t
             | None => fs
             end
        else fs in
      match move fs0 folder_path dest with
      | Some fs' => Some (fs', Returns dest)
      | None => Some (fs, MoveError)
      end
  end.

End Intake.

(** ** [split.py]: the verification after the pruning *)
Module Verification.
Import Py Fs Split.

Definition verify_no_empty_folders (fs : node) : list path :=
  filter (fun root_path =>
            negb (is_kept_folder root_path)
            && is_directory_truly_empty fs root_path)
         (map (fun t => fst (fst t)) (walk [] fs)).

End Verification.

(** ** [organize.py]: [remove_empty_folders] *)
Module Cleanup.
Import Py Fs.

Section RemoveEmpty.

(** [os.listdir] and [os.rmdir] succeed on this directory; where one of them
    raises [OSError], the directory is left. *)
Variable can_rmdir : path -> bool.

Definition is_empty_dir (n : node) : bool :=
  match n with
  | Dir [] => true
  | _ => false
  end.

(** The test and removal applied to a directory [name] of the [dirs] of a
    triple *)
Definition rmdir_done (here : path) (e : str * node) : bool :=
  is_dir (snd e) && negb (str_eqb (fst e) "Old Images")
  && is_empty_dir (snd e) && can_rmdir (here ++ [fst e]).

(** The bottom-up walk: the sub-directories first, then the directories of
    this one in turn *)
Fixpoint remove_empty_from (here : path) (n : node) : node :=
  match n with
  | File _ _ => n
  | Dir es =>
      let walked :=
        map (fun e => (fst e, remove_empty_from (here ++ [fst e]) (snd e))) es in
      Dir (filter (fun e => negb (rmdir_done here e)) walked)
  end.

Definition remove_empty_folders (fs : node) : node := remove_empty_from [] fs.

End RemoveEmpty.

End Cleanup.

(** ** Invariants of the pruning and of the extractor *)
Module PruningSpec.
Import Py Fs FrameSpec Split.

(** Every directory but the kept folders holds a file somewhere below it. *)
Definition all_hold_files (t : node) : Prop :=
  forall d, is_kept_folder d = false -> isdir t d = true -> holds_file t d.

(** What is true of the tree while the directories [todo] are still to be
    visited *)
Definition pass_invariant (t : node) (todo : list path) : Prop :=
  forall d, is_kept_folder d = false -> isdir t d = true ->
            In d todo \/ holds_file t d.

End PruningSpec.

Module PartsSpec.
Import Py ExtractSpec.

(** What a brand name or a product code is made of: the characters of a
    token, not empty. *)
Definition plain (t : str) : Prop :=
  t <> [] /\ forallb is_code_char t = true.

End PartsSpec.

(** * Properties *)

(** ** Strings and dictionaries *)
Section PyFacts.
Import Py.

Lemma str_eqb_eq (a b : str) : str_eqb a b = true <-> a = b.
Proof.
  unfold str_eqb. destruct (list_eq_dec ascii_dec a b); split; congruence.
Qed.

Lemma str_eqb_refl (a : str) : str_eqb a a = true.
Proof. now apply str_eqb_eq. Qed.

Lemma str_eqb_neq (a b : str) : str_eqb a b = false <-> a <> b.
Proof.
  unfold str_eqb. destruct (list_eq_dec ascii_dec a b); split; congruence.
Qed.

Lemma ord_inj (x y : ascii) : ord x = ord y -> x = y.
Proof.
  unfold ord. intros H.
  rewrite <- (ascii_nat_embedding x), <- (ascii_nat_embedding y). now rewrite H.
Qed.

Lemma str_compare_refl (a : str) : str_compare a a = Eq.
Proof.
  induction a as [|x a IH]; simpl; [reflexivity|].
  now rewrite Nat.compare_refl.
Qed.

Lemma str_compare_eq (a b : str) : str_compare a b = Eq -> a = b.
Proof.
  revert b. induction a as [|x a IH]; intros [|y b]; simpl; try discriminate; auto.
  destruct (Nat.compare (ord x) (ord y)) eqn:E; try discriminate.
  intros H. apply Nat.compare_eq in E. apply ord_inj in E. f_equal; auto.
Qed.

Lemma str_compare_antisym (a b : str) :
  str_compare b a = CompOpp (str_compare a b).
Proof.
  revert b. induction a as [|x a IH]; intros [|y b]; simpl; auto.
  rewrite (Nat.compare_antisym (ord x) (ord y)).
  destruct (Nat.compare (ord x) (ord y)); simpl; auto.
Qed.

Lemma str_compare_lt_trans (a b c : str) :
  str_compare a b = Lt -> str_compare b c = Lt -> str_compare a c = Lt.
Proof.
  revert b c. induction a as [|x a IH]; intros [|y b] [|z c]; simpl;
    try discriminate; auto.
  destruct (Nat.compare (ord x) (ord y)) eqn:E1; try discriminate;
  destruct (Nat.compare (ord y) (ord z)) eqn:E2; try discriminate; intros H1 H2.
  - apply Nat.compare_eq in E1, E2. rewrite E1, E2, Nat.compare_refl. eauto.
  - apply Nat.compare_eq in E1. now rewrite E1, E2.
  - apply Nat.compare_eq in E2. now rewrite <- E2, E1.
  - apply Nat.compare_lt_iff in E1, E2.
    assert (E : Nat.compare (ord x) (ord z) = Lt) by (apply Nat.compare_lt_iff; lia).
    now rewrite E.
Qed.

Lemma str_leb_total (a b : str) : str_leb a b = true \/ str_leb b a = true.
Proof.
  unfold str_leb. rewrite (str_compare_antisym a b).
  destruct (str_compare a b); simpl; auto.
Qed.

Lemma str_leb_trans (a b c : str) :
  str_leb a b = true -> str_leb b c = true -> str_leb a c = true.
Proof.
  unfold str_leb.
  destruct (str_compare a b) eqn:E1; try discriminate;
  destruct (str_compare b c) eqn:E2; try discriminate; intros _ _.
  - apply str_compare_eq in E1, E2. subst. now rewrite str_compare_refl.
  - apply str_compare_eq in E1. subst. now rewrite E2.
  - apply str_compare_eq in E2. subst. now rewrite E1.
  - now rewrite (str_compare_lt_trans _ _ _ E1 E2).
Qed.

Lemma str_leb_antisym (a b : str) :
  str_leb a b = true -> str_leb b a = true -> a = b.
Proof.
  unfold str_leb. rewrite (str_compare_antisym a b).
  destruct (str_compare a b) eqn:E; simpl; try discriminate.
  intros _ _. now apply str_compare_eq.
Qed.

Lemma dict_get_set_same {V : Type} (d : list (str * V)) (k : str) (v : V) :
  dict_get str_eqb (dict_set str_eqb d k v) k = Some v.
Proof.
  induction d as [|[k' v'] d IH]; simpl.
  - now rewrite str_eqb_refl.
  - destruct (str_eqb k k') eqn:E; simpl; rewrite E; auto.
Qed.

Lemma dict_get_set_other {V : Type} (d : list (str * V)) (k k0 : str) (v : V) :
  k0 <> k -> dict_get str_eqb (dict_set str_eqb d k v) k0 = dict_get str_eqb d k0.
Proof.
  intros N. induction d as [|[k' v'] d IH]; simpl.
  - apply str_eqb_neq in N. now rewrite N.
  - destruct (str_eqb k k') eqn:E; simpl.
    + apply str_eqb_eq in E. subst k'. apply str_eqb_neq in N. now rewrite N.
    + destruct (str_eqb k0 k'); auto.
Qed.

Lemma dict_get_app_none {V : Type} (d : list (str * V)) (k k0 : str) (v : V) :
  dict_get str_eqb d k = None ->
  dict_get str_eqb (d ++ [(k, v)]) k0 =
  if str_eqb k0 k then Some v else dict_get str_eqb d k0.
Proof.
  induction d as [|[k' v'] d IH]; simpl; intros H.
  - reflexivity.
  - destruct (str_eqb k k') eqn:E; [discriminate|].
    destruct (str_eqb k0 k') eqn:E0.
    + apply str_eqb_eq in E0. subst k'.
      destruct (str_eqb k0 k) eqn:E1; auto.
      apply str_eqb_eq in E1. subst. now rewrite str_eqb_refl in E.
    + auto.
Qed.

Lemma dict_append_get {V : Type} (d : list (str * list V)) (k k0 : str) (x : V) :
  dict_get str_eqb (dict_append str_eqb d k x) k0 =
  if str_eqb k0 k
  then Some (match dict_get str_eqb d k with Some l => l ++ [x] | None => [x] end)
  else dict_get str_eqb d k0.
Proof.
  unfold dict_append. destruct (dict_get str_eqb d k) eqn:E.
  - destruct (str_eqb k0 k) eqn:E0.
    + apply str_eqb_eq in E0. subst. apply dict_get_set_same.
    + apply dict_get_set_other. now apply str_eqb_neq.
  - now apply dict_get_app_none.
Qed.

Lemma dict_keys_set {V : Type} (d : list (str * V)) (k : str) (v : V) :
  map fst (dict_set str_eqb d k v) =
  match dict_get str_eqb d k with
  | Some _ => map fst d
  | None => map fst d ++ [k]
  end.
Proof.
  induction d as [|[k' v'] d IH]; simpl; auto.
  destruct (str_eqb k k') eqn:E; simpl; auto.
  rewrite IH. destruct (dict_get str_eqb d k); auto.
Qed.

Lemma dict_get_in_keys {V : Type} (d : list (str * V)) (k : str) :
  dict_get str_eqb d k = None <-> ~ In k (map fst d).
Proof.
  induction d as [|[k' v'] d IH]; simpl.
  - tauto.
  - destruct (str_eqb k k') eqn:E.
    + apply str_eqb_eq in E. subst. split; [discriminate | tauto].
    + apply str_eqb_neq in E. rewrite IH. split; intros H; [intros [?|?]|]; 
      try congruence; tauto.
Qed.

Lemma dict_get_In {V : Type} (d : list (str * V)) (k : str) (v : V) :
  NoDup (map fst d) -> In (k, v) d -> dict_get str_eqb d k = Some v.
Proof.
  induction d as [|[k' v'] d IH]; simpl; intros ND HI; [tauto|].
  inversion ND as [|? ? Hn ND']; subst.
  destruct HI as [HI|HI].
  - inversion HI; subst. now rewrite str_eqb_refl.
  - destruct (str_eqb k k') eqn:E.
    + apply str_eqb_eq in E. subst. exfalso. apply Hn.
      change k' with (fst (k', v)). now apply in_map.
    + auto.
Qed.

End PyFacts.

(** ** Stable sorting: the head of the result is a least element *)
Section SortedFacts.
Import Py.
Context {A : Type} (leb : A -> A -> bool).
Hypothesis leb_total : forall a b, leb a b = true \/ leb b a = true.
Hypothesis leb_trans : forall a b c, leb a b = true -> leb b c = true -> leb a c = true.

Lemma insert_sorted_in (x y : A) (l : list A) :
  In y (insert_sorted leb x l) <-> y = x \/ In y l.
Proof.
  induction l as [|z l IH]; simpl.
  - intuition.
  - destruct (leb x z); simpl; [intuition|]. rewrite IH. intuition.
Qed.

Lemma sorted_in (y : A) (l : list A) : In y (sorted leb l) <-> In y l.
Proof.
  induction l as [|z l IH]; simpl; [tauto|].
  rewrite insert_sorted_in, IH. intuition.
Qed.

Lemma insert_sorted_hd (x : A) (l : list A) (d m : A) :
  (l <> [] -> least leb m l /\ hd d l = m) ->
  exists m', hd d (insert_sorted leb x l) = m' /\ least leb m' (x :: l).
Proof.
  destruct l as [|z l]; simpl; intros H.
  - exists x. split; auto. split; simpl; auto.
    intros y [<-|[]]. destruct (leb_total x x); auto.
  - destruct H as [[Hin Hle] Hz]; [discriminate|]. simpl in Hz. subst m.
    destruct (leb x z) eqn:E; simpl.
    + exists x. split; auto. split; simpl; auto.
      intros y [<-|Hy].
      * destruct (leb_total x x); auto.
      * eapply leb_trans; eauto.
    + exists z. split; auto. split; simpl; auto.
      intros y [<-|Hy]; auto.
      destruct (leb_total x z); congruence.
Qed.

Lemma sorted_hd_least (l : list A) (d : A) :
  l <> [] -> least leb (hd d (sorted leb l)) l.
Proof.
  induction l as [|x l IH]; intros N; [congruence|]. simpl.
  destruct (insert_sorted_hd x (sorted leb l) d (hd d (sorted leb l))) as [m' [Hm' [Hin Hle]]].
  - intros N'. split; auto.
    assert (Nl : l <> []) by (intros ->; now apply N').
    destruct (IH Nl) as [Hi Hl]. split.
    + now apply sorted_in.
    + intros y Hy. apply Hl. now apply sorted_in.
  - rewrite Hm'. split.
    + simpl in Hin. destruct Hin as [?|Hin]; [left; auto|right; now apply sorted_in].
    + intros y [<-|Hy]; apply Hle; simpl; auto. right. now apply sorted_in.
Qed.

End SortedFacts.

(** ** The code consolidator *)
Section ConsolidateFacts.
Import Py Re Consolidate ConsolidateSpec.

Lemma code_key_leb_total (a b : str) :
  code_key_leb a b = true \/ code_key_leb b a = true.
Proof.
  unfold code_key_leb.
  destruct (Nat.ltb_spec (List.length b) (List.length a)); simpl; auto.
  destruct (Nat.ltb_spec (List.length a) (List.length b)); simpl; auto.
  assert (E : List.length a = List.length b) by lia.
  rewrite E, Nat.eqb_refl. simpl. apply str_leb_total.
Qed.

Lemma code_key_leb_trans (a b c : str) :
  code_key_leb a b = true -> code_key_leb b c = true -> code_key_leb a c = true.
Proof.
  unfold code_key_leb. intros H1 H2.
  apply orb_true_iff in H1, H2. apply orb_true_iff.
  destruct H1 as [H1|H1], H2 as [H2|H2];
    repeat match goal with
    | H : (_ <? _) = true |- _ => apply Nat.ltb_lt in H
    | H : (_ && _) = true |- _ => apply andb_true_iff in H; destruct H
    | H : (_ =? _) = true |- _ => apply Nat.eqb_eq in H
    end.
  - left. apply Nat.ltb_lt. lia.
  - left. apply Nat.ltb_lt. lia.
  - left. apply Nat.ltb_lt. lia.
  - right. apply andb_true_iff. split.
    + apply Nat.eqb_eq. lia.
    + eapply str_leb_trans; eauto.
Qed.

Lemma code_key_leb_inv (r x : str) :
  code_key_leb r x = true ->
  List.length x <= List.length r
  /\ (List.length x = List.length r -> str_leb r x = true).
Proof.
  unfold code_key_leb. intros H. apply orb_true_iff in H. destruct H as [H|H].
  - apply Nat.ltb_lt in H. split; lia.
  - apply andb_true_iff in H. destruct H as [H1 H2]. apply Nat.eqb_eq in H1.
    split; [lia | auto].
Qed.

Lemma representative_least (codes : list str) :
  codes <> [] -> least code_key_leb (representative codes) codes.
Proof.
  intros N. unfold representative.
  destruct (Nat.eqb_spec (List.length codes) 1) as [E|E].
  - destruct codes as [|g [|? ?]]; try discriminate. simpl.
    split; simpl; auto. intros y [<-|[]].
    destruct (code_key_leb_total g g); auto.
  - apply (sorted_hd_least code_key_leb code_key_leb_total code_key_leb_trans); auto.
Qed.

Lemma fold_set_get (m c : str) (codes : list str) (d : list (str * str)) :
  dict_get str_eqb (fold_left (fun d code => dict_set str_eqb d code m) codes d) c =
  if existsb (str_eqb c) codes then Some m else dict_get str_eqb d c.
Proof.
  revert d. induction codes as [|x codes IH]; intros d; simpl; auto.
  rewrite IH. destruct (existsb (str_eqb c) codes).
  - now rewrite orb_true_r.
  - rewrite orb_false_r. destruct (str_eqb c x) eqn:E.
    + apply str_eqb_eq in E. subst. apply dict_get_set_same.
    + apply dict_get_set_other. now apply str_eqb_neq.
Qed.

Lemma existsb_str_eqb (c : str) (l : list str) :
  existsb (str_eqb c) l = true <-> In c l.
Proof.
  rewrite existsb_exists. split.
  - intros [x [Hx E]]. apply str_eqb_eq in E. now subst.
  - intros H. exists c. split; auto using str_eqb_refl.
Qed.

Lemma consolidate_group_get (d : list (str * str)) (g : str * list str) (c : str) :
  dict_get str_eqb (consolidate_group d g) c =
  if existsb (str_eqb c) (snd g) then Some (representative (snd g))
  else dict_get str_eqb d c.
Proof.
  unfold consolidate_group, representative. destruct g as [b codes]. simpl.
  destruct (Nat.eqb_spec (List.length codes) 1) as [E|E].
  - destruct codes as [|x [|? ?]]; try discriminate. simpl.
    rewrite orb_false_r. destruct (str_eqb c x) eqn:E0.
    + apply str_eqb_eq in E0. subst. apply dict_get_set_same.
    + apply dict_get_set_other. now apply str_eqb_neq.
  - apply fold_set_get.
Qed.

Lemma same_base_iff (b c : str) :
  same_base b c = true <-> match_leading_alnum c = Some b.
Proof.
  unfold same_base. destruct (match_leading_alnum c) as [b'|].
  - rewrite str_eqb_eq. split; congruence.
  - split; discriminate.
Qed.

Lemma group_step_keys (d : list (str * list str)) (c : str) :
  NoDup (map fst d) -> NoDup (map fst (group_step d c)).
Proof.
  intros ND. unfold group_step. destruct (match_leading_alnum c) as [b|]; auto.
  unfold dict_append. destruct (dict_get str_eqb d b) eqn:E.
  - now rewrite dict_keys_set, E.
  - rewrite map_app. simpl. apply dict_get_in_keys in E.
    apply NoDup_app; auto.
    + repeat constructor. simpl. tauto.
    + intros x Hx [<-|[]]. contradiction.
Qed.

Lemma group_step_get (d : list (str * list str)) (c b : str) :
  dict_get str_eqb (group_step d c) b =
  if same_base b c
  then Some (match dict_get str_eqb d b with Some g => g | None => [] end ++ [c])
  else dict_get str_eqb d b.
Proof.
  unfold group_step, same_base. destruct (match_leading_alnum c) as [b0|]; auto.
  rewrite dict_append_get.
  destruct (str_eqb b b0) eqn:E.
  - apply str_eqb_eq in E. subst. rewrite str_eqb_refl.
    destruct (dict_get str_eqb d b0); reflexivity.
  - destruct (str_eqb b0 b) eqn:E'; auto.
    apply str_eqb_eq in E'. subst. now rewrite str_eqb_refl in E.
Qed.

Lemma group_fold (l : list str) (d : list (str * list str)) :
  NoDup (map fst d) ->
  NoDup (map fst (fold_left group_step l d))
  /\ forall b, dict_get str_eqb (fold_left group_step l d) b =
               extend (dict_get str_eqb d b) (group_of b l).
Proof.
  revert d. induction l as [|c l IH]; intros d ND; simpl.
  - split; auto.
  - destruct (IH (group_step d c) (group_step_keys d c ND)) as [ND' Hget].
    split; auto. intros b. rewrite Hget, group_step_get.
    destruct (same_base b c); auto.
    unfold extend. destruct (group_of b l); auto.
    now rewrite <- app_assoc.
Qed.

Lemma group_codes_keys (l : list str) : NoDup (map fst (group_codes l)).
Proof. apply (group_fold l []). constructor. Qed.

Lemma group_codes_get (l : list str) (b : str) :
  dict_get str_eqb (group_codes l) b =
  match group_of b l with [] => None | m => Some m end.
Proof.
  unfold group_codes. destruct (group_fold l [] (NoDup_nil _)) as [_ H].
  rewrite H. simpl. unfold extend. destruct (group_of b l); auto.
Qed.

Lemma group_codes_entry (l : list str) (b : str) (g : list str) :
  In (b, g) (group_codes l) -> g = group_of b l.
Proof.
  intros H. apply dict_get_In in H; [|apply group_codes_keys].
  rewrite group_codes_get in H. destruct (group_of b l); congruence.
Qed.

Lemma consolidate_fold (l : list str) (c b : str) :
  match_leading_alnum c = Some b ->
  forall (gs : list (str * list str)) (d : list (str * str)),
    (forall b' g, In (b', g) gs -> g = group_of b' l) ->
    NoDup (map fst gs) ->
    In c l ->
    dict_get str_eqb (fold_left consolidate_group gs d) c =
    if existsb (str_eqb b) (map fst gs)
    then Some (representative (group_of b l))
    else dict_get str_eqb d c.
Proof.
  intros Hb gs. induction gs as [|[b1 g1] gs IH]; intros d Hgs ND Hc; simpl; auto.
  inversion ND as [|? ? Hn ND']; subst.
  assert (Hg1 : g1 = group_of b1 l) by (apply Hgs; simpl; auto).
  rewrite IH; auto; [|intros; apply Hgs; simpl; auto].
  rewrite consolidate_group_get. simpl.
  destruct (str_eqb b b1) eqn:E.
  - apply str_eqb_eq in E. subst b1. simpl.
    destruct (existsb (str_eqb b) (map fst gs)) eqn:E1; auto.
    assert (Hin : existsb (str_eqb c) g1 = true).
    { apply existsb_str_eqb. subst g1. apply filter_In. split; auto.
      now apply same_base_iff. }
    rewrite Hin. now subst g1.
  - simpl. destruct (existsb (str_eqb b) (map fst gs)); auto.
    assert (Hin : existsb (str_eqb c) g1 = false).
    { apply not_true_is_false. intros H. apply existsb_str_eqb in H.
      subst g1. apply filter_In in H. destruct H as [_ H].
      apply same_base_iff in H. apply str_eqb_neq in E. congruence. }
    now rewrite Hin.
Qed.

Lemma consolidate_get (codes : list str) (c b : str) :
  In c codes -> match_leading_alnum c = Some b ->
  dict_get str_eqb (consolidate_product_codes codes) c =
  Some (representative (group_of b codes)).
Proof.
  intros Hc Hb. unfold consolidate_product_codes.
  destruct codes as [|c0 codes']; [destruct Hc|].
  cbn [Organize.is_nil]. set (codes := c0 :: codes') in *.
  rewrite (consolidate_fold codes c b Hb); auto.
  - assert (Hk : existsb (str_eqb b) (map fst (group_codes codes)) = true).
    { apply existsb_str_eqb.
      destruct (in_dec (list_eq_dec ascii_dec) b (map fst (group_codes codes))) as [?|N];
        auto.
      apply dict_get_in_keys in N. rewrite group_codes_get in N.
      assert (Hin : In c (group_of b codes)).
      { apply filter_In. split; auto. now apply same_base_iff. }
      destruct (group_of b codes); [destruct Hin | discriminate]. }
    now rewrite Hk.
  - apply group_codes_entry.
  - apply group_codes_keys.
Qed.

Lemma strict_prefix_length (x y : str) :
  strict_prefix x y -> List.length x < List.length y.
Proof.
  intros [t [Ht ->]]. rewrite length_app. destruct t; [congruence|simpl; lia].
Qed.

End ConsolidateFacts.

(** C1 (as stated, refuted): with the two codes [A-1] and [A-2], which share
    the base [A] and the maximal length, the claim's tie-break would send
    both to the lexicographically later [A-2]; the code sends them to
    [A-1]. *)
Lemma consolidate_tie_break_not_later : ~ ConsolidateSpec.later_tie_break.
Proof.
  intros H.
  specialize (H [lit "A-1"; lit "A-2"] (lit "A") (lit "A-1") (lit "A-1") (lit "A-2")).
  assert (E : Py.dict_get Py.str_eqb
                (Consolidate.consolidate_product_codes [lit "A-1"; lit "A-2"])
                (lit "A-1") = Some (lit "A-1")) by (vm_compute; reflexivity).
  rewrite E in H.
  assert (C : Some (lit "A-1") = Some (lit "A-2")).
  { apply H.
    - repeat constructor; simpl; intuition discriminate.
    - vm_compute. auto.
    - vm_compute. auto.
    - vm_compute. auto.
    - intros z Hz. vm_compute in Hz. destruct Hz as [<-|[<-|[]]]; vm_compute; lia.
    - reflexivity.
    - reflexivity. }
  discriminate C.
Qed.

(** C1 (amended): every code with a leading alphanumeric run is mapped to a
    member of its group that is a longest one and, among the longest, the
    lexicographically earliest; that member is never a strict prefix of
    another member, and is the code itself in a group of one.  Whatever the
    order in which the set [{UNIO22, UNIO22-4, UNIO22-10}] is enumerated,
    its three codes are mapped to [UNIO22-10]. *)
Theorem consolidate_most_specific :
  (forall (codes : list str) (c base : str),
     In c codes ->
     Re.match_leading_alnum c = Some base ->
     exists r,
       Py.dict_get Py.str_eqb (Consolidate.consolidate_product_codes codes) c = Some r
       /\ In r (ConsolidateSpec.group_of base codes)
       /\ (forall x, In x (ConsolidateSpec.group_of base codes) ->
                     List.length x <= List.length r)
       /\ (forall x, In x (ConsolidateSpec.group_of base codes) ->
                     List.length x = List.length r -> Py.str_leb r x = true)
       /\ (forall x y, In x (ConsolidateSpec.group_of base codes) ->
                       In y (ConsolidateSpec.group_of base codes) ->
                       ConsolidateSpec.strict_prefix x y -> r <> x)
       /\ (ConsolidateSpec.group_of base codes = [c] -> r = c))
  /\ (forall (codes : list str) (c : str),
        (forall x, In x codes <->
                   In x [lit "UNIO22"; lit "UNIO22-4"; lit "UNIO22-10"]) ->
        In c codes ->
        Py.dict_get Py.str_eqb (Consolidate.consolidate_product_codes codes) c
        = Some (lit "UNIO22-10")).
Proof.
  assert (G : forall (codes : list str) (c base : str),
     In c codes ->
     Re.match_leading_alnum c = Some base ->
     exists r,
       Py.dict_get Py.str_eqb (Consolidate.consolidate_product_codes codes) c = Some r
       /\ In r (ConsolidateSpec.group_of base codes)
       /\ (forall x, In x (ConsolidateSpec.group_of base codes) ->
                     List.length x <= List.length r)
       /\ (forall x, In x (ConsolidateSpec.group_of base codes) ->
                     List.length x = List.length r -> Py.str_leb r x = true)
       /\ (forall x y, In x (ConsolidateSpec.group_of base codes) ->
                       In y (ConsolidateSpec.group_of base codes) ->
                       ConsolidateSpec.strict_prefix x y -> r <> x)
       /\ (ConsolidateSpec.group_of base codes = [c] -> r = c)).
  { intros codes c base Hc Hb.
    exists (Consolidate.representative (ConsolidateSpec.group_of base codes)).
    assert (Hin : In c (ConsolidateSpec.group_of base codes)).
    { apply filter_In. split; auto. now apply same_base_iff. }
    destruct (representative_least (ConsolidateSpec.group_of base codes)) as [Hr Hle].
    { intros E. rewrite E in Hin. destruct Hin. }
    split; [now apply consolidate_get|].
    split; [assumption|].
    split; [intros x Hx; now apply code_key_leb_inv, Hle|].
    split; [intros x Hx; now apply code_key_leb_inv, Hle|].
    split.
    - intros x y Hx Hy Hp E. apply strict_prefix_length in Hp.
      apply Hle, code_key_leb_inv in Hy. subst x. lia.
    - intros E. rewrite E in Hr |- *. destruct Hr as [Hr|[]]. now symmetry. }
  split; [exact G|].
  intros codes c Hset Hc.
  assert (Hb : Re.match_leading_alnum c = Some (lit "UNIO22")).
  { apply Hset in Hc. simpl in Hc.
    destruct Hc as [<-|[<-|[<-|[]]]]; reflexivity. }
  destruct (G codes c (lit "UNIO22") Hc Hb) as [r [Hget [Hr [Hlen _]]]].
  rewrite Hget. f_equal.
  assert (Hlong : In (lit "UNIO22-10") (ConsolidateSpec.group_of (lit "UNIO22") codes)).
  { apply filter_In. split; [apply Hset; simpl; auto | reflexivity]. }
  apply Hlen in Hlong.
  apply filter_In in Hr. destruct Hr as [Hr _]. apply Hset in Hr. simpl in Hr.
  destruct Hr as [<-|[<-|[<-|[]]]]; try reflexivity;
    vm_compute in Hlong; lia.
Qed.

(** The theorem at the set [{B-2, B-1, Bb}] and the code [B-2]. *)
Lemma consolidate_most_specific_witness :
  exists r,
    Py.dict_get Py.str_eqb
      (Consolidate.consolidate_product_codes [lit "B-2"; lit "B-1"; lit "Bb"])
      (lit "B-2") = Some r
    /\ In r (ConsolidateSpec.group_of (lit "B") [lit "B-2"; lit "B-1"; lit "Bb"]).
Proof.
  destruct (proj1 consolidate_most_specific
              [lit "B-2"; lit "B-1"; lit "Bb"] (lit "B-2") (lit "B"))
    as [r [H1 [H2 _]]].
  - simpl. auto.
  - reflexivity.
  - exists r. split; assumption.
Defined.

(** ** Character classes *)
Section CharFacts.
Import Py Re.

Ltac by_cases c :=
  destruct c as [[] [] [] [] [] [] [] []]; vm_compute; try reflexivity;
  try discriminate; intros; try discriminate; try reflexivity; auto.

Lemma alpha_not_sep (c : ascii) : is_alpha c = true -> is_sep c = false.
Proof. by_cases c. Qed.

Lemma alpha_not_space (c : ascii) : is_alpha c = true -> is_space c = false.
Proof. by_cases c. Qed.

Lemma alpha_not_digit (c : ascii) : is_alpha c = true -> is_digit c = false.
Proof. by_cases c. Qed.

Lemma alpha_kept (c : ascii) : is_alpha c = true -> is_kept c = true.
Proof. by_cases c. Qed.

Lemma alpha_not_underscore (c : ascii) : is_alpha c = true -> Ascii.eqb c "_" = false.
Proof. by_cases c. Qed.

Lemma sep_space (c : ascii) : is_sep c = false -> is_space c = false.
Proof. by_cases c. Qed.

Lemma hyphen_is_sep : is_sep "-" = true.
Proof. reflexivity. Qed.

Lemma alnum_inv (c : ascii) : is_alnum c = true -> is_alpha c = true \/ is_digit c = true.
Proof. unfold is_alnum. intros H. now apply orb_true_iff in H. Qed.

Lemma digit_not_alpha (c : ascii) : is_digit c = true -> is_alpha c = false.
Proof. by_cases c. Qed.

End CharFacts.

(** ** Splitting, stripping and the version marker *)
Section StringFacts.
Import Py Re.

Lemma drop_while_none (p : ascii -> bool) (s : str) :
  forallb (fun c => negb (p c)) s = true -> drop_while p s = s.
Proof.
  destruct s as [|c s]; simpl; auto.
  intros H. apply andb_true_iff in H. destruct H as [H _].
  now destruct (p c).
Qed.

Lemma take_while_all (p : ascii -> bool) (s : str) :
  forallb p s = true -> take_while p s = s /\ drop_while p s = [].
Proof.
  induction s as [|c s IH]; simpl; auto.
  intros H. apply andb_true_iff in H. destruct H as [H1 H2]. rewrite H1.
  destruct (IH H2) as [-> ->]. auto.
Qed.

Lemma take_drop_while (p : ascii -> bool) (s : str) :
  take_while p s ++ drop_while p s = s.
Proof.
  induction s as [|c s IH]; simpl; auto. destruct (p c); simpl; congruence.
Qed.

Lemma drop_while_keeps (p : ascii -> bool) (s : str) :
  existsb (fun c => negb (p c)) s = true ->
  existsb (fun c => negb (p c)) (drop_while p s) = true.
Proof.
  induction s as [|c s IH]; simpl; auto.
  destruct (p c) eqn:E; simpl; auto. now rewrite E.
Qed.

Lemma strip_keeps (s : str) :
  existsb (fun c => negb (is_space c)) s = true -> strip s <> [].
Proof.
  intros H. unfold strip, rstrip, lstrip.
  apply drop_while_keeps in H.
  assert (H' : existsb (fun c => negb (is_space c)) (rev (drop_while is_space s)) = true).
  { apply existsb_exists in H. destruct H as [x [Hx Hp]].
    apply existsb_exists. exists x. split; auto. now apply -> in_rev. }
  apply drop_while_keeps in H'.
  destruct (drop_while is_space (rev (drop_while is_space s))) as [|c t] eqn:E.
  - discriminate.
  - simpl. intros N. apply app_eq_nil in N. destruct N; discriminate.
Qed.

Lemma strip_id (s : str) :
  forallb (fun c => negb (is_space c)) s = true -> strip s = s.
Proof.
  intros H. unfold strip, rstrip, lstrip.
  rewrite (drop_while_none is_space s H).
  rewrite drop_while_none; [apply rev_involutive|].
  apply forallb_forall. intros x Hx. apply in_rev in Hx.
  rewrite forallb_forall in H. auto.
Qed.

Lemma filter_id {A : Type} (p : A -> bool) (l : list A) :
  forallb p l = true -> filter p l = l.
Proof.
  induction l as [|x l IH]; simpl; auto.
  intros H. apply andb_true_iff in H. destruct H as [-> H]. f_equal; auto.
Qed.

Lemma search_version_no_underscore (s : str) :
  contains "_" s = false -> search_version s = None.
Proof.
  induction s as [|c s IH]; [reflexivity|].
  intros H. change (Ascii.eqb "_" c || contains "_" s = false) in H.
  apply orb_false_iff in H. destruct H as [H1 H2].
  assert (E : match_version_here (c :: s) = None).
  { unfold match_version_here. destruct s as [|c2 t]; auto.
    rewrite Ascii.eqb_sym in H1. now rewrite H1. }
  cbn [search_version]. now rewrite E, (IH H2).
Qed.

Lemma contains_app (c : ascii) (a b : str) :
  contains c (a ++ b) = contains c a || contains c b.
Proof. apply existsb_app. Qed.

Lemma split_seps_nonnil (s : str) : split_seps s <> [].
Proof.
  induction s as [|c s IH]; simpl; [discriminate|].
  destruct (is_sep c); [discriminate|].
  destruct (split_seps s); discriminate.
Qed.

Lemma split_seps_plain (s : str) :
  forallb (fun c => negb (is_sep c)) s = true -> split_seps s = [s].
Proof.
  induction s as [|c s IH]; simpl; auto.
  intros H. apply andb_true_iff in H. destruct H as [H1 H2].
  apply negb_true_iff in H1. rewrite H1, (IH H2). reflexivity.
Qed.

Lemma split_seps_app (a b : str) (c : ascii) :
  forallb (fun c => negb (is_sep c)) a = true -> is_sep c = true ->
  split_seps (a ++ c :: b) = a :: split_seps b.
Proof.
  intros Ha Hc. induction a as [|x a IH]; simpl.
  - now rewrite Hc.
  - simpl in Ha. apply andb_true_iff in Ha. destruct Ha as [H1 H2].
    apply negb_true_iff in H1. rewrite H1, (IH H2). reflexivity.
Qed.

(** Every piece of a split is free of separators. *)
Lemma split_seps_pieces (s : str) :
  Forall (fun w => forallb (fun c => negb (is_sep c)) w = true) (split_seps s).
Proof.
  induction s as [|c s IH]; simpl.
  - repeat constructor.
  - destruct (is_sep c) eqn:E.
    + constructor; auto.
    + destruct (split_seps s) as [|w ws]; [repeat constructor; simpl; now rewrite E|].
      inversion IH; subst. constructor; auto. simpl. now rewrite E.
Qed.

End StringFacts.

(** ** The name/code/variant extractor *)
Section ExtractFacts.
Import Py Re Organize ExtractSpec.

Lemma tokens_ok (s : str) : Forall token_ok (tokens s).
Proof.
  unfold tokens. apply Forall_forall. intros t Ht.
  apply filter_In in Ht. destruct Ht as [Ht Hne]. split.
  - destruct t; [discriminate | discriminate].
  - pose proof (split_seps_pieces (clean s)) as H.
    rewrite Forall_forall in H. auto.
Qed.

Lemma token_has_ink (t : str) : token_ok t -> has_ink t.
Proof.
  intros [Hne H]. destruct t as [|c t]; [congruence|].
  unfold has_ink. simpl in *. apply andb_true_iff in H. destruct H as [H _].
  apply negb_true_iff, sep_space in H. now rewrite H.
Qed.

Lemma join_has_ink (l : list str) :
  l <> [] -> Forall has_ink l -> has_ink (join " " l).
Proof.
  intros N H. destruct l as [|x l]; [congruence|].
  inversion H; subst. unfold has_ink in *.
  cbn [join]. destruct l; auto. rewrite existsb_app. now rewrite H2.
Qed.

Lemma firstn_nonnil {A : Type} (n : nat) (l : list A) :
  l <> [] -> firstn (S n) l <> [].
Proof. destruct l; [congruence | discriminate]. Qed.

Lemma Forall_firstn' {A : Type} (P : A -> Prop) (n : nat) (l : list A) :
  Forall P l -> Forall P (firstn n l).
Proof.
  revert l. induction n as [|n IH]; intros l H; simpl; auto.
  destruct H; auto.
Qed.

Lemma match_brand_model_brand (s b m : str) :
  match_brand_model s = Some (b, m) -> has_ink b.
Proof.
  unfold match_brand_model.
  destruct (take_while is_alpha s) as [|c l] eqn:E; [discriminate|].
  destruct (drop_while is_alpha s) as [|d r]; [discriminate|].
  destruct (is_digit d && _); [|discriminate].
  intros H. inversion H; subst.
  assert (Hc : is_alpha c = true).
  { destruct s as [|x s]; [discriminate|]. simpl in E.
    destruct (is_alpha x) eqn:Ex; [|discriminate]. now inversion E; subst. }
  unfold has_ink. simpl. now rewrite (alpha_not_space c Hc).
Qed.

Lemma split_by_arity_names (parts : list str) :
  parts <> [] -> Forall token_ok parts ->
  fst (split_by_arity parts) <> [] /\ Forall has_ink (fst (split_by_arity parts)).
Proof.
  intros N H.
  assert (Hink : Forall has_ink parts).
  { eapply Forall_impl; [|exact H]. apply token_has_ink. }
  destruct parts as [|p1 [|p2 [|p3 rest]]]; [congruence| | |].
  - cbn [split_by_arity].
    destruct (match_brand_model p1) as [[b m]|] eqn:E; cbn [fst].
    + split; [discriminate|]. repeat constructor. eapply match_brand_model_brand; eauto.
    + split; [discriminate|]. assumption.
  - cbn [split_by_arity].
    destruct (match_brand_model p1) as [[b m]|] eqn:E; cbn [fst].
    + split; [discriminate|]. repeat constructor. eapply match_brand_model_brand; eauto.
    + inversion Hink; subst.
      destruct (fullmatch_alpha p1 && search_digit p2); cbn [fst].
      * split; [discriminate|]. repeat constructor; auto.
      * destruct (2 <=? List.length p2); cbn [fst].
        -- split; [discriminate|]. repeat constructor; auto.
        -- split; [discriminate|]. assumption.
  - cbn [split_by_arity hd].
    inversion Hink; subst.
    destruct (fullmatch_alpha p1); cbn [fst].
    + split; [discriminate|]. repeat constructor; auto.
    + cbv zeta. destruct (find_index search_digit (skipn 1 (p1 :: p2 :: p3 :: rest))); cbn [fst].
      * split; [discriminate|]. constructor; auto. now apply Forall_firstn'.
      * split; [discriminate|]. repeat constructor; auto.
Qed.

Lemma removelast_nonnil {A : Type} (l : list A) :
  1 < List.length l -> removelast l <> [].
Proof.
  destruct l as [|a [|b l]]; simpl; try lia. discriminate.
Qed.

Lemma Forall_removelast {A : Type} (P : A -> Prop) (l : list A) :
  Forall P l -> Forall P (removelast l).
Proof.
  induction l as [|a l IH]; simpl; auto.
  intros H. inversion H; subst. destruct l; auto.
Qed.

Lemma special_three_token_first (parts : list str) (f pc : str) :
  special_three_token parts = Some (f, pc) -> f <> [].
Proof.
  unfold special_three_token.
  destruct parts as [|p1 [|p2 [|p3 rest]]]; try discriminate.
  destruct (fullmatch_alpha p1 && _ && _ && _) eqn:E; [|discriminate].
  intros H. inversion H; subst.
  repeat (apply andb_true_iff in E; destruct E as [E ?]).
  unfold fullmatch_alpha in E. destruct f; [discriminate | discriminate].
Qed.

Lemma is_variant_code_inv (w : str) :
  is_variant_code w = true -> exists c, w = [c] /\ is_alnum c = true.
Proof.
  unfold is_variant_code, fullmatch_alnum1.
  destruct w as [|c [|? ?]]; try discriminate. eauto.
Qed.

End ExtractFacts.

Section ExtractMain.
Import Py Re Organize ExtractSpec.

Lemma pop_variant_parts (parts : list str) :
  parts <> [] -> Forall token_ok parts ->
  snd (pop_variant parts) <> [] /\ Forall token_ok (snd (pop_variant parts)).
Proof.
  intros N H. unfold pop_variant.
  destruct ((1 <? List.length parts) && is_variant_code (last parts [])) eqn:E;
    cbn [snd]; auto.
  apply andb_true_iff in E. destruct E as [E _]. apply Nat.ltb_lt in E.
  split; [now apply removelast_nonnil | now apply Forall_removelast].
Qed.

Lemma pop_variant_variant (parts : list str) (v : str) :
  fst (pop_variant parts) = Some v -> exists c, v = [c] /\ is_alnum c = true.
Proof.
  unfold pop_variant.
  destruct ((1 <? List.length parts) && is_variant_code (last parts [])) eqn:E;
    cbn [fst]; [|discriminate].
  intros H. inversion H; subst.
  apply andb_true_iff in E. destruct E as [_ E]. now apply is_variant_code_inv.
Qed.

Lemma locate_code_names (parts : list str) :
  parts <> [] -> Forall token_ok parts ->
  fst (locate_code parts) <> [] /\ Forall has_ink (fst (locate_code parts)).
Proof.
  intros N H. unfold locate_code.
  assert (Hink : Forall has_ink parts).
  { eapply Forall_impl; [|exact H]. apply token_has_ink. }
  destruct (find_index search_dotted_version parts) as [[|i]|]; cbn [fst].
  - split; [now apply firstn_nonnil | now apply Forall_firstn'].
  - split; [now apply firstn_nonnil | now apply Forall_firstn'].
  - now apply split_by_arity_names.
Qed.

Lemma post_check_named (n : str) (code : option str) (parts : list str) :
  n <> [] -> post_check (Some n) code parts = (Some n, code).
Proof.
  intros N. destruct n as [|c n]; [congruence|]. reflexivity.
Qed.

Lemma extract_no_token (stem : str) :
  tokens (fst (strip_version stem)) = [] ->
  extract_name_code_variant stem = (None, None, None).
Proof. unfold extract_name_code_variant. intros ->. reflexivity. Qed.

Lemma extract_named (stem : str) :
  tokens (fst (strip_version stem)) <> [] ->
  exists n, fst (fst (extract_name_code_variant stem)) = Some n /\ n <> [].
Proof.
  intros N. unfold extract_name_code_variant.
  pose proof (tokens_ok (fst (strip_version stem))) as Hok.
  set (base := fst (strip_version stem)) in *.
  set (parts0 := tokens base) in *.
  destruct (is_nil parts0) eqn:En; [destruct parts0; [congruence | discriminate]|].
  destruct (special_three_token parts0) as [[f pc]|] eqn:Es.
  - exists f. split; auto. eapply special_three_token_first; eauto.
  - destruct (pop_variant_parts parts0 N Hok) as [Np Hp].
    destruct (pop_variant parts0) as [variant parts]. cbn [snd] in Np, Hp.
    destruct (locate_code_names parts Np Hp) as [Nn Hn].
    destruct (locate_code parts) as [name_parts code_parts]. cbn [fst] in Nn, Hn.
    destruct (is_nil name_parts) eqn:E1; [destruct name_parts; [congruence | discriminate]|].
    assert (Hs : strip (join " " name_parts) <> []).
    { apply strip_keeps. now apply join_has_ink. }
    rewrite (post_check_named _ _ _ Hs). cbn [fst]. eauto.
Qed.

Lemma extract_variant (stem v : str) :
  snd (extract_name_code_variant stem) = Some v ->
  exists c, v = [c] /\ is_alnum c = true.
Proof.
  unfold extract_name_code_variant.
  set (base := fst (strip_version stem)).
  destruct (is_nil (tokens base)); [discriminate|].
  destruct (special_three_token (tokens base)) as [[f pc]|]; [discriminate|].
  pose proof (pop_variant_variant (tokens base) v) as Hv.
  destruct (pop_variant (tokens base)) as [variant parts]. cbn [fst] in Hv.
  destruct (locate_code parts) as [name_parts code_parts].
  destruct (post_check _ _ _) as [name code]. cbn [snd]. exact Hv.
Qed.

End ExtractMain.

(** C9: [Uniserve-UNIO22-4] is parsed by the special three-token case. *)
Theorem extract_uniserve :
  Organize.extract_name_code_variant "Uniserve-UNIO22-4"
  = (Some (lit "Uniserve"), Some (lit "UNIO22-4"), None).
Proof. vm_compute. reflexivity. Qed.

(** C4 (as stated, refuted): the stem [-] is not empty, and the extractor
    returns no brand name and no product code for it. *)
Lemma extract_nonempty_stem_without_identity :
  lit "-" <> []
  /\ Organize.extract_name_code_variant "-" = (None, None, None).
Proof. split; [discriminate | vm_compute; reflexivity]. Qed.

(** C4 (amended): a stem that has at least one token gets a brand name,
    which is not the empty string; a stem without a token gets
    [(None, None, None)]; and a variant, when there is one, is exactly one
    alphanumeric character. *)
Theorem extract_identity_invariant (stem : str) :
  (Organize.tokens (fst (Organize.strip_version stem)) <> [] ->
     exists n, fst (fst (Organize.extract_name_code_variant stem)) = Some n
               /\ n <> [])
  /\ (Organize.tokens (fst (Organize.strip_version stem)) = [] ->
        Organize.extract_name_code_variant stem = (None, None, None))
  /\ (forall v, snd (Organize.extract_name_code_variant stem) = Some v ->
        exists c, v = [c] /\ Py.is_alnum c = true).
Proof.
  split; [apply extract_named|].
  split; [apply extract_no_token | apply extract_variant].
Qed.

(** The invariant at the stem [Widget-5]. *)
Lemma extract_identity_invariant_witness :
  (exists n, fst (fst (Organize.extract_name_code_variant "Widget-5")) = Some n
             /\ n <> [])
  /\ (exists c, lit "5" = [c] /\ Py.is_alnum c = true).
Proof.
  destruct (extract_identity_invariant "Widget-5") as [H1 [_ H3]]. split.
  - apply H1. vm_compute. discriminate.
  - apply H3. vm_compute. reflexivity.
Defined.

Section BrandCode.
Import Py Re Organize ExtractSpec.

Lemma code_char_not_sep (c : ascii) : is_code_char c = true -> is_sep c = false.
Proof. destruct c as [[] [] [] [] [] [] [] []]; vm_compute; congruence. Qed.

Lemma code_char_kept (c : ascii) : is_code_char c = true -> is_kept c = true.
Proof. destruct c as [[] [] [] [] [] [] [] []]; vm_compute; congruence. Qed.

Lemma code_char_not_underscore (c : ascii) :
  is_code_char c = true -> Ascii.eqb "_" c = false.
Proof. destruct c as [[] [] [] [] [] [] [] []]; vm_compute; congruence. Qed.

Lemma alpha_not_underscore' (c : ascii) :
  is_alpha c = true -> Ascii.eqb "_" c = false.
Proof. destruct c as [[] [] [] [] [] [] [] []]; vm_compute; congruence. Qed.

Lemma forallb_impl {A : Type} (p q : A -> bool) (l : list A) :
  (forall x, p x = true -> q x = true) -> forallb p l = true -> forallb q l = true.
Proof.
  intros H. rewrite !forallb_forall. auto.
Qed.

Lemma existsb_none {A : Type} (p q : A -> bool) (l : list A) :
  (forall x, p x = true -> q x = false) -> forallb p l = true -> existsb q l = false.
Proof.
  intros H Hp. induction l as [|x l IH]; simpl in *; auto.
  apply andb_true_iff in Hp. destruct Hp as [H1 H2].
  now rewrite (H x H1), (IH H2).
Qed.

Lemma search_dotted_version_needs_digit (s : str) :
  search_digit s = false -> search_dotted_version s = false.
Proof.
  induction s as [|a s IH]; [reflexivity|].
  unfold search_digit. cbn [existsb]. intros H.
  apply orb_false_iff in H. destruct H as [H1 H2].
  cbn [search_dotted_version]. destruct s as [|b [|c t]]; auto.
  rewrite H1. cbn [andb orb]. now apply IH.
Qed.

Lemma match_brand_model_alpha (s : str) :
  forallb is_alpha s = true -> match_brand_model s = None.
Proof.
  intros H. unfold match_brand_model.
  destruct (take_while_all is_alpha s H) as [-> ->]. now destruct s.
Qed.

Lemma code_token_inv (t : str) :
  code_token t = true -> t <> [] /\ forallb is_code_char t = true.
Proof.
  unfold code_token. intros H. apply andb_true_iff in H. destruct H as [H1 H2].
  split; auto. now destruct t.
Qed.

Lemma join_cons2 (sep x y : str) (l : list str) :
  join sep (x :: y :: l) = x ++ sep ++ join sep (y :: l).
Proof. reflexivity. Qed.

(** A code is made of the characters of its tokens and of hyphens. *)
Lemma join_code_chars (toks : list str) :
  forallb code_token toks = true ->
  forallb (fun c => is_code_char c || Ascii.eqb c "-") (join "-" toks) = true.
Proof.
  induction toks as [|t toks IH]; [reflexivity|].
  cbn [forallb]. intros H. apply andb_true_iff in H. destruct H as [Ht Hr].
  apply code_token_inv in Ht. destruct Ht as [_ Ht].
  assert (Hc : forallb (fun c => is_code_char c || Ascii.eqb c "-") t = true).
  { eapply forallb_impl; [|exact Ht]. intros x Hx. now rewrite Hx. }
  destruct toks as [|t' r]; [exact Hc|].
  rewrite join_cons2, !forallb_app, Hc, (IH Hr). reflexivity.
Qed.

Lemma code_or_hyphen_kept (c : ascii) :
  is_code_char c || Ascii.eqb c "-" = true -> is_kept c = true.
Proof. destruct c as [[] [] [] [] [] [] [] []]; vm_compute; congruence. Qed.

Lemma code_or_hyphen_not_underscore (c : ascii) :
  is_code_char c || Ascii.eqb c "-" = true -> Ascii.eqb "_" c = false.
Proof. destruct c as [[] [] [] [] [] [] [] []]; vm_compute; congruence. Qed.

Lemma split_seps_join (toks : list str) :
  toks <> [] -> forallb code_token toks = true ->
  split_seps (join "-" toks) = toks.
Proof.
  induction toks as [|t toks IH]; [congruence|]. intros _.
  cbn [forallb]. intros H. apply andb_true_iff in H. destruct H as [Ht Hr].
  apply code_token_inv in Ht. destruct Ht as [_ Ht].
  assert (Hs : forallb (fun c => negb (is_sep c)) t = true).
  { eapply forallb_impl; [|exact Ht]. intros x Hx.
    now rewrite (code_char_not_sep x Hx). }
  destruct toks as [|t' r]; [now apply split_seps_plain|].
  rewrite join_cons2. change (lit "-" ++ join "-" (t' :: r))
    with ("-"%char :: join "-" (t' :: r)).
  rewrite split_seps_app; auto. f_equal. apply IH; [discriminate | exact Hr].
Qed.

Lemma brand_code_tokens (brand : str) (toks : list str) :
  fullmatch_alpha brand = true ->
  toks <> [] -> forallb code_token toks = true ->
  strip_version (brand ++ "-" ++ join "-" toks)
  = (brand ++ "-" ++ join "-" toks, [])
  /\ tokens (brand ++ "-" ++ join "-" toks) = brand :: toks.
Proof.
  intros Hb Nt Ht. unfold fullmatch_alpha in Hb.
  apply andb_true_iff in Hb. destruct Hb as [Nb Hb].
  pose proof (join_code_chars toks Ht) as Hj.
  split.
  - unfold strip_version. rewrite search_version_no_underscore; auto.
    rewrite !contains_app. unfold contains.
    rewrite (existsb_none is_alpha _ brand alpha_not_underscore' Hb).
    rewrite (existsb_none _ _ _ code_or_hyphen_not_underscore Hj).
    reflexivity.
  - unfold tokens, clean.
    rewrite (filter_id is_kept).
    + change (lit "-" ++ join "-" toks) with ("-"%char :: join "-" toks).
      rewrite split_seps_app.
      * rewrite (split_seps_join toks Nt Ht). cbn [filter].
        destruct brand; [discriminate|]. cbn [is_empty negb]. f_equal.
        apply filter_id. eapply forallb_impl; [|exact Ht]. intros x Hx.
        apply code_token_inv in Hx. destruct Hx as [Hx _]. now destruct x.
      * eapply forallb_impl; [|exact Hb]. intros x Hx.
        now rewrite (alpha_not_sep x Hx).
      * reflexivity.
    + rewrite !forallb_app. rewrite (forallb_impl _ _ _ alpha_kept Hb).
      rewrite (forallb_impl _ _ _ code_or_hyphen_kept Hj). reflexivity.
Qed.

Lemma alpha_no_dotted_version (brand : str) :
  forallb is_alpha brand = true -> search_dotted_version brand = false.
Proof.
  intros Ha. apply search_dotted_version_needs_digit.
  apply (existsb_none is_alpha); auto using alpha_not_digit.
Qed.

Lemma find_index_none {A : Type} (p : A -> bool) (l : list A) :
  forallb (fun x => negb (p x)) l = true -> find_index p l = None.
Proof.
  induction l as [|x l IH]; [reflexivity|]. cbn [forallb find_index].
  intros H. apply andb_true_iff in H. destruct H as [H1 H2].
  apply negb_true_iff in H1. now rewrite H1, (IH H2).
Qed.

(** One code token after the brand *)
Lemma locate_brand_code (brand code : str) :
  fullmatch_alpha brand = true -> 2 <= List.length code ->
  locate_code [brand; code] = ([brand], [code]).
Proof.
  intros Hb Hl. unfold locate_code. cbn [find_index].
  assert (Ha : forallb is_alpha brand = true).
  { unfold fullmatch_alpha in Hb. apply andb_true_iff in Hb. tauto. }
  rewrite (alpha_no_dotted_version brand Ha).
  destruct (search_dotted_version code); [reflexivity|].
  cbn [split_by_arity]. rewrite (match_brand_model_alpha brand Ha).
  apply Nat.leb_le in Hl. rewrite Hl.
  now destruct (fullmatch_alpha brand && search_digit code).
Qed.

(** Several code tokens after the brand *)
Lemma locate_brand_codes (brand t1 t2 : str) (r : list str) :
  fullmatch_alpha brand = true ->
  search_dotted_version t1
  || forallb (fun t => negb (search_dotted_version t)) (t1 :: t2 :: r) = true ->
  locate_code (brand :: t1 :: t2 :: r) = ([brand], t1 :: t2 :: r).
Proof.
  intros Hb H. unfold locate_code.
  assert (Ha : forallb is_alpha brand = true).
  { unfold fullmatch_alpha in Hb. apply andb_true_iff in Hb. tauto. }
  destruct (search_dotted_version t1) eqn:E1.
  - cbn [find_index]. now rewrite (alpha_no_dotted_version brand Ha), E1.
  - cbn [orb] in H.
    assert (E : find_index search_dotted_version (brand :: t1 :: t2 :: r) = None).
    { apply find_index_none. cbn [forallb].
      rewrite (alpha_no_dotted_version brand Ha). exact H. }
    rewrite E. unfold split_by_arity. cbn [hd]. now rewrite Hb.
Qed.

Lemma strip_prefix_app (p s : str) : strip_prefix p (p ++ s) = Some s.
Proof.
  induction p as [|c p IH]; [reflexivity|]. cbn [app strip_prefix].
  now rewrite Ascii.eqb_refl.
Qed.

Lemma no_char_drop_while (c : ascii) (p : ascii -> bool) (s : str) :
  contains c s = false -> contains c (drop_while p s) = false.
Proof.
  induction s as [|x s IH]; [reflexivity|]. intros H. cbn [drop_while].
  destruct (p x); auto. apply IH.
  change (Ascii.eqb c x || contains c s = false) in H.
  apply orb_false_iff in H. tauto.
Qed.

(** The code of several tokens is joined with hyphens when the stem has no
    underscore. *)
Lemma assemble_hyphen_code (stem brand t1 t2 : str) (r : list str) :
  contains "_" stem = false ->
  assemble_code stem [brand] (t1 :: t2 :: r) None
  = Some (join "-" (t1 :: t2 :: r)).
Proof.
  intros H. unfold assemble_code. cbn [fold_left truthy].
  assert (E : contains "_" (sub_name_prefix brand stem) = false).
  { unfold sub_name_prefix. destruct (strip_prefix brand stem) as [rest|] eqn:Ep; auto.
    apply no_char_drop_while.
    revert stem H Ep. induction brand as [|b brand IH]; intros stem H Ep.
    - cbn in Ep. now inversion Ep; subst.
    - destruct stem as [|x stem]; [discriminate|]. cbn [strip_prefix] in Ep.
      destruct (Ascii.eqb b x); [|discriminate].
      change (Ascii.eqb "_" x || contains "_" stem = false) in H.
      apply orb_false_iff in H. destruct H as [_ H]. eapply IH; eauto. }
  now rewrite E.
Qed.

Lemma find_index_skip {A : Type} (p : A -> bool) (x : A) (l : list A) :
  p x = false ->
  find_index p (x :: l)
  = match find_index p l with Some i => Some (S i) | None => None end.
Proof. intros H. cbn [find_index]. now rewrite H. Qed.

Lemma find_index_some {A : Type} (p : A -> bool) (l : list A) :
  forallb (fun x => negb (p x)) l = false -> exists k, find_index p l = Some k.
Proof.
  induction l as [|x l IH]; [discriminate|]. cbn [forallb find_index].
  destruct (p x); [eauto|]. cbn [negb andb]. intros H.
  destruct (IH H) as [k ->]. eauto.
Qed.

Lemma drop_while_app_ink (p : ascii -> bool) (a b : str) :
  existsb (fun c => negb (p c)) a = true ->
  drop_while p (a ++ b) = drop_while p a ++ b.
Proof.
  induction a as [|x a IH]; [discriminate|]. cbn [existsb app drop_while].
  destruct (p x); [exact IH | reflexivity].
Qed.

(** [strip] leaves a head without blanks in place when a character that is no
    blank follows. *)
Lemma strip_head (b x : str) :
  b <> [] -> forallb (fun c => negb (is_space c)) b = true -> has_ink x ->
  strip (b ++ x) = b ++ rstrip x.
Proof.
  intros Nb Hb Hx. unfold strip, lstrip.
  assert (E : drop_while is_space (b ++ x) = b ++ x).
  { destruct b as [|c b]; [congruence|]. cbn [forallb] in Hb.
    apply andb_true_iff in Hb. destruct Hb as [Hc _].
    apply negb_true_iff in Hc. cbn [app drop_while]. now rewrite Hc. }
  rewrite E. unfold rstrip. rewrite rev_app_distr, drop_while_app_ink.
  - now rewrite rev_app_distr, rev_involutive.
  - unfold has_ink in Hx. apply existsb_exists in Hx. destruct Hx as [c [Hc Hp]].
    apply existsb_exists. exists c. split; auto. now apply -> in_rev.
Qed.

Lemma rstrip_keeps (x : str) : has_ink x -> rstrip x <> [].
Proof.
  unfold has_ink, rstrip. intros H.
  assert (Hr : existsb (fun c => negb (is_space c)) (rev x) = true).
  { apply existsb_exists in H. destruct H as [c [Hc Hp]].
    apply existsb_exists. exists c. split; auto. now apply -> in_rev. }
  apply drop_while_keeps in Hr.
  destruct (drop_while is_space (rev x)) as [|c t]; [discriminate|].
  cbn [rev]. intros N. apply app_eq_nil in N. destruct N; discriminate.
Qed.

Lemma post_check_no_code (name : option str) (parts : list str) :
  snd (post_check name None parts) = None.
Proof.
  unfold post_check. cbn [truthy andb negb]. rewrite andb_false_r. reflexivity.
Qed.

Lemma code_token_has_ink (t : str) : code_token t = true -> has_ink t.
Proof.
  intros H. apply code_token_inv in H. destruct H as [N H].
  apply token_has_ink. split; auto.
  eapply forallb_impl; [|exact H]. intros x Hx. now rewrite (code_char_not_sep x Hx).
Qed.

Lemma code_char_not_alnum (c : ascii) :
  is_code_char c = true -> is_alnum c = false -> c = "."%char.
Proof.
  unfold is_code_char. intros H E. rewrite E in H. now apply Ascii.eqb_eq in H.
Qed.

End BrandCode.

(** The codes that come back whole *)
Lemma brand_code_recovered (brand : str) (toks : list str) :
  Re.fullmatch_alpha brand = true ->
  forallb ExtractSpec.code_token toks = true ->
  ExtractSpec.recoverable toks = true ->
  Organize.extract_name_code_variant (brand ++ lit "-" ++ Py.join "-" toks)
  = (Some brand, Some (Py.join "-" toks), None).
Proof.
  intros Hb Ht Hr.
  assert (Nt : toks <> []) by (destruct toks; [discriminate | discriminate]).
  destruct (brand_code_tokens brand toks Hb Nt Ht) as [Hv Hk].
  assert (Hu : Py.contains "_" (brand ++ lit "-" ++ Py.join "-" toks) = false).
  { unfold Organize.strip_version in Hv.
    destruct (Py.contains "_" (brand ++ lit "-" ++ Py.join "-" toks)) eqn:E; auto.
    exfalso. pose proof (join_code_chars toks Ht) as Hj.
    rewrite !contains_app in E. unfold Py.contains in E.
    unfold Re.fullmatch_alpha in Hb. apply andb_true_iff in Hb.
    destruct Hb as [_ Hb].
    rewrite (existsb_none Py.is_alpha _ brand alpha_not_underscore' Hb) in E.
    rewrite (existsb_none _ _ _ code_or_hyphen_not_underscore Hj) in E.
    discriminate. }
  assert (Hs : Py.strip brand = brand).
  { apply strip_id. unfold Re.fullmatch_alpha in Hb.
    apply andb_true_iff in Hb. destruct Hb as [_ Hb].
    eapply forallb_impl; [|exact Hb]. intros x Hx.
    now rewrite (alpha_not_space x Hx). }
  assert (Nb : brand <> []).
  { unfold Re.fullmatch_alpha in Hb. destruct brand; [discriminate | discriminate]. }
  unfold Organize.extract_name_code_variant.
  rewrite Hv. cbn [fst]. rewrite Hk. cbn [Organize.is_nil].
  destruct toks as [|t1 [|t2 r]]; [congruence | |].
  - (* one token *)
    cbn [ExtractSpec.recoverable] in Hr. apply Nat.leb_le in Hr.
    cbn [Organize.special_three_token].
    assert (Hp : Organize.pop_variant [brand; t1] = (None, [brand; t1])).
    { unfold Organize.pop_variant. cbn [last].
      destruct t1 as [|c1 [|c2 t]]; simpl in Hr; try lia. reflexivity. }
    rewrite Hp, (locate_brand_code brand t1 Hb Hr).
    cbn [Organize.is_nil Py.join Organize.assemble_code].
    now rewrite Hs, post_check_named.
  - (* several tokens *)
    cbn [ExtractSpec.recoverable] in Hr.
    cbn [Organize.special_three_token]. rewrite Hb. cbn [andb].
    destruct (Re.search_alpha t1 && Re.search_digit t1 && Re.fullmatch_digits t2)
      eqn:Esp; [reflexivity|].
    cbn [orb] in Hr. apply andb_true_iff in Hr. destruct Hr as [Hlast Hdot].
    assert (Hp : Organize.pop_variant (brand :: t1 :: t2 :: r)
                 = (None, brand :: t1 :: t2 :: r)).
    { unfold Organize.pop_variant.
      change (last (brand :: t1 :: t2 :: r) []) with (last (t1 :: t2 :: r) []).
      apply negb_true_iff in Hlast. rewrite Hlast. now rewrite andb_false_r. }
    rewrite Hp, (locate_brand_codes brand t1 t2 r Hb Hdot).
    cbn [Organize.is_nil]. change (Py.join " " [brand]) with brand.
    rewrite (assemble_hyphen_code _ brand t1 t2 r Hu).
    now rewrite Hs, post_check_named.
Qed.


(** The codes that do not: the last token is taken for the variant, or a
    token goes to the name, or no code is found. *)
Lemma brand_code_lost (brand : str) (toks : list str) :
  Re.fullmatch_alpha brand = true ->
  toks <> [] ->
  forallb ExtractSpec.code_token toks = true ->
  ExtractSpec.recoverable toks = false ->
  Organize.extract_name_code_variant (brand ++ lit "-" ++ Py.join "-" toks)
  <> (Some brand, Some (Py.join "-" toks), None).
Proof.
  intros Hb Nt Ht Hr.
  destruct (brand_code_tokens brand toks Hb Nt Ht) as [Hv Hk].
  assert (Ha : forallb Py.is_alpha brand = true).
  { unfold Re.fullmatch_alpha in Hb. apply andb_true_iff in Hb. tauto. }
  assert (Hsp : forallb (fun c => negb (Py.is_space c)) brand = true).
  { eapply forallb_impl; [|exact Ha]. intros x Hx.
    now rewrite (alpha_not_space x Hx). }
  assert (Nb : brand <> []).
  { unfold Re.fullmatch_alpha in Hb. destruct brand; [discriminate | discriminate]. }
  unfold Organize.extract_name_code_variant.
  rewrite Hv. cbn [fst]. rewrite Hk. cbn [Organize.is_nil].
  destruct toks as [|t1 [|t2 r]]; [congruence | |].
  - (* one token, of one character *)
    cbn [ExtractSpec.recoverable] in Hr. apply Nat.leb_gt in Hr.
    cbn [forallb] in Ht. rewrite andb_true_r in Ht.
    apply code_token_inv in Ht. destruct Ht as [N1 Hc].
    destruct t1 as [|c [|c2 t]]; [congruence | | simpl in Hr; lia].
    cbn [forallb] in Hc. rewrite andb_true_r in Hc.
    cbn [Organize.special_three_token].
    destruct (Py.is_alnum c) eqn:Ec.
    + assert (Hp : Organize.pop_variant [brand; [c]] = (Some [c], [brand])).
      { unfold Organize.pop_variant. cbn [last List.length removelast].
        unfold Organize.is_variant_code, Re.fullmatch_alnum1. now rewrite Ec. }
      rewrite Hp. destruct (Organize.locate_code [brand]) as [np cp].
      destruct (Organize.post_check _ _ _) as [n cd]. discriminate.
    + apply code_char_not_alnum in Hc; auto. subst c.
      assert (Hp : Organize.pop_variant [brand; ["."%char]] = (None, [brand; ["."%char]]))
        by reflexivity.
      rewrite Hp.
      assert (Hl : Organize.locate_code [brand; ["."%char]] = ([brand; ["."%char]], [])).
      { unfold Organize.locate_code. cbn [Organize.find_index].
        rewrite (alpha_no_dotted_version brand Ha).
        change (Re.search_dotted_version ["."%char]) with false. cbn iota.
        cbn [Organize.split_by_arity].
        rewrite (match_brand_model_alpha brand Ha).
        change (Re.search_digit ["."%char]) with false. now rewrite andb_false_r. }
      rewrite Hl. cbn [Organize.is_nil Organize.assemble_code].
      pose proof (post_check_no_code
                    (Some (Py.strip (Py.join " " [brand; ["."%char]])))
                    [brand; ["."%char]]) as Hn.
      destruct (Organize.post_check _ _ _) as [n cd]. cbn [snd] in Hn. subst cd.
      discriminate.
  - (* several tokens *)
    cbn [ExtractSpec.recoverable] in Hr.
    apply orb_false_iff in Hr. destruct Hr as [Esp Hr].
    cbn [Organize.special_three_token]. rewrite Hb. cbn [andb]. rewrite Esp.
    destruct (Organize.is_variant_code (last (t1 :: t2 :: r) [])) eqn:Ev.
    + assert (Hp : Organize.pop_variant (brand :: t1 :: t2 :: r)
                   = (Some (last (t1 :: t2 :: r) []),
                      removelast (brand :: t1 :: t2 :: r))).
      { unfold Organize.pop_variant.
        change (last (brand :: t1 :: t2 :: r) []) with (last (t1 :: t2 :: r) []).
        rewrite Ev. reflexivity. }
      rewrite Hp. destruct (Organize.locate_code _) as [np cp].
      destruct (Organize.post_check _ _ _) as [n cd]. discriminate.
    + cbn [negb andb] in Hr. apply orb_false_iff in Hr. destruct Hr as [E1 Hd].
      assert (Hp : Organize.pop_variant (brand :: t1 :: t2 :: r)
                   = (None, brand :: t1 :: t2 :: r)).
      { unfold Organize.pop_variant.
        change (last (brand :: t1 :: t2 :: r) []) with (last (t1 :: t2 :: r) []).
        rewrite Ev. now rewrite andb_false_r. }
      rewrite Hp.
      cbn [forallb] in Hd. rewrite E1 in Hd. cbn [negb andb] in Hd.
      change (forallb (fun t => negb (Re.search_dotted_version t)) (t2 :: r) = false)
        in Hd.
      destruct (find_index_some Re.search_dotted_version (t2 :: r) Hd) as [k Hfi].
      assert (Hl : Organize.locate_code (brand :: t1 :: t2 :: r)
                   = (brand :: t1 :: firstn k (t2 :: r), skipn k (t2 :: r))).
      { unfold Organize.locate_code.
        rewrite (find_index_skip _ brand _ (alpha_no_dotted_version brand Ha)).
        rewrite (find_index_skip _ t1 _ E1), Hfi. reflexivity. }
      rewrite Hl. cbn [Organize.is_nil].
      change (Py.join " " (brand :: t1 :: firstn k (t2 :: r)))
        with (brand ++ lit " " ++ Py.join " " (t1 :: firstn k (t2 :: r))).
      assert (Hink : ExtractSpec.has_ink
                       (lit " " ++ Py.join " " (t1 :: firstn k (t2 :: r)))).
      { unfold ExtractSpec.has_ink. rewrite existsb_app. apply orb_true_iff. right.
        apply join_has_ink; [discriminate|].
        change (ExtractSpec.code_token t1
                && forallb ExtractSpec.code_token (t2 :: r) = true) in Ht.
        apply andb_true_iff in Ht. destruct Ht as [H1 H2].
        constructor; [now apply code_token_has_ink|].
        apply Forall_firstn'. apply Forall_forall. intros x Hx.
        apply code_token_has_ink. rewrite forallb_forall in H2. now apply H2. }
      rewrite (strip_head brand _ Nb Hsp Hink).
      rewrite post_check_named.
      * intros C. apply (f_equal (fun x => fst (fst x))) in C. cbn [fst] in C.
        injection C as C.
        rewrite <- (app_nil_r brand) in C at 2. apply app_inv_head in C.
        exact (rstrip_keeps _ Hink C).
      * destruct brand; [congruence | discriminate].
Qed.

(** C3 (as stated, refuted): [Widget] is purely alphabetic and the code [5]
    contains a digit, yet [Widget-5] is parsed with [5] as the variant and
    without a product code. *)
Lemma extract_brand_code_single_digit :
  Re.fullmatch_alpha "Widget" = true
  /\ Re.search_digit "5" = true
  /\ Organize.extract_name_code_variant (lit "Widget" ++ lit "-" ++ lit "5")
     = (Some (lit "Widget"), None, Some (lit "5")).
Proof. vm_compute. repeat split; reflexivity. Qed.

(** C3 (amended): for a purely alphabetic brand and a code made of tokens of
    letters, digits and dots joined by hyphens, the stem [<brand>-<code>] is
    parsed into that brand, that code and no variant exactly when the code
    is one token of two characters or more, or has several tokens and
    either starts with a token with a letter and a digit followed by a
    token of digits, or ends with a token that is no single letter or digit
    and has no dotted version number after its first token unless the first
    token has one.  A digit in the code is neither needed nor enough. *)
Theorem extract_brand_code (brand : str) (toks : list str) :
  Re.fullmatch_alpha brand = true ->
  toks <> [] ->
  forallb ExtractSpec.code_token toks = true ->
  (Organize.extract_name_code_variant (brand ++ lit "-" ++ Py.join "-" toks)
   = (Some brand, Some (Py.join "-" toks), None)
   <-> ExtractSpec.recoverable toks = true).
Proof.
  intros Hb Nt Ht. split.
  - intros H. destruct (ExtractSpec.recoverable toks) eqn:E; auto.
    exfalso. exact (brand_code_lost brand toks Hb Nt Ht E H).
  - now apply brand_code_recovered.
Qed.

(** The theorem at [Widget-A100]. *)
Lemma extract_brand_code_witness :
  Organize.extract_name_code_variant "Widget-A100"
  = (Some (lit "Widget"), Some (lit "A100"), None).
Proof.
  apply (extract_brand_code "Widget" [lit "A100"]).
  - reflexivity.
  - discriminate.
  - reflexivity.
  - reflexivity.
Defined.

(** ** The normalizer *)
Section NormalizeFacts.
Import Py Re OsPath Organize NormalizeSpec.

Lemma alpha_position_ord (c : ascii) :
  is_alpha c = true -> ord (upper_char c) - ord "A" + 1 = alpha_position c.
Proof. destruct c as [[] [] [] [] [] [] [] []]; vm_compute; congruence. Qed.

Lemma alpha_not_newline (c : ascii) : is_alpha c = true -> Ascii.eqb c newline = false.
Proof. destruct c as [[] [] [] [] [] [] [] []]; vm_compute; congruence. Qed.

Lemma at_eos_long (a b : ascii) (s : str) : at_eos (a :: b :: s) = false.
Proof. reflexivity. Qed.

Lemma search_final_letter_last (p : str) (c : ascii) :
  is_alpha c = true -> search_final_letter (p ++ [c]) = Some c.
Proof.
  intros Hc. induction p as [|x p IH]; cbn [app search_final_letter].
  - now rewrite Hc.
  - assert (E : at_eos (p ++ [c]) = false).
    { destruct p as [|y [|z p]]; try reflexivity.
      cbn. now apply alpha_not_newline. }
    now rewrite E, andb_false_r.
Qed.

Lemma search_final_letter_inv (s : str) (c : ascii) :
  search_final_letter s = Some c ->
  exists p tail, s = p ++ c :: tail /\ is_alpha c = true /\ at_eos tail = true.
Proof.
  induction s as [|x s IH]; cbn [search_final_letter]; [discriminate|].
  destruct (is_alpha x && at_eos s) eqn:E.
  - intros H. inversion H; subst. apply andb_true_iff in E.
    exists [], s. tauto.
  - intros H. destruct (IH H) as [p [tail [-> [H1 H2]]]].
    exists (x :: p), tail. auto.
Qed.

Lemma at_eos_inv (s : str) : at_eos s = true -> s = [] \/ s = [newline].
Proof.
  destruct s as [|a [|b s]]; cbn; auto; [|discriminate].
  intros H. apply Ascii.eqb_eq in H. subst. auto.
Qed.

Lemma search_final_letter_none (s : str) :
  ends_in_letter s = false -> search_final_letter s = None.
Proof.
  intros H. destruct (search_final_letter s) as [c|] eqn:E; auto.
  apply search_final_letter_inv in E. destruct E as [p [tail [-> [H1 H2]]]].
  apply at_eos_inv in H2. unfold ends_in_letter in H.
  destruct H2 as [->| ->].
  - rewrite rev_app_distr in H. cbn in H. now rewrite H1 in H.
  - rewrite rev_app_distr in H. cbn [rev app] in H.
    rewrite H1, Ascii.eqb_refl, orb_true_r in H. discriminate.
Qed.

(** *** The version marker is found where it is *)

Lemma take_drop_digits (ds tail : str) :
  forallb is_digit ds = true -> at_eos tail = true ->
  take_while is_digit (ds ++ tail) = ds /\ drop_while is_digit (ds ++ tail) = tail.
Proof.
  intros Hd Ht. induction ds as [|d ds IH]; cbn [app].
  - apply at_eos_inv in Ht. destruct Ht as [->| ->]; auto.
  - cbn [forallb] in Hd. apply andb_true_iff in Hd. destruct Hd as [H1 H2].
    cbn [take_while drop_while]. rewrite H1. destruct (IH H2) as [-> ->]. auto.
Qed.

Lemma match_version_here_inv (s g : str) :
  match_version_here s = Some g ->
  exists ds tail, g = "_"%char :: "v"%char :: ds /\ ds <> []
    /\ forallb is_digit ds = true /\ at_eos tail = true /\ s = g ++ tail.
Proof.
  unfold match_version_here. destruct s as [|c1 [|c2 t]]; try discriminate.
  destruct (Ascii.eqb c1 "_" && Ascii.eqb c2 "v" &&
            negb (is_empty (take_while is_digit t)) &&
            at_eos (drop_while is_digit t)) eqn:E; [|discriminate].
  intros H. inversion H; subst.
  repeat (apply andb_true_iff in E; destruct E as [E ?]).
  apply Ascii.eqb_eq in E. apply Ascii.eqb_eq in H2. subst.
  exists (take_while is_digit t), (drop_while is_digit t).
  repeat split; auto.
  - destruct (take_while is_digit t); [discriminate | discriminate].
  - clear. induction t as [|x t IH]; cbn; auto.
    destruct (is_digit x) eqn:Ex; cbn; auto. now rewrite Ex.
  - cbn [app]. now rewrite take_drop_while.
Qed.

Lemma match_version_here_marker (ds tail : str) :
  ds <> [] -> forallb is_digit ds = true -> at_eos tail = true ->
  match_version_here ("_"%char :: "v"%char :: ds ++ tail)
  = Some ("_"%char :: "v"%char :: ds).
Proof.
  intros N Hd Ht. unfold match_version_here.
  destruct (take_drop_digits ds tail Hd Ht) as [-> ->]. rewrite Ht.
  destruct ds; [congruence|]. reflexivity.
Qed.

Lemma drop_while_digit_marker (x ds tail : str) :
  2 <= List.length (drop_while is_digit (x ++ "_"%char :: "v"%char :: ds ++ tail)).
Proof.
  induction x as [|a x IH]; cbn [app drop_while].
  - change (is_digit "_") with false. cbn [List.length]. lia.
  - destruct (is_digit a); auto. cbn [List.length]. rewrite length_app. cbn. lia.
Qed.

Lemma match_version_here_before (a : ascii) (x ds tail : str) :
  match_version_here (a :: x ++ "_"%char :: "v"%char :: ds ++ tail) = None.
Proof.
  unfold match_version_here.
  destruct x as [|b x]; cbn [app].
  - change (Ascii.eqb "_" "v") with false. now rewrite andb_false_r.
  - pose proof (drop_while_digit_marker x ds tail) as H.
    destruct (drop_while is_digit (x ++ "_"%char :: "v"%char :: ds ++ tail))
      as [|u [|w r]]; cbn in H; try lia.
    rewrite at_eos_long. now rewrite andb_false_r.
Qed.

Lemma search_version_marker (pre ds tail : str) :
  ds <> [] -> forallb is_digit ds = true -> at_eos tail = true ->
  search_version (pre ++ "_"%char :: "v"%char :: ds ++ tail)
  = Some (pre, "_"%char :: "v"%char :: ds).
Proof.
  intros N Hd Ht. induction pre as [|a pre IH].
  - cbn [app]. destruct ds as [|d ds]; [congruence|].
    cbn [search_version].
    now rewrite (match_version_here_marker (d :: ds) tail N Hd Ht).
  - cbn [app search_version].
    rewrite match_version_here_before, IH. reflexivity.
Qed.

Lemma search_version_inv (s pre g : str) :
  search_version s = Some (pre, g) ->
  exists ds tail, g = "_"%char :: "v"%char :: ds /\ ds <> []
    /\ forallb is_digit ds = true /\ at_eos tail = true /\ s = pre ++ g ++ tail.
Proof.
  revert pre. induction s as [|c s IH]; intros pre.
  - cbn. discriminate.
  - cbn [search_version].
    destruct (match_version_here (c :: s)) as [g'|] eqn:E.
    + intros H. inversion H; subst. now apply match_version_here_inv.
    + destruct (search_version s) as [[pre' g']|]; [|discriminate].
      intros H. inversion H; subst.
      destruct (IH pre' eq_refl) as [ds [tail [H1 [H2 [H3 [H4 H5]]]]]].
      exists ds, tail. repeat split; auto. cbn [app]. now f_equal.
Qed.

End NormalizeFacts.

(** ** [os.path.splitext] *)
Section SplitextFacts.
Import Py Re OsPath.

Lemma rfind_lt (c : ascii) (s : str) (i : nat) :
  rfind c s = Some i -> i < List.length s.
Proof.
  revert i. induction s as [|x s IH]; intros i; cbn [rfind]; [discriminate|].
  destruct (rfind c s) as [j|].
  - intros H. inversion H; subst. specialize (IH j eq_refl). cbn. lia.
  - destruct (Ascii.eqb x c); [|discriminate].
    intros H. inversion H; subst. cbn. lia.
Qed.

Lemma rfind_none (c : ascii) (s : str) :
  rfind c s = None <-> contains c s = false.
Proof.
  unfold contains. induction s as [|x s IH]; cbn [rfind existsb]; [tauto|].
  rewrite (Ascii.eqb_sym c x).
  destruct (rfind c s) as [j|].
  - split; [discriminate|]. intros H. apply orb_false_iff in H.
    destruct H as [_ H]. apply IH in H. discriminate.
  - destruct (Ascii.eqb x c); cbn.
    + split; discriminate.
    + tauto.
Qed.

Lemma rfind_app (c : ascii) (a b : str) :
  rfind c (a ++ b) =
  match rfind c b with
  | Some i => Some (List.length a + i)
  | None => rfind c a
  end.
Proof.
  induction a as [|x a IH]; cbn [app rfind List.length].
  - destruct (rfind c b); reflexivity.
  - rewrite IH. destruct (rfind c b); reflexivity.
Qed.

Lemma rfind_split (c : ascii) (s : str) (i : nat) :
  rfind c s = Some i ->
  s = firstn i s ++ c :: skipn (S i) s /\ rfind c (skipn (S i) s) = None.
Proof.
  revert i. induction s as [|x s IH]; intros i; cbn [rfind]; [discriminate|].
  destruct (rfind c s) as [j|] eqn:E.
  - intros H. inversion H; subst. destruct (IH j eq_refl) as [H1 H2].
    cbn [firstn skipn app]. split; [f_equal; exact H1 | exact H2].
  - destruct (Ascii.eqb x c) eqn:Ex; [|discriminate].
    intros H. inversion H; subst. apply Ascii.eqb_eq in Ex. subst.
    cbn [firstn skipn app]. auto.
Qed.

Lemma contains_skipn (c : ascii) (n : nat) (s : str) :
  contains c s = false -> contains c (skipn n s) = false.
Proof.
  revert s. induction n as [|n IH]; intros s; cbn [skipn]; auto.
  destruct s as [|x s]; auto. unfold contains. cbn [existsb].
  intros H. apply orb_false_iff in H. destruct H as [_ H]. now apply IH.
Qed.

Lemma name_start_le (p : str) : name_start p <= List.length p.
Proof.
  unfold name_start. destruct (rfind "/" p) eqn:E; [|lia].
  apply rfind_lt in E. lia.
Qed.

Lemma name_start_app (r e : str) :
  contains "/" e = false -> name_start (r ++ e) = name_start r.
Proof.
  intros H. unfold name_start. rewrite rfind_app.
  apply rfind_none in H. now rewrite H.
Qed.

(** The split at a well-formed extension *)
Lemma splitext_app (r e' : str) :
  contains "." e' = false -> contains "/" e' = false ->
  splitext (r ++ "."%char :: e') =
  if existsb not_dot (skipn (name_start r) r)
  then (r, "."%char :: e') else (r ++ "."%char :: e', []).
Proof.
  intros Hd Hs. unfold splitext. cbv zeta.
  rewrite name_start_app by (cbn; exact Hs).
  assert (E : rfind "." (r ++ "."%char :: e') = Some (List.length r)).
  { rewrite rfind_app. cbn [rfind]. apply rfind_none in Hd. rewrite Hd.
    change (Ascii.eqb "." ".") with true. cbv iota. f_equal. lia. }
  rewrite E. pose proof (name_start_le r) as Hle.
  assert (E1 : firstn (List.length r - name_start r)
                 (skipn (name_start r) (r ++ "."%char :: e'))
               = skipn (name_start r) r).
  { rewrite skipn_app.
    replace (name_start r - List.length r) with 0 by lia. cbn [skipn].
    rewrite firstn_app, length_skipn, Nat.sub_diag. cbn [firstn].
    rewrite app_nil_r. apply firstn_all2. rewrite length_skipn. lia. }
  rewrite E1. apply Nat.leb_le in Hle. rewrite Hle. cbn [andb].
  destruct (existsb not_dot (skipn (name_start r) r)); [|reflexivity].
  rewrite firstn_app, Nat.sub_diag, firstn_all. cbn [firstn]. rewrite app_nil_r.
  rewrite skipn_app, Nat.sub_diag, skipn_all. reflexivity.
Qed.

Lemma splitext_concat (p r e : str) : splitext p = (r, e) -> r ++ e = p.
Proof.
  unfold splitext. destruct (rfind "." p) as [d|].
  - destruct (_ && _).
    + intros H. inversion H; subst. apply firstn_skipn.
    + intros H. inversion H; subst. apply app_nil_r.
  - intros H. inversion H; subst. apply app_nil_r.
Qed.

(** What a split tells about the two parts *)
Lemma splitext_inv (p r e : str) :
  splitext p = (r, e) ->
  (e = [] /\ r = p)
  \/ (exists e', e = "."%char :: e' /\ contains "." e' = false
        /\ contains "/" e' = false /\ p = r ++ e
        /\ existsb not_dot (skipn (name_start r) r) = true).
Proof.
  intros H. pose proof H as H0. unfold splitext in H. cbv zeta in H.
  destruct (rfind "." p) as [d|] eqn:Ed.
  2:{ inversion H; subst. auto. }
  destruct ((_ <=? d) && _) eqn:Ec.
  2:{ inversion H; subst. auto. }
  inversion H; subst. right.
  apply andb_true_iff in Ec. destruct Ec as [Hle Hex].
  apply Nat.leb_le in Hle.
  destruct (rfind_split _ _ _ Ed) as [Hp Hn].
  pose proof (rfind_lt _ _ _ Ed) as Hlt.
  assert (Hsk : skipn d p = "."%char :: skipn (S d) p).
  { transitivity (skipn d (firstn d p ++ "."%char :: skipn (S d) p));
      [f_equal; exact Hp|].
    assert (Hl : List.length (firstn d p) = d) by (rewrite length_firstn; lia).
    rewrite skipn_app, Hl, Nat.sub_diag. cbn [skipn].
    rewrite skipn_all2 by lia. reflexivity. }
  exists (skipn (S d) p).
  assert (Hslash : contains "/" (skipn (S d) p) = false).
  { pose proof Hle as Hle'. unfold name_start in Hle'.
    destruct (rfind "/" p) as [i|] eqn:Ei.
    - destruct (rfind_split _ _ _ Ei) as [_ Hni].
      apply rfind_none in Hni.
      replace (S d) with ((S d - S i) + S i) by lia.
      rewrite <- skipn_skipn. now apply contains_skipn.
    - apply rfind_none in Ei. now apply contains_skipn. }
  split; [exact Hsk|]. split; [now apply rfind_none|]. split; [exact Hslash|].
  split; [symmetry; apply firstn_skipn|].
  assert (Hst : name_start (firstn d p) = name_start p).
  { rewrite <- (firstn_skipn d p) at 2. rewrite Hsk.
    apply eq_sym, name_start_app. cbn. exact Hslash. }
  rewrite Hst, skipn_firstn_comm. exact Hex.
Qed.

End SplitextFacts.

Section AlphaNumericKey.
Import Py Re OsPath Organize NormalizeSpec.

Lemma digits_no_slash_dot (ds : str) :
  forallb is_digit ds = true ->
  contains "/" ds = false /\ contains "." ds = false.
Proof.
  intros H. unfold contains. split.
  - apply (existsb_none is_digit); auto.
    intros c; destruct c as [[] [] [] [] [] [] [] []]; vm_compute; congruence.
  - apply (existsb_none is_digit); auto.
    intros c; destruct c as [[] [] [] [] [] [] [] []]; vm_compute; congruence.
Qed.

(** A stem that ends in a version marker has a character that is no dot in
    its last component. *)
Lemma marker_not_dot (pre ds : str) :
  forallb is_digit ds = true ->
  existsb not_dot (skipn (name_start (pre ++ "_"%char :: "v"%char :: ds))
                         (pre ++ "_"%char :: "v"%char :: ds)) = true.
Proof.
  intros Hd. destruct (digits_no_slash_dot ds Hd) as [Hs _].
  rewrite name_start_app by (unfold contains in *; cbn; exact Hs).
  pose proof (name_start_le pre) as Hle.
  rewrite skipn_app. replace (name_start pre - List.length pre) with 0 by lia.
  cbn [skipn]. rewrite existsb_app. cbn [existsb].
  change (not_dot "_") with true. now rewrite orb_true_r.
Qed.

(** Dropping the line feed that follows a version marker does not move the
    extension. *)
Lemma splitext_marker_lf (pre ds ext : str) :
  forallb is_digit ds = true ->
  splitext ((pre ++ "_"%char :: "v"%char :: ds ++ [newline]) ++ ext)
  = (pre ++ "_"%char :: "v"%char :: ds ++ [newline], ext) ->
  splitext ((pre ++ "_"%char :: "v"%char :: ds) ++ ext)
  = (pre ++ "_"%char :: "v"%char :: ds, ext).
Proof.
  intros Hd H. destruct (digits_no_slash_dot ds Hd) as [Hs Hdot].
  destruct (splitext_inv _ _ _ H) as [[-> _]|[e' [-> [H1 [H2 _]]]]].
  - rewrite app_nil_r in *.
    destruct (splitext (pre ++ "_"%char :: "v"%char :: ds)) as [r e] eqn:E.
    destruct (splitext_inv _ _ _ E) as [[-> ->]|[e' [-> [H1 [H2 [H3 H4]]]]]];
      [reflexivity|].
    exfalso.
    assert (E' : pre ++ "_"%char :: "v"%char :: ds ++ [newline]
                 = r ++ "."%char :: (e' ++ [newline])).
    { change (pre ++ "_"%char :: "v"%char :: ds ++ [newline])
        with (pre ++ ("_"%char :: "v"%char :: ds) ++ [newline]).
      rewrite app_assoc, H3, <- app_assoc. reflexivity. }
    rewrite E' in H. rewrite splitext_app in H.
    + rewrite H4 in H. discriminate H.
    + rewrite contains_app, H1. reflexivity.
    + rewrite contains_app, H2. reflexivity.
  - rewrite splitext_app by assumption. now rewrite marker_not_dot.
Qed.

(** When the letter pattern finds nothing, the converted name has the key
    of the name itself. *)
Lemma convert_without_letter (name stem ext stem' vs : str) :
  splitext name = (stem, ext) ->
  strip_version stem = (stem', vs) ->
  normalize_filename (stem' ++ vs ++ ext) = normalize_filename name.
Proof.
  intros Hs Hv. pose proof (splitext_concat _ _ _ Hs) as Hn.
  unfold strip_version in Hv.
  destruct (search_version stem) as [[pre g]|] eqn:E.
  - inversion Hv; subst pre g.
    destruct (search_version_inv _ _ _ E) as [ds [tail [Hg [Nd [Hd [Ht Hst]]]]]].
    apply at_eos_inv in Ht. destruct Ht as [->| ->].
    + rewrite app_nil_r in Hst. now rewrite <- Hn, Hst, <- app_assoc.
    + subst vs.
      assert (Hs' : splitext ((stem' ++ "_"%char :: "v"%char :: ds) ++ ext)
                    = (stem' ++ "_"%char :: "v"%char :: ds, ext)).
      { apply splitext_marker_lf; auto.
        cbn [app] in Hst. rewrite <- Hst, Hn. exact Hs. }
      unfold normalize_filename.
      replace (stem' ++ ("_"%char :: "v"%char :: ds) ++ ext)
        with ((stem' ++ "_"%char :: "v"%char :: ds) ++ ext)
        by (now rewrite <- app_assoc).
      rewrite Hs', Hs. unfold strip_version. rewrite E.
      replace (stem' ++ "_"%char :: "v"%char :: ds)
        with (stem' ++ "_"%char :: "v"%char :: ds ++ [])
        by (now rewrite app_nil_r).
      rewrite search_version_marker; auto.
  - inversion Hv; subst stem' vs. cbn [app]. now rewrite Hn.
Qed.

End AlphaNumericKey.

(** C5 (as stated, refuted): the stem of [Widget.jpg] does not end in a
    letter that follows a separator, and the alpha-numeric key of the name
    differs from its standard key. *)
Lemma alpha_numeric_key_without_separator :
  OsPath.splitext "Widget.jpg" = (lit "Widget", lit ".jpg")
  /\ Organize.strip_version "Widget" = (lit "Widget", [])
  /\ NormalizeSpec.ends_in_sep_letter "Widget" = false
  /\ Organize.normalize_filename_with_alpha_numeric "Widget.jpg" = "widge20.jpg"
  /\ Organize.normalize_filename "Widget.jpg" = "widget.jpg"
  /\ Organize.normalize_filename_with_alpha_numeric "Widget.jpg"
     <> Organize.normalize_filename "Widget.jpg".
Proof. vm_compute. repeat split; try reflexivity. discriminate. Qed.

(** C5 (amended): let a file name split into a stem and an extension, and
    the stem into what precedes the version marker and the marker.  When
    what precedes the marker ends in a letter, whatever stands before that
    letter, the alpha-numeric key is the standard key of the name with the
    letter replaced by its 1-based position in the alphabet; when it ends
    neither in a letter nor in a letter and a final line feed, the
    alpha-numeric key is the standard key of the name. *)
Theorem alpha_numeric_key (name stem ext stem' vs : str) :
  OsPath.splitext name = (stem, ext) ->
  Organize.strip_version stem = (stem', vs) ->
  (forall p c,
     stem' = p ++ [c] -> Py.is_alpha c = true ->
     Organize.normalize_filename_with_alpha_numeric name
     = Organize.normalize_filename
         (p ++ Py.str_of_nat (NormalizeSpec.alpha_position c) ++ vs ++ ext))
  /\ (NormalizeSpec.ends_in_letter stem' = false ->
      Organize.normalize_filename_with_alpha_numeric name
      = Organize.normalize_filename name).
Proof.
  intros Hs Hv. split.
  - intros p c -> Hc.
    unfold Organize.normalize_filename_with_alpha_numeric,
      Organize.convert_alpha_to_numeric_suffix.
    rewrite Hs, Hv, (search_final_letter_last p c Hc).
    rewrite removelast_last, (alpha_position_ord c Hc), <- app_assoc.
    reflexivity.
  - intros He.
    unfold Organize.normalize_filename_with_alpha_numeric,
      Organize.convert_alpha_to_numeric_suffix.
    rewrite Hs, Hv, (search_final_letter_none stem' He).
    eapply convert_without_letter; eauto.
Qed.

(** The theorem at [Widget-B_v3.jpg], whose key is that of
    [Widget-2_v3.jpg], and at [Widget-7.jpg]. *)
Lemma alpha_numeric_key_witness :
  Organize.normalize_filename_with_alpha_numeric "Widget-B_v3.jpg"
  = Organize.normalize_filename "Widget-2_v3.jpg"
  /\ Organize.normalize_filename_with_alpha_numeric "Widget-7.jpg"
     = Organize.normalize_filename "Widget-7.jpg".
Proof.
  split.
  - apply (proj1 (alpha_numeric_key "Widget-B_v3.jpg" "Widget-B_v3" ".jpg"
                    "Widget-B" "_v3" eq_refl eq_refl) "Widget-" "B"%char);
      reflexivity.
  - apply (proj2 (alpha_numeric_key "Widget-7.jpg" "Widget-7" ".jpg"
                    "Widget-7" [] eq_refl eq_refl)).
    reflexivity.
Defined.

(** ** The file tree: what an operation leaves in place *)
Section FsFacts.
Import Py Fs FrameSpec.

Lemma dict_get_remove_other {V : Type} (d : list (str * V)) (k k0 : str) :
  k0 <> k -> dict_get str_eqb (dict_remove d k) k0 = dict_get str_eqb d k0.
Proof.
  intros N. unfold dict_remove.
  induction d as [|[k' v] d IH]; cbn [filter dict_get fst]; auto.
  destruct (str_eqb k k') eqn:E; cbn [negb].
  - apply str_eqb_eq in E. subst k'. apply str_eqb_neq in N. now rewrite N.
  - cbn [dict_get]. now rewrite IH.
Qed.

Lemma dict_get_remove_same {V : Type} (d : list (str * V)) (k : str) :
  dict_get str_eqb (dict_remove d k) k = None.
Proof.
  unfold dict_remove.
  induction d as [|[k' v] d IH]; cbn [filter dict_get fst]; auto.
  destruct (str_eqb k k') eqn:E; cbn [negb]; auto.
  cbn [dict_get]. now rewrite E.
Qed.

Lemma is_prefix_cons (c d : str) (q p : path) :
  is_prefix (c :: q) (d :: p) = false -> c <> d \/ (c = d /\ is_prefix q p = false).
Proof.
  cbn [is_prefix]. destruct (str_eqb c d) eqn:E.
  - apply str_eqb_eq in E. cbn. auto.
  - apply str_eqb_neq in E. auto.
Qed.

Lemma file_at_remove (fs : node) (q p : path) (i : nat) (m : Z) :
  file_at fs p i m -> is_prefix q p = false -> file_at (remove fs q) p i m.
Proof.
  unfold file_at. revert fs p.
  induction q as [|c q IH]; intros fs p H N; [discriminate|].
  destruct fs as [j mt|es]; [exact H|].
  destruct p as [|d p]; [discriminate|].
  cbn [remove lookup] in *.
  destruct (dict_get str_eqb es d) as [ch|] eqn:Ed; [|discriminate].
  destruct q as [|c' q'].
  - cbn [lookup]. destruct (is_prefix_cons _ _ _ _ N) as [Hn|[_ Hn]].
    + rewrite dict_get_remove_other by congruence. now rewrite Ed.
    + discriminate.
  - destruct (is_prefix_cons _ _ _ _ N) as [Hn|[-> Hn]].
    + destruct (dict_get str_eqb es c); cbn [lookup]; [|now rewrite Ed].
      rewrite dict_get_set_other by congruence. now rewrite Ed.
    + rewrite Ed. cbn [lookup]. rewrite dict_get_set_same. now apply IH.
Qed.

Lemma file_at_put (fs fs' : node) (q p : path) (x : node) (i : nat) (m : Z) :
  put fs q x = Some fs' ->
  file_at fs p i m -> is_prefix q p = false -> file_at fs' p i m.
Proof.
  unfold file_at. revert fs fs' p.
  induction q as [|c q IH]; intros fs fs' p Hp H N; [discriminate|].
  destruct fs as [j mt|es]; [discriminate|].
  destruct p as [|d p]; [discriminate|].
  cbn [put lookup] in *.
  destruct (dict_get str_eqb es d) as [ch|] eqn:Ed; [|discriminate].
  destruct q as [|c' q'].
  - inversion Hp; subst. cbn [lookup].
    destruct (is_prefix_cons _ _ _ _ N) as [Hn|[_ Hn]]; [|discriminate].
    rewrite dict_get_set_other by congruence. now rewrite Ed.
  - destruct (dict_get str_eqb es c) as [chc|] eqn:Ec; [|discriminate].
    destruct (put chc (c' :: q') x) as [chc'|] eqn:Epc; [|discriminate].
    inversion Hp; subst. cbn [lookup].
    destruct (is_prefix_cons _ _ _ _ N) as [Hn|[-> Hn]].
    + rewrite dict_get_set_other by congruence. now rewrite Ed.
    + rewrite dict_get_set_same. rewrite Ed in Ec. inversion Ec; subst.
      eapply IH; eauto.
Qed.

Lemma makedirs_keeps_files (fs fs' : node) (q : path) :
  makedirs fs q = Some fs' -> keeps_files fs fs'.
Proof.
  unfold keeps_files, file_at. revert fs fs'.
  induction q as [|c q IH]; intros fs fs' Hm p i m H.
  - destruct fs; cbn in Hm; [discriminate|]. now inversion Hm; subst.
  - destruct fs as [j mt|es]; [discriminate|].
    cbn [makedirs] in Hm.
    destruct (makedirs _ q) as [ch'|] eqn:Em; [|discriminate].
    inversion Hm; subst.
    destruct p as [|d p]; [discriminate|].
    cbn [lookup] in *.
    destruct (dict_get str_eqb es d) as [ch|] eqn:Ed; [|discriminate].
    destruct (str_eqb d c) eqn:E.
    + apply str_eqb_eq in E. subst d. rewrite dict_get_set_same.
      rewrite Ed in Em. eapply IH; eauto.
    + apply str_eqb_neq in E. rewrite dict_get_set_other by congruence.
      now rewrite Ed.
Qed.

Lemma is_prefix_app (q r p : path) :
  is_prefix q p = false -> is_prefix (q ++ r) p = false.
Proof.
  revert p. induction q as [|c q IH]; intros p; [discriminate|].
  destruct p as [|d p]; auto. cbn [app is_prefix].
  destruct (str_eqb c d); cbn; auto.
Qed.

Lemma move_keeps_file (fs fs' : node) (src dst p : path) (i : nat) (m : Z) :
  move fs src dst = Some fs' ->
  file_at fs p i m ->
  is_prefix src p = false -> is_prefix dst p = false ->
  file_at fs' p i m.
Proof.
  unfold move. intros Hm H Ns Nd.
  destruct (lookup fs src) as [x|]; [|discriminate].
  destruct (isdir fs dst && path_eqb src dst); [now inversion Hm; subst|].
  set (real_dst := if isdir fs dst then dst ++ [basename src] else dst) in *.
  assert (Nr : is_prefix real_dst p = false).
  { unfold real_dst. destruct (isdir fs dst); auto. now apply is_prefix_app. }
  destruct (isdir fs dst && exists_ fs real_dst); [discriminate|].
  destruct (path_eqb src real_dst); [now inversion Hm; subst|].
  destruct (is_prefix src real_dst); [discriminate|].
  destruct (is_dir x && exists_ fs real_dst); [discriminate|].
  eapply file_at_put; eauto. now apply file_at_remove.
Qed.






End FsFacts.

(** ** Pruning in [organize.py] *)
Section CleanUpFacts.
Import Py Fs FrameSpec Materialize.
Variable can_remove : path -> bool.

Lemma clean_up_from_dir (here : path) (es : list (str * node)) :
  clean_up_from can_remove here (Dir es) =
  Dir (filter (fun e => negb (pruned can_remove here e))
         (map (fun e => (fst e, clean_up_from can_remove (here ++ [fst e]) (snd e))) es)).
Proof. reflexivity. Qed.

Lemma dict_get_entry {V : Type} (d : list (str * V)) (k : str) (v : V) :
  dict_get str_eqb d k = Some v -> In (k, v) d.
Proof.
  induction d as [|[k' v'] d IH]; cbn [dict_get]; [discriminate|].
  destruct (str_eqb k k') eqn:E.
  - apply str_eqb_eq in E. intros H. inversion H; subst. now left.
  - intros H. right. auto.
Qed.

Lemma dict_get_filter_map {V : Type} (g : str -> V -> V) (f : str * V -> bool)
    (d : list (str * V)) (k : str) (v : V) :
  dict_get str_eqb d k = Some v -> f (k, g k v) = true ->
  dict_get str_eqb (filter f (map (fun e => (fst e, g (fst e) (snd e))) d)) k
  = Some (g k v).
Proof.
  intros H Hf. induction d as [|[k' v'] d IH]; cbn [dict_get] in H; [discriminate|].
  cbn [map filter fst snd].
  destruct (str_eqb k k') eqn:E.
  - apply str_eqb_eq in E. subst k'. inversion H; subst.
    rewrite Hf. cbn [dict_get]. now rewrite str_eqb_refl.
  - destruct (f (k', g k' v')); [cbn [dict_get]; rewrite E|]; auto.
Qed.

Lemma dict_get_filter_map_inv {V : Type} (g : str -> V -> V) (f : str * V -> bool)
    (d : list (str * V)) (k : str) (x : V) :
  dict_get str_eqb (filter f (map (fun e => (fst e, g (fst e) (snd e))) d)) k
  = Some x ->
  exists v, In (k, v) d /\ x = g k v /\ f (k, x) = true.
Proof.
  induction d as [|[k' v'] d IH]; cbn [map filter fst snd dict_get]; [discriminate|].
  destruct (f (k', g k' v')) eqn:Ef.
  - cbn [dict_get]. destruct (str_eqb k k') eqn:E.
    + apply str_eqb_eq in E. subst k'. intros H. inversion H; subst.
      exists v'. repeat split; auto. now left.
    + intros H. destruct (IH H) as [v [H1 H2]]. exists v. split; auto. now right.
  - intros H. destruct (IH H) as [v [H1 H2]]. exists v. split; auto. now right.
Qed.

Lemma only_old_images_no_file (n : node) (q : path) (i : nat) (m : Z) :
  only_old_images n = true -> lookup n q <> Some (File i m).
Proof.
  revert n. induction q as [|c q IH]; intros n H.
  - destruct n; [discriminate|]. cbn. discriminate.
  - destruct n as [j mt|es]; [discriminate|]. cbn [lookup].
    destruct (dict_get str_eqb es c) as [ch|] eqn:E; [|discriminate].
    apply dict_get_entry in E. cbn [only_old_images] in H.
    rewrite forallb_forall in H. specialize (H _ E). cbn [fst snd] in H.
    apply andb_true_iff in H. destruct H as [_ H]. now apply IH.
Qed.

(** The pass deletes no file. *)
Lemma clean_up_from_keeps_files (here : path) (n : node) :
  keeps_files n (clean_up_from can_remove here n).
Proof.
  unfold keeps_files, file_at. intros p. revert here n.
  induction p as [|c p IH]; intros here n i m H.
  - cbn in H. inversion H; subst. reflexivity.
  - destruct n as [j mt|es]; [discriminate|].
    rewrite clean_up_from_dir. cbn [lookup] in *.
    destruct (dict_get str_eqb es c) as [ch|] eqn:E; [|discriminate].
    rewrite (dict_get_filter_map
               (fun k v => clean_up_from can_remove (here ++ [k]) v)
               (fun e => negb (pruned can_remove here e)) es c ch E).
    + now apply IH.
    + apply negb_true_iff. unfold pruned. cbn [fst snd].
      destruct (only_old_images (clean_up_from can_remove (here ++ [c]) ch)) eqn:Eo.
      * exfalso. eapply only_old_images_no_file; [exact Eo|]. eapply IH; eauto.
      * now rewrite !andb_false_r.
Qed.

(** An empty directory that the pass leaves, outside every [Old Images], is
    one that could not be removed. *)
Lemma clean_up_from_survivor (p here : path) (n : node) :
  p <> [] ->
  forallb (fun c => negb (str_eqb c "Old Images")) p = true ->
  lookup (clean_up_from can_remove here n) p = Some (Dir []) ->
  can_remove (here ++ p) = false.
Proof.
  revert here n. induction p as [|c p IH]; intros here n N Hoi H; [congruence|].
  destruct n as [j mt|es]; [discriminate|].
  rewrite clean_up_from_dir in H. cbn [lookup] in H.
  cbn [forallb] in Hoi. apply andb_true_iff in Hoi. destruct Hoi as [Hc Hoi].
  destruct (dict_get str_eqb _ c) as [x|] eqn:E; [|discriminate].
  apply dict_get_filter_map_inv
    with (g := fun k v => clean_up_from can_remove (here ++ [k]) v) in E.
  destruct E as [ch [Hin [Hx Hf]]].
  destruct p as [|d p].
  - cbn [lookup] in H. injection H as Hd. rewrite Hd in Hf.
    unfold pruned in Hf. cbn [fst snd is_dir only_old_images forallb] in Hf.
    rewrite Hc in Hf. cbn in Hf. now apply negb_true_iff in Hf.
  - subst x. replace (here ++ c :: d :: p) with ((here ++ [c]) ++ d :: p)
      by (now rewrite <- app_assoc).
    eapply IH; eauto. discriminate.
Qed.

(** Induction on a tree, with the property at hand for every entry of a
    directory *)
Lemma node_entries_ind (P : node -> Prop) :
  (forall i m, P (File i m)) ->
  (forall es, Forall (fun e => P (snd e)) es -> P (Dir es)) ->
  forall n, P n.
Proof.
  intros HF HD. fix IH 1. intros [i m|es]; [apply HF|]. apply HD.
  induction es as [|[k ch] es IHes]; constructor; [apply IH | exact IHes].
Qed.

(** A second pass finds nothing to remove: what the first one has kept, it
    has tested after the walk of its sub-directories. *)
Lemma clean_up_from_idempotent (n : node) (here : path) :
  clean_up_from can_remove here (clean_up_from can_remove here n)
  = clean_up_from can_remove here n.
Proof.
  revert here. induction n as [i m|es IH] using node_entries_ind; intros here;
    [reflexivity|].
  rewrite !clean_up_from_dir. f_equal.
  induction es as [|[k ch] es IHes]; [reflexivity|].
  inversion IH as [|? ? Hch Hes]; subst. cbn [snd] in Hch.
  cbn [map fst snd]. cbn [filter].
  destruct (negb (pruned can_remove here
                    (k, clean_up_from can_remove (here ++ [k]) ch))) eqn:E.
  - cbn [map fst snd filter]. rewrite Hch, E. f_equal. now apply IHes.
  - now apply IHes.
Qed.

End CleanUpFacts.

(** ** Removal of directories that hold no file *)
Section RemovalFacts.
Import Py Fs FrameSpec.

Lemma lookup_app (fs : node) (p r : path) :
  lookup fs (p ++ r) =
  match lookup fs p with Some n => lookup n r | None => None end.
Proof.
  revert fs. induction p as [|c p IH]; intros fs; [reflexivity|].
  cbn [app lookup]. destruct fs as [j mt|es]; [reflexivity|].
  destruct (dict_get str_eqb es c); auto.
Qed.

Lemma is_prefix_inv (p q : path) :
  is_prefix p q = true -> exists r, q = p ++ r.
Proof.
  revert q. induction p as [|c p IH]; intros q H; [now exists q|].
  destruct q as [|d q]; [discriminate|]. cbn [is_prefix] in H.
  apply andb_true_iff in H. destruct H as [H1 H2]. apply str_eqb_eq in H1.
  subst d. destruct (IH q H2) as [r ->]. now exists r.
Qed.

Lemma is_prefix_self_app (p r : path) : is_prefix p (p ++ r) = true.
Proof.
  induction p as [|c p IH]; [reflexivity|]. cbn [app is_prefix].
  now rewrite str_eqb_refl.
Qed.

Lemma file_at_prefix_isdir (fs : node) (p q : path) (i : nat) (m : Z) :
  file_at fs (p ++ q) i m -> q <> [] -> isdir fs p = true.
Proof.
  unfold file_at, isdir. rewrite lookup_app.
  destruct (lookup fs p) as [[j mt|es]|]; try discriminate; auto.
  destruct q; [congruence | discriminate].
Qed.

(** Removal brings no file to a path where there was none. *)
Lemma remove_no_new_file (fs : node) (q p : path) (i : nat) (m : Z) :
  file_at (remove fs q) p i m -> file_at fs p i m.
Proof.
  unfold file_at. revert fs p.
  induction q as [|c q IH]; intros fs p H; [exact H|].
  destruct fs as [j mt|es]; [exact H|].
  cbn [remove] in H.
  destruct p as [|d p].
  { cbn [lookup] in H. destruct q; [discriminate|].
    destruct (dict_get str_eqb es c); discriminate. }
  destruct q as [|c' q'].
  - cbn [lookup] in *. destruct (str_eqb d c) eqn:E.
    + apply str_eqb_eq in E. subst d. now rewrite dict_get_remove_same in H.
    + apply str_eqb_neq in E. now rewrite dict_get_remove_other in H by congruence.
  - destruct (dict_get str_eqb es c) as [chc|] eqn:Ec; [|exact H].
    cbn [lookup] in *. destruct (str_eqb d c) eqn:E.
    + apply str_eqb_eq in E. subst d. rewrite dict_get_set_same in H. rewrite Ec.
      now apply IH.
    + apply str_eqb_neq in E. now rewrite dict_get_set_other in H by congruence.
Qed.

Lemma remove_keeps_files (fs : node) (q : path) :
  ~ holds_file fs q -> keeps_files fs (remove fs q).
Proof.
  intros N p i m H. apply file_at_remove; auto.
  destruct (is_prefix q p) eqn:E; auto.
  apply is_prefix_inv in E. destruct E as [r ->].
  exfalso. apply N. now exists r, i, m.
Qed.

Lemma remove_holds_file (fs : node) (q p : path) :
  ~ holds_file fs p -> ~ holds_file (remove fs q) p.
Proof.
  intros N [r [i [m H]]]. apply N. exists r, i, m.
  eapply remove_no_new_file; eauto.
Qed.

Lemma empty_dir_holds_no_file (fs : node) (p : path) :
  lookup fs p = Some (Dir []) -> ~ holds_file fs p.
Proof.
  intros H [r [i [m Hf]]]. unfold file_at in Hf.
  rewrite lookup_app, H in Hf. destruct r; discriminate.
Qed.

Lemma keeps_files_refl (fs : node) : keeps_files fs fs.
Proof. intros p i m H. exact H. Qed.

Lemma keeps_files_trans (a b c : node) :
  keeps_files a b -> keeps_files b c -> keeps_files a c.
Proof. intros H1 H2 p i m H. apply H2; auto. Qed.

End RemovalFacts.

(** ** Pruning in [split.py] *)
Section AggressiveFacts.
Import Py Fs FrameSpec Split.
Variable can_remove : path -> bool.

Lemma force_remove_keeps_files (fs : node) (p : path) :
  ~ holds_file fs p ->
  keeps_files fs (fst (force_remove_directory can_remove fs p))
  /\ forall q, ~ holds_file fs q ->
               ~ holds_file (fst (force_remove_directory can_remove fs p)) q.
Proof.
  intros N. unfold force_remove_directory.
  destruct (lookup fs p) as [[j mt|es]|]; cbn [fst];
    try (split; [apply keeps_files_refl | auto]).
  destruct (can_remove p); cbn [fst].
  - split; [now apply remove_keeps_files | intros q; apply remove_holds_file].
  - split; [apply keeps_files_refl | auto].
Qed.

Lemma pass_step_keeps_files (acc : node * nat) (p : path) :
  keeps_files (fst acc) (fst (pass_step can_remove acc p)).
Proof.
  destruct acc as [fs k]. unfold pass_step. cbn [fst].
  destruct (is_kept_folder p || negb (exists_ fs p)); [apply keeps_files_refl|].
  destruct (is_directory_truly_empty fs p) eqn:E; [|apply keeps_files_refl].
  assert (N : ~ holds_file fs p).
  { apply empty_dir_holds_no_file. unfold is_directory_truly_empty in E.
    destruct (lookup fs p) as [[j mt|[|e es]]|]; try discriminate. reflexivity. }
  pose proof (proj1 (force_remove_keeps_files fs p N)) as H.
  destruct (force_remove_directory can_remove fs p) as [fs' ok]. cbn [fst] in H.
  destruct ok; [exact H | apply keeps_files_refl].
Qed.

Lemma fold_pass_step_keeps_files (l : list path) (acc : node * nat) :
  keeps_files (fst acc) (fst (fold_left (pass_step can_remove) l acc)).
Proof.
  revert acc. induction l as [|p l IH]; intros acc; cbn [fold_left].
  - apply keeps_files_refl.
  - eapply keeps_files_trans; [apply pass_step_keeps_files | apply IH].
Qed.

Lemma aggressive_passes_keep_files (n : nat) (fs : node) (k : nat) :
  keeps_files fs (fst (aggressive_passes can_remove n fs k)).
Proof.
  revert fs k. induction n as [|n IH]; intros fs k; cbn [aggressive_passes].
  - apply keeps_files_refl.
  - pose proof (fold_pass_step_keeps_files
                  (sorted (fun a b : path => List.length b <=? List.length a)
                          (walk_dirs_bottom_up [] fs)) (fs, 0)) as H.
    fold (aggressive_pass can_remove fs) in H.
    destruct (aggressive_pass can_remove fs) as [fs' c]. cbn [fst] in H.
    destruct (c =? 0); cbn [fst]; auto.
    eapply keeps_files_trans; [exact H | apply IH].
Qed.

Lemma fold_final_step_keeps_files (l : list path) (fs : node) (k : nat) :
  (forall p, In p l -> ~ holds_file fs p) ->
  keeps_files fs (fst (fold_left (final_step can_remove) l (fs, k))).
Proof.
  revert fs k. induction l as [|p l IH]; intros fs k Hl; cbn [fold_left].
  - apply keeps_files_refl.
  - assert (N : ~ holds_file fs p) by (apply Hl; now left).
    destruct (force_remove_keeps_files fs p N) as [H1 H2].
    unfold final_step at 2.
    destruct (force_remove_directory can_remove fs p) as [fs' ok].
    cbn [fst] in H1, H2. destruct ok.
    + eapply keeps_files_trans; [exact H1|]. apply IH.
      intros q Hq. apply H2, Hl. now right.
    + apply IH. intros q Hq. apply Hl. now right.
Qed.

Lemma remove_empty_dirs_aggressive_keeps_files (fs : node) :
  keeps_files fs (fst (remove_empty_dirs_aggressive can_remove fs)).
Proof.
  unfold remove_empty_dirs_aggressive.
  pose proof (aggressive_passes_keep_files 10 fs 0) as H.
  destruct (aggressive_passes can_remove 10 fs 0) as [fs1 removed].
  cbn [fst] in H.
  match goal with
  | |- context [fold_left (final_step can_remove) ?l (fs1, 0)] =>
      pose proof (fold_final_step_keeps_files l fs1 0) as H2
  end.
  destruct (fold_left _ _ (fs1, 0)) as [fs2 fr]. cbn [fst] in *.
  eapply keeps_files_trans; [exact H|]. apply H2.
  intros p Hp. apply filter_In in Hp. destruct Hp as [_ Hp].
  apply andb_true_iff in Hp. destruct Hp as [_ Hp].
  apply empty_dir_holds_no_file. unfold is_directory_truly_empty in Hp.
  destruct (lookup fs1 p) as [[j mt|[|e es]]|]; try discriminate. reflexivity.
Qed.

End AggressiveFacts.

(** C8 (as stated, refuted): a folder that holds nothing but an empty
    [Old Images] directory is removed with it by the pass of [organize.py];
    the pruning of [split.py] removes an empty [Old Images] directory like
    any other. *)
Lemma pruning_removes_empty_old_images :
  let fs := Fs.Dir [(lit "A", Fs.Dir [(lit "Old Images", Fs.Dir [])])] in
  Fs.isdir fs [lit "A"; lit "Old Images"] = true
  /\ Fs.exists_ (Materialize.clean_up_empty_product_folders (fun _ => true) fs)
       [lit "A"; lit "Old Images"] = false
  /\ Fs.exists_ (fst (Split.remove_empty_dirs_aggressive (fun _ => true) fs))
       [lit "A"; lit "Old Images"] = false.
Proof. vm_compute. repeat split; reflexivity. Qed.

(** C8 (amended): neither pruning routine deletes a file, whether its
    removals succeed or fail; so every file beneath an [Old Images]
    directory stays at its path, and every directory on the path to a file
    stays a directory. *)
Theorem pruning_keeps_files (can_remove : Fs.path -> bool) (fs : Fs.node) :
  let fs1 := Materialize.clean_up_empty_product_folders can_remove fs in
  let fs2 := fst (Split.remove_empty_dirs_aggressive can_remove fs) in
  FrameSpec.keeps_files fs fs1
  /\ FrameSpec.keeps_files fs fs2
  /\ (forall p q i m,
        q <> [] -> FrameSpec.file_at fs (p ++ q) i m ->
        Fs.isdir fs1 p = true /\ Fs.isdir fs2 p = true).
Proof.
  cbv zeta.
  assert (H1 : FrameSpec.keeps_files fs
                 (Materialize.clean_up_empty_product_folders can_remove fs))
    by apply clean_up_from_keeps_files.
  assert (H2 : FrameSpec.keeps_files fs
                 (fst (Split.remove_empty_dirs_aggressive can_remove fs)))
    by apply remove_empty_dirs_aggressive_keeps_files.
  split; [exact H1|]. split; [exact H2|].
  intros p q i m Nq H. split.
  - eapply file_at_prefix_isdir; [apply H1; exact H | exact Nq].
  - eapply file_at_prefix_isdir; [apply H2; exact H | exact Nq].
Qed.

(** The theorem at a tree with a file in an [Old Images] directory. *)
Lemma pruning_keeps_files_witness :
  let fs := Fs.Dir [(lit "A", Fs.Dir [(lit "Old Images",
                      Fs.Dir [(lit "WEBP", Fs.Dir [(lit "a_replaced_1.webp", Fs.File 1 0)]);
                              (lit "JPEG", Fs.Dir [])])])] in
  Fs.isdir (Materialize.clean_up_empty_product_folders (fun _ => true) fs)
           [lit "A"; lit "Old Images"] = true
  /\ Fs.isdir (fst (Split.remove_empty_dirs_aggressive (fun _ => true) fs))
              [lit "A"; lit "Old Images"] = true.
Proof.
  cbv zeta.
  apply (proj2 (proj2 (pruning_keeps_files (fun _ => true) _))
           [lit "A"; lit "Old Images"] [lit "WEBP"; lit "a_replaced_1.webp"] 1 0%Z).
  - discriminate.
  - reflexivity.
Defined.

(** C7 (as stated, refuted): the folder [A] is empty and cannot be removed;
    it is still there after the run, which returns [True]. *)
Lemma organize_reports_success_with_empty_folder :
  let fs := Fs.Dir [(lit "A", Fs.Dir [])] in
  Materialize.organize_webp_files (fun _ => []) (fun _ => false) (Some fs)
  = (Some fs, Materialize.Normal, Some true)
  /\ Fs.lookup fs [lit "A"] = Some (Fs.Dir []).
Proof. vm_compute. split; reflexivity. Qed.

(** C7 (amended): a run on an existing folder never returns [False]; when
    it completes it returns [True], and an empty directory that is then
    left below the folder, outside every directory named [Old Images], is
    one whose removal failed; when no removal fails, the single pass leaves
    no such directory.  The single pass reaches the fixed point: a second
    one would change nothing. *)
Theorem organize_leaves_no_empty_folder
    (clock : nat -> str) (can_remove : Fs.path -> bool)
    (fs t : Fs.node) (s : Materialize.status) (r : option bool) :
  Materialize.organize_webp_files clock can_remove (Some fs) = (Some t, s, r) ->
  r <> Some false
  /\ (s = Materialize.Normal ->
      r = Some true
      /\ Materialize.clean_up_empty_product_folders can_remove t = t
      /\ (forall p,
            p <> [] ->
            forallb (fun c => negb (Py.str_eqb c "Old Images")) p = true ->
            Fs.lookup t p = Some (Fs.Dir []) -> can_remove p = false)
      /\ ((forall p, can_remove p = true) ->
          forall p,
            p <> [] ->
            forallb (fun c => negb (Py.str_eqb c "Old Images")) p = true ->
            Fs.lookup t p <> Some (Fs.Dir []))).
Proof.
  unfold Materialize.organize_webp_files.
  set (st := Materialize.organize_webp_folder_only clock _).
  assert (Hs : forall p,
             p <> [] ->
             forallb (fun c => negb (Py.str_eqb c "Old Images")) p = true ->
             Fs.lookup (Materialize.clean_up_empty_product_folders can_remove
                          (Materialize.tree st)) p = Some (Fs.Dir []) ->
             can_remove p = false).
  { intros p Np Hp H.
    apply (clean_up_from_survivor can_remove p [] (Materialize.tree st) Np Hp H). }
  destruct (Materialize.stat st) eqn:E; intros H; inversion H; subst.
  - split; [discriminate|]. intros _. split; [reflexivity|].
    split; [apply clean_up_from_idempotent|]. split; [exact Hs|].
    intros Hall p Np Hp Hl. specialize (Hs p Np Hp Hl). rewrite Hall in Hs.
    discriminate.
  - split; [discriminate|]. discriminate.
  - split; [discriminate|]. discriminate.
Qed.

(** The theorem at a tree with two empty folders. *)
Lemma organize_leaves_no_empty_folder_witness :
  Fs.lookup (Fs.Dir [(lit "Old Images", Fs.Dir [])]) [lit "A"] <> Some (Fs.Dir []).
Proof.
  refine (proj2 (proj2 (proj2 (proj2 (organize_leaves_no_empty_folder
            (fun _ => []) (fun _ => true)
            (Fs.Dir [(lit "A", Fs.Dir [(lit "B", Fs.Dir [])]);
                     (lit "Old Images", Fs.Dir [])])
            (Fs.Dir [(lit "Old Images", Fs.Dir [])])
            Materialize.Normal (Some true) _) eq_refl)))
            (fun _ => eq_refl) [lit "A"] _ _).
  - vm_compute. reflexivity.
  - discriminate.
  - reflexivity.
Defined.

(** ** The collision resolver *)
Section ResolverFacts.
Import Py OsPath Fs FrameSpec Materialize.

Lemma lookup_remove_same (fs : node) (p : path) :
  p <> [] -> lookup (remove fs p) p = None.
Proof.
  revert fs. induction p as [|c p IH]; intros fs N; [congruence|].
  destruct fs as [j mt|es]; [reflexivity|].
  cbn [remove]. destruct p as [|c' p'].
  - cbn [lookup]. now rewrite dict_get_remove_same.
  - destruct (dict_get str_eqb es c) as [ch|] eqn:E.
    + cbn [lookup]. rewrite dict_get_set_same. apply IH. discriminate.
    + cbn [lookup]. now rewrite E.
Qed.

Lemma isdir_remove (fs : node) (src q : path) :
  isdir fs q = true -> is_prefix src q = false -> isdir (remove fs src) q = true.
Proof.
  unfold isdir. revert fs q.
  induction src as [|c s IH]; intros fs q H N; [discriminate|].
  destruct fs as [j mt|es]; [exact H|].
  cbn [remove]. destruct q as [|d q].
  - destruct s; [reflexivity|]. destruct (dict_get str_eqb es c); reflexivity.
  - cbn [lookup] in H.
    destruct (dict_get str_eqb es d) as [ch|] eqn:Ed; [|discriminate].
    destruct (is_prefix_cons _ _ _ _ N) as [Hn|[-> Hn]].
    + destruct s.
      * cbn [lookup]. rewrite dict_get_remove_other by congruence. now rewrite Ed.
      * destruct (dict_get str_eqb es c); cbn [lookup].
        -- rewrite dict_get_set_other by congruence. now rewrite Ed.
        -- now rewrite Ed.
    + destruct s; [discriminate|]. rewrite Ed. cbn [lookup].
      rewrite dict_get_set_same. now apply IH.
Qed.

Lemma put_cons (es : list (str * node)) (c : str) (p : path) (x : node) :
  p <> [] ->
  put (Dir es) (c :: p) x =
  match dict_get str_eqb es c with
  | Some ch =>
      match put ch p x with
      | Some ch' => Some (Dir (dict_set str_eqb es c ch'))
      | None => None
      end
  | None => None
  end.
Proof. destruct p; [congruence | reflexivity]. Qed.

Lemma put_into_dir (t : node) (q : path) (c : str) (x : node) :
  isdir t q = true ->
  exists t', put t (q ++ [c]) x = Some t' /\ lookup t' (q ++ [c]) = Some x.
Proof.
  unfold isdir. revert t. induction q as [|d q IH]; intros t H.
  - cbn [lookup] in H. destruct t as [j mt|es]; [discriminate|].
    cbn [app put]. eexists. split; [reflexivity|].
    cbn [lookup]. now rewrite dict_get_set_same.
  - destruct t as [j mt|es]; [discriminate|]. cbn [lookup] in H.
    destruct (dict_get str_eqb es d) as [ch|] eqn:Ed; [|discriminate].
    destruct (IH ch H) as [ch' [Hp Hl]].
    cbn [app]. rewrite put_cons by (destruct q; discriminate).
    rewrite Ed, Hp.
    eexists. split; [reflexivity|].
    cbn [lookup]. rewrite dict_get_set_same. exact Hl.
Qed.

Lemma put_keeps_none (t t' : node) (q p : path) (x : node) :
  put t q x = Some t' -> lookup t p = None -> is_prefix q p = false ->
  lookup t' p = None.
Proof.
  revert t t' p. induction q as [|c q IH]; intros t t' p Hp H N; [discriminate|].
  destruct t as [j mt|es]; [discriminate|].
  destruct p as [|d p]; [discriminate|].
  cbn [put] in Hp. cbn [lookup] in H.
  destruct q as [|c' q'].
  - inversion Hp; subst. cbn [lookup].
    destruct (is_prefix_cons _ _ _ _ N) as [Hn|[_ Hn]]; [|discriminate].
    now rewrite dict_get_set_other by congruence.
  - destruct (dict_get str_eqb es c) as [chc|] eqn:Ec; [|discriminate].
    destruct (put chc (c' :: q') x) as [chc'|] eqn:Epc; [|discriminate].
    inversion Hp; subst. cbn [lookup].
    destruct (is_prefix_cons _ _ _ _ N) as [Hn|[-> Hn]].
    + now rewrite dict_get_set_other by congruence.
    + rewrite dict_get_set_same. rewrite Ec in H. eapply IH; eauto.
Qed.

Lemma makedirs_isdir (fs fs' : node) (q : path) :
  makedirs fs q = Some fs' -> isdir fs' q = true.
Proof.
  unfold isdir. revert fs fs'. induction q as [|c q IH]; intros fs fs' H.
  - destruct fs; cbn in H; [discriminate|]. now inversion H; subst.
  - destruct fs as [j mt|es]; [discriminate|]. cbn [makedirs] in H.
    destruct (makedirs _ q) as [ch'|] eqn:Em; [|discriminate].
    inversion H; subst. cbn [lookup]. rewrite dict_get_set_same. eauto.
Qed.

(** A file that is moved to a free name of a directory is there afterwards,
    and no longer where it was. *)
Lemma move_file_into_dir (fs : node) (src q : path) (c : str) (i : nat) (m : Z) :
  file_at fs src i m -> isdir fs q = true -> lookup fs (q ++ [c]) = None ->
  exists fs', move fs src (q ++ [c]) = Some fs'
              /\ file_at fs' (q ++ [c]) i m /\ lookup fs' src = None.
Proof.
  unfold file_at. intros Hs Hq Hn.
  assert (Nsrc : src <> []).
  { intros ->. cbn in Hs. inversion Hs; subst.
    unfold isdir in Hq. destruct q; discriminate Hq. }
  assert (Np : is_prefix src (q ++ [c]) = false).
  { destruct (is_prefix src (q ++ [c])) eqn:E; auto.
    apply is_prefix_inv in E. destruct E as [r E].
    rewrite E, lookup_app, Hs in Hn. destruct r as [|a r]; [discriminate|].
    exfalso. destruct (exists_last (l:=a :: r)) as [r' [z Er]]; [discriminate|].
    rewrite Er, app_assoc in E. apply app_inj_tail in E. destruct E as [-> _].
    unfold isdir in Hq. rewrite lookup_app, Hs in Hq. destruct r'; discriminate. }
  assert (Nq : is_prefix src q = false).
  { destruct (is_prefix src q) eqn:E; auto.
    apply is_prefix_inv in E. destruct E as [r ->].
    rewrite <- app_assoc, is_prefix_self_app in Np. discriminate. }
  assert (Np' : is_prefix (q ++ [c]) src = false).
  { destruct (is_prefix (q ++ [c]) src) eqn:E; auto.
    apply is_prefix_inv in E. destruct E as [r ->].
    rewrite lookup_app, Hn in Hs. discriminate. }
  unfold move. rewrite Hs.
  assert (Ed : isdir fs (q ++ [c]) = false) by (unfold isdir; now rewrite Hn).
  rewrite Ed. cbn [andb].
  assert (Ee : path_eqb src (q ++ [c]) = false).
  { unfold path_eqb. destruct (list_eq_dec _ src (q ++ [c])) as [->|]; auto.
    rewrite Hn in Hs. discriminate. }
  rewrite Ee, Np. cbn [is_dir andb].
  destruct (put_into_dir (remove fs src) q c (File i m)) as [fs' [Hp Hl]].
  { now apply isdir_remove. }
  exists fs'. split; [exact Hp|]. split; [exact Hl|].
  eapply put_keeps_none; eauto. now apply lookup_remove_same.
Qed.


End ResolverFacts.



(** ** Dots in names and keys *)
Section DotFacts.
Import Py Re OsPath Organize Fs FrameSpec Materialize.
















End DotFacts.

(** ** What a run leaves in place *)
Section RunFacts.
Import Py Re OsPath Organize Fs FrameSpec Materialize.
Variable clock : nat -> str.






(** *** The steps of the run *)

















End RunFacts.




(** ** The version chain of [split.py] *)
Section SortedOrder.
Import Py.
Context {A : Type} (leb : A -> A -> bool).
Hypothesis leb_total : forall a b, leb a b = true \/ leb b a = true.
Hypothesis leb_trans : forall a b c, leb a b = true -> leb b c = true -> leb a c = true.

Lemma insert_sorted_strongly (x : A) (l : list A) :
  StronglySorted (fun a b => leb a b = true) l ->
  StronglySorted (fun a b => leb a b = true) (insert_sorted leb x l).
Proof.
  induction l as [|y l IH]; intros H; cbn [insert_sorted].
  - repeat constructor.
  - inversion H as [|? ? Hs Hf]; subst. destruct (leb x y) eqn:E.
    + constructor; auto. constructor; auto.
      eapply Forall_impl; [|exact Hf]. intros z Hz. eapply leb_trans; eauto.
    + constructor; auto. apply Forall_forall. intros z Hz.
      apply insert_sorted_in in Hz. destruct Hz as [->|Hz].
      * destruct (leb_total x y); congruence.
      * rewrite Forall_forall in Hf. auto.
Qed.

Lemma sorted_strongly (l : list A) :
  StronglySorted (fun a b => leb a b = true) (sorted leb l).
Proof.
  induction l as [|x l IH]; cbn [sorted fold_right]; [constructor|].
  now apply insert_sorted_strongly.
Qed.

End SortedOrder.

Section VersionChainFacts.
Import Py Re Fs Split.
Variable dir_mtime : path -> Z.

Lemma path_eqb_eq (p q : path) : path_eqb p q = true <-> p = q.
Proof.
  unfold path_eqb. destruct (list_eq_dec _ p q); split; congruence.
Qed.






End VersionChainFacts.

(** ** Renaming the members of a chain *)
Section RenameFacts.
Import Py Fs FrameSpec Split.

Lemma remove_keeps_none (fs : node) (q p : path) :
  lookup fs p = None -> lookup (remove fs q) p = None.
Proof.
  revert fs p. induction q as [|c q IH]; intros fs p H; [exact H|].
  destruct fs as [j mt|es]; [exact H|].
  destruct p as [|d p]; [discriminate|].
  cbn [remove]. destruct q as [|c' q'].
  - cbn [lookup] in *. destruct (str_eqb d c) eqn:E.
    + apply str_eqb_eq in E. subst d. now rewrite dict_get_remove_same.
    + apply str_eqb_neq in E. now rewrite dict_get_remove_other by congruence.
  - destruct (dict_get str_eqb es c) as [chc|] eqn:Ec; [|exact H].
    cbn [lookup] in *. destruct (str_eqb d c) eqn:E.
    + apply str_eqb_eq in E. subst d. rewrite dict_get_set_same.
      rewrite Ec in H. now apply IH.
    + apply str_eqb_neq in E. now rewrite dict_get_set_other by congruence.
Qed.

Lemma put_keeps_isdir (t t' : node) (q p : path) (x : node) :
  put t q x = Some t' -> isdir t p = true -> is_prefix q p = false ->
  isdir t' p = true.
Proof.
  unfold isdir. revert t t' p.
  induction q as [|c q IH]; intros t t' p Hp H N; [discriminate|].
  destruct t as [j mt|es]; [discriminate|].
  destruct p as [|d p].
  { destruct q as [|c' q'].
    - cbn [put] in Hp. inversion Hp; subst. reflexivity.
    - rewrite put_cons in Hp by discriminate.
      destruct (dict_get str_eqb es c); [|discriminate].
      destruct (put n (c' :: q') x); [|discriminate].
      inversion Hp; subst. reflexivity. }
  cbn [lookup] in H.
  destruct (dict_get str_eqb es d) as [ch|] eqn:Ed; [|discriminate].
  destruct q as [|c' q'].
  - cbn [put] in Hp. inversion Hp; subst. cbn [lookup].
    destruct (is_prefix_cons _ _ _ _ N) as [Hn|[_ Hn]]; [|discriminate].
    rewrite dict_get_set_other by congruence. now rewrite Ed.
  - rewrite put_cons in Hp by discriminate.
    destruct (dict_get str_eqb es c) as [chc|] eqn:Ec; [|discriminate].
    destruct (put chc (c' :: q') x) as [chc'|] eqn:Epc; [|discriminate].
    inversion Hp; subst. cbn [lookup].
    destruct (is_prefix_cons _ _ _ _ N) as [Hn|[-> Hn]].
    + rewrite dict_get_set_other by congruence. now rewrite Ed.
    + rewrite dict_get_set_same. rewrite Ed in Ec. inversion Ec; subst.
      eapply IH; eauto.
Qed.

(** A file is no proper prefix of a path that is there. *)
Lemma file_not_prefix (fs : node) (a b : path) (i : nat) (m : Z) :
  file_at fs a i m -> lookup fs b <> None -> a <> b -> is_prefix a b = false.
Proof.
  unfold file_at. intros Ha Hb N.
  destruct (is_prefix a b) eqn:E; auto. exfalso.
  apply is_prefix_inv in E. destruct E as [r ->].
  rewrite lookup_app, Ha in Hb. destruct r; [|now apply Hb].
  apply N. now rewrite app_nil_r.
Qed.

(** A path that is not there is no prefix of one that is. *)
Lemma absent_not_prefix (fs : node) (q p : path) :
  lookup fs q = None -> lookup fs p <> None -> is_prefix q p = false.
Proof.
  intros Hq Hp. destruct (is_prefix q p) eqn:E; auto. exfalso.
  apply is_prefix_inv in E. destruct E as [r ->].
  rewrite lookup_app, Hq in Hp. now apply Hp.
Qed.

Lemma last_neq_not_prefix (q : path) (c d : str) :
  c <> d -> is_prefix (q ++ [c]) (q ++ [d]) = false.
Proof.
  intros N. induction q as [|x q IH]; cbn [app is_prefix].
  - apply str_eqb_neq in N. now rewrite N.
  - now rewrite str_eqb_refl.
Qed.

(** What the move of a file to a free name of a directory leaves as it
    was *)
Lemma move_file_into_dir_frame (fs fs' : node) (src q : path) (c : str)
    (i : nat) (m : Z) :
  file_at fs src i m -> isdir fs q = true -> lookup fs (q ++ [c]) = None ->
  move fs src (q ++ [c]) = Some fs' ->
  isdir fs' q = true
  /\ (forall p j mt, file_at fs p j mt -> p <> src -> file_at fs' p j mt)
  /\ (forall p, lookup fs p = None -> is_prefix (q ++ [c]) p = false ->
                lookup fs' p = None).
Proof.
  intros Hs Hq Hn Hm.
  assert (Hsq : src <> q).
  { intros ->. unfold file_at in Hs. unfold isdir in Hq. rewrite Hs in Hq.
    discriminate. }
  assert (Nq : is_prefix src q = false).
  { eapply file_not_prefix; eauto. unfold isdir in Hq.
    destruct (lookup fs q); [discriminate | discriminate]. }
  assert (Hm' := Hm). unfold move in Hm'. rewrite Hs in Hm'.
  assert (Ed : isdir fs (q ++ [c]) = false) by (unfold isdir; now rewrite Hn).
  rewrite Ed in Hm'. cbn [andb] in Hm'.
  assert (Ee : path_eqb src (q ++ [c]) = false).
  { unfold path_eqb. destruct (list_eq_dec _ src (q ++ [c])) as [->|]; auto.
    unfold file_at in Hs. rewrite Hn in Hs. discriminate. }
  rewrite Ee in Hm'.
  destruct (is_prefix src (q ++ [c])) eqn:Ep; [discriminate|].
  cbn [is_dir andb] in Hm'.
  split; [|split].
  - eapply put_keeps_isdir; [exact Hm' | now apply isdir_remove |].
    destruct (is_prefix (q ++ [c]) q) eqn:E; auto.
    apply is_prefix_inv in E. destruct E as [r E].
    apply (f_equal (@List.length str)) in E.
    rewrite !length_app in E. cbn in E. lia.
  - intros p j mt Hp Np. eapply move_keeps_file; eauto.
    + eapply file_not_prefix; eauto. unfold file_at in Hp. now rewrite Hp.
    + eapply absent_not_prefix; eauto. unfold file_at in Hp. now rewrite Hp.
  - intros p Hp Npre. eapply put_keeps_none; eauto. now apply remove_keeps_none.
Qed.

(** A chain of files with fresh, distinct names in a folder is renamed as
    asked, and every other file stays. *)
Lemma fold_rename_step_fresh (webp : path) (chain : list (path * str)) (fs : node) :
  isdir fs webp = true ->
  NoDup (map fst chain) -> NoDup (map snd chain) ->
  (forall e, In e chain -> exists i m, file_at fs (fst e) i m) ->
  (forall e, In e chain -> lookup fs (webp ++ [snd e]) = None) ->
  exists fs',
    fold_left rename_step (map (fun e => (fst e, webp ++ [snd e])) chain) (fs, true)
    = (fs', true)
    /\ (forall e i m, In e chain -> file_at fs (fst e) i m ->
                      file_at fs' (webp ++ [snd e]) i m)
    /\ (forall p i m, file_at fs p i m -> ~ In p (map fst chain) ->
                      file_at fs' p i m).
Proof.
  revert fs. induction chain as [|[a na] chain IH]; intros fs Hd N1 N2 Hf Hn.
  - exists fs. cbn. repeat split; auto. intros e i m [].
  - cbn [map fst snd fold_left] in *.
    inversion N1 as [|? ? Na N1']; subst. inversion N2 as [|? ? Nn N2']; subst.
    destruct (Hf (a, na)) as [i [m Ha]]; [now left|]. cbn [fst] in Ha.
    assert (Hna : lookup fs (webp ++ [na]) = None) by (apply (Hn (a, na)); now left).
    destruct (move_file_into_dir fs a webp na i m Ha Hd Hna) as [fs1 [Hm [H1 H2]]].
    destruct (move_file_into_dir_frame fs fs1 a webp na i m Ha Hd Hna Hm)
      as [Hd1 [Hk Hnone]].
    unfold rename_step at 2. cbn [negb].
    assert (Hex : exists_ fs a = true).
    { unfold exists_. unfold file_at in Ha. now rewrite Ha. }
    rewrite Hex, Hm.
    destruct (IH fs1) as [fs' [Hfold [Hplaced Hframe]]]; auto.
    + intros e He. destruct (Hf e) as [j [mt Hj]]; [now right|].
      exists j, mt. apply Hk; auto. intros C. apply Na. rewrite <- C.
      now apply in_map.
    + intros e He. apply Hnone; [apply Hn; now right|].
      apply last_neq_not_prefix. intros C. apply Nn. rewrite C. now apply in_map.
    + exists fs'. split; [exact Hfold|]. split.
      * intros e j mt [<-|He] Hj.
        -- cbn [fst snd] in *. unfold file_at in Ha, Hj. rewrite Ha in Hj.
           inversion Hj; subst. apply Hframe; auto.
           intros C. apply in_map_iff in C. destruct C as [e' [E He']].
           destruct (Hf e') as [j' [mt' Hj']]; [now right|].
           unfold file_at in Hj'. rewrite E, Hna in Hj'. discriminate.
        -- apply Hplaced; auto. apply Hk; auto. intros C. apply Na. rewrite <- C.
           now apply in_map.
      * intros p j mt Hp Np. apply Hframe.
        -- apply Hk; auto. intros C. apply Np. now left.
        -- intros C. apply Np. now right.
Qed.

(** The same, in the terms of the renamings asked for *)
Lemma fold_rename_step_paths (webp : path) (l : list (path * str)) (fs : node) :
  let chain := map (fun e => (fst e, webp ++ [snd e])) l in
  isdir fs webp = true ->
  NoDup (map fst chain) -> NoDup (map snd chain) ->
  (forall e, In e chain ->
     (exists i m, file_at fs (fst e) i m) /\ lookup fs (snd e) = None) ->
  exists fs',
    fold_left rename_step chain (fs, true) = (fs', true)
    /\ (forall e i m, In e chain -> file_at fs (fst e) i m ->
                      file_at fs' (snd e) i m)
    /\ (forall p i m, file_at fs p i m -> ~ In p (map fst chain) ->
                      file_at fs' p i m).
Proof.
  intros chain Hd N1 N2 H.
  assert (E1 : map fst chain = map fst l).
  { unfold chain. rewrite map_map. reflexivity. }
  assert (E2 : map snd chain = map (fun n => webp ++ [n]) (map snd l)).
  { unfold chain. rewrite !map_map. reflexivity. }
  destruct (fold_rename_step_fresh webp l fs) as [fs' [Hf [Hp Hk]]]; auto.
  - now rewrite <- E1.
  - rewrite E2 in N2. now apply NoDup_map_inv in N2.
  - intros e He. apply (H (fst e, webp ++ [snd e])).
    unfold chain. apply in_map_iff. now exists e.
  - intros e He. apply (H (fst e, webp ++ [snd e])).
    unfold chain. apply in_map_iff. now exists e.
  - exists fs'. split; [exact Hf|]. split.
    + intros e i m He Hi. unfold chain in He. apply in_map_iff in He.
      destruct He as [e' [<- He']]. cbn [fst snd] in *. now apply Hp.
    + intros p i m Hp' Np. apply Hk; auto. now rewrite <- E1.
Qed.

End RenameFacts.




(** * Further properties of the code *)

(** ** [split.py]: what the aggressive pruning reaches *)
Section ZeroEmpty.
Import Py Fs FrameSpec Split Verification PruningSpec.

Lemma kept_folder_short (p : path) : is_kept_folder p = true -> List.length p <= 1.
Proof.
  unfold is_kept_folder, kept_folders. cbn [existsb]. intros H.
  repeat (apply orb_true_iff in H; destruct H as [H|H]);
    try (apply path_eqb_eq in H; subst; cbn; lia).
  discriminate.
Qed.

(** Removal makes no directory. *)
Lemma lookup_remove_inv (t : node) (q p : path) (x : node) :
  lookup (remove t q) p = Some x ->
  exists y, lookup t p = Some y /\ is_dir y = is_dir x.
Proof.
  revert t p x. induction q as [|c q IH]; intros t p x H; [now exists x|].
  destruct t as [j mt|es]; [now exists x|].
  cbn [remove] in H. destruct q as [|c' q'].
  - destruct p as [|d p].
    { inversion H; subst. now exists (Dir es). }
    cbn [lookup] in *. destruct (str_eqb d c) eqn:E.
    + apply str_eqb_eq in E. subst d. rewrite dict_get_remove_same in H.
      discriminate.
    + apply str_eqb_neq in E. rewrite dict_get_remove_other in H by congruence.
      destruct (dict_get str_eqb es d); [now exists x | discriminate].
  - destruct (dict_get str_eqb es c) as [ch|] eqn:Ec; [|now exists x].
    destruct p as [|d p].
    { inversion H; subst. now exists (Dir es). }
    cbn [lookup] in *. destruct (str_eqb d c) eqn:E.
    + apply str_eqb_eq in E. subst d. rewrite dict_get_set_same in H.
      rewrite Ec. now apply IH.
    + apply str_eqb_neq in E. rewrite dict_get_set_other in H by congruence.
      destruct (dict_get str_eqb es d); [now exists x | discriminate].
Qed.

Lemma isdir_remove_inv (t : node) (q p : path) :
  isdir (remove t q) p = true -> isdir t p = true.
Proof.
  unfold isdir. destruct (lookup (remove t q) p) as [x|] eqn:E; [|discriminate].
  destruct (lookup_remove_inv t q p x E) as [y [-> Hk]].
  destruct x, y; cbn in *; congruence.
Qed.

(** The bottom-up walk names every directory below the top. *)
Lemma walk_dirs_complete (n : node) (here d : path) :
  d <> [] -> isdir n d = true -> In (here ++ d) (walk_dirs_bottom_up here n).
Proof.
  revert n here. induction d as [|c d IH]; intros n here N H; [congruence|].
  unfold isdir in H. destruct n as [j mt|es]; [discriminate|].
  cbn [lookup] in H. destruct (dict_get str_eqb es c) as [ch|] eqn:Ec; [|discriminate].
  apply dict_get_entry in Ec.
  cbn [walk_dirs_bottom_up]. apply in_or_app. destruct d as [|c' d'].
  - right. cbn [lookup] in H. apply in_map_iff. exists (c, ch). split; [reflexivity|].
    apply filter_In. split; [exact Ec|]. cbn [snd].
    destruct ch; [discriminate H | reflexivity].
  - left. apply in_flat_map. exists (c, ch). split; auto. cbn [fst snd].
    replace (here ++ c :: c' :: d') with ((here ++ [c]) ++ c' :: d')
      by (now rewrite <- app_assoc).
    apply IH; [discriminate|]. exact H.
Qed.

Lemma holds_file_below (t : node) (d : path) (c : str) :
  holds_file t (d ++ [c]) -> holds_file t d.
Proof.
  intros [q [i [m H]]]. exists (c :: q), i, m.
  now rewrite <- app_assoc in H.
Qed.

Lemma pass_step_invariant (t : node) (k : nat) (d0 : path) (todo : list path) :
  (forall x, In x todo -> List.length x <= List.length d0) ->
  pass_invariant t (d0 :: todo) ->
  pass_invariant (fst (pass_step (fun _ => true) (t, k) d0)) todo.
Proof.
  intros Hs Hinv. unfold pass_step.
  destruct (is_kept_folder d0) eqn:Ek; cbn [orb fst].
  { intros d Hd Hi. destruct (Hinv d Hd Hi) as [[<-|H]|H]; auto. congruence. }
  destruct (exists_ t d0) eqn:Ee; cbn [negb fst].
  2:{ intros d Hd Hi. destruct (Hinv d Hd Hi) as [[<-|H]|H]; auto.
      unfold isdir in Hi. unfold exists_ in Ee.
      destruct (lookup t d0); discriminate. }
  assert (N0 : d0 <> []) by (intros ->; discriminate).
  unfold is_directory_truly_empty, force_remove_directory.
  destruct (lookup t d0) as [[j mt|[|[c ch] es]]|] eqn:El; cbn [fst].
  - (* a file *)
    intros d Hd Hi. destruct (Hinv d Hd Hi) as [[<-|H]|H]; auto.
    unfold isdir in Hi. rewrite El in Hi. discriminate.
  - (* an empty directory: removed *)
    intros d Hd Hi. pose proof (isdir_remove_inv _ _ _ Hi) as Hi0.
    assert (Nd : d <> d0).
    { intros ->. unfold isdir in Hi. rewrite lookup_remove_same in Hi by exact N0.
      discriminate. }
    destruct (Hinv d Hd Hi0) as [[E|H]|H]; [congruence | now left | right].
    destruct H as [q [i [m H]]]. exists q, i, m.
    apply (remove_keeps_files t d0); auto.
    now apply empty_dir_holds_no_file.
  - (* a directory with an entry *)
    intros d Hd Hi. destruct (Hinv d Hd Hi) as [[<-|H]|H]; auto.
    right. assert (Hc : lookup t (d0 ++ [c]) = Some ch).
    { rewrite lookup_app, El. cbn [lookup dict_get]. now rewrite str_eqb_refl. }
    destruct ch as [i m|es'].
    + exists [c], i, m. exact Hc.
    + apply (holds_file_below t d0 c).
      assert (Hk : is_kept_folder (d0 ++ [c]) = false).
      { destruct (is_kept_folder (d0 ++ [c])) eqn:E; auto.
        apply kept_folder_short in E. rewrite length_app in E. cbn in E.
        destruct d0; [congruence | cbn in E; lia]. }
      assert (Hi' : isdir t (d0 ++ [c]) = true) by (unfold isdir; now rewrite Hc).
      destruct (Hinv _ Hk Hi') as [[E|H]|H]; auto.
      * apply (f_equal (@List.length str)) in E. rewrite length_app in E.
        cbn in E. lia.
      * apply Hs in H. rewrite length_app in H. cbn in H. lia.
  - unfold exists_ in Ee. rewrite El in Ee. discriminate.
Qed.

Lemma fold_pass_step_invariant (todo : list path) (t : node) (k : nat) :
  StronglySorted
    (fun a b : path => (List.length b <=? List.length a) = true) todo ->
  pass_invariant t todo ->
  all_hold_files (fst (fold_left (pass_step (fun _ => true)) todo (t, k))).
Proof.
  revert t k. induction todo as [|d0 todo IH]; intros t k Hs Hinv.
  - cbn. intros d Hd Hi. destruct (Hinv d Hd Hi) as [[]|H]; auto.
  - inversion Hs as [|? ? Hs' Hf]; subst. cbn [fold_left].
    destruct (pass_step (fun _ => true) (t, k) d0) as [t' k'] eqn:E.
    apply IH; auto.
    replace t' with (fst (pass_step (fun _ => true) (t, k) d0)) by (now rewrite E).
    apply pass_step_invariant; auto.
    intros x Hx. rewrite Forall_forall in Hf. apply Nat.leb_le. now apply Hf.
Qed.

(** One pass whose removals all succeed leaves no directory without a file,
    the kept folders apart. *)
Lemma aggressive_pass_all_hold_files (fs : node) :
  all_hold_files (fst (aggressive_pass (fun _ => true) fs)).
Proof.
  unfold aggressive_pass. apply fold_pass_step_invariant.
  - apply sorted_strongly.
    + intros a b. rewrite !Nat.leb_le. lia.
    + intros a b c. rewrite !Nat.leb_le. lia.
  - intros d Hd Hi. left. apply sorted_in.
    assert (N : d <> []) by (intros ->; discriminate).
    exact (walk_dirs_complete fs [] d N Hi).
Qed.

Lemma aggressive_passes_all_hold_files (n : nat) (fs : node) (k : nat) :
  all_hold_files (fst (aggressive_passes (fun _ => true) (S n) fs k)).
Proof.
  revert fs k. induction n as [|n IH]; intros fs k.
  - cbn [aggressive_passes].
    pose proof (aggressive_pass_all_hold_files fs) as H.
    destruct (aggressive_pass (fun _ => true) fs) as [fs' c]. cbn [fst] in H.
    now destruct (c =? 0).
  - change (aggressive_passes (fun _ => true) (S (S n)) fs k)
      with (let '(fs', c) := aggressive_pass (fun _ => true) fs in
            if c =? 0 then (fs', k)
            else aggressive_passes (fun _ => true) (S n) fs' (k + c)).
    pose proof (aggressive_pass_all_hold_files fs) as H.
    destruct (aggressive_pass (fun _ => true) fs) as [fs' c]. cbn [fst] in H.
    destruct (c =? 0); [exact H | apply IH].
Qed.

Lemma no_empty_when_all_hold (t : node) (l : list path) (g : path -> bool) :
  all_hold_files t ->
  filter (fun p => negb (is_kept_folder p) && g p && is_directory_truly_empty t p) l
  = [].
Proof.
  intros H. induction l as [|p l IH]; [reflexivity|]. cbn [filter].
  destruct (is_kept_folder p) eqn:Ek; [exact IH|]. cbn [negb andb].
  destruct (is_directory_truly_empty t p) eqn:Ee;
    [|rewrite andb_false_r; exact IH].
  exfalso. unfold is_directory_truly_empty in Ee.
  destruct (lookup t p) as [[j m|[|e es]]|] eqn:El; try discriminate.
  apply (empty_dir_holds_no_file t p El). apply H; auto.
  unfold isdir. now rewrite El.
Qed.

End ZeroEmpty.

(** X1: when every removal succeeds, the aggressive pruning leaves no empty
    directory but the kept folders: it reports none as remaining, and the
    verification that follows finds none. *)
Theorem aggressive_pruning_leaves_no_empty_folder (fs : Fs.node) :
  let r := Split.remove_empty_dirs_aggressive (fun _ => true) fs in
  snd (snd r) = 0
  /\ Verification.verify_no_empty_folders (fst r) = []
  /\ forall d, Split.is_kept_folder d = false ->
               Fs.isdir (fst r) d = true -> FrameSpec.holds_file (fst r) d.
Proof.
  cbv zeta. unfold Split.remove_empty_dirs_aggressive.
  pose proof (aggressive_passes_all_hold_files 9 fs 0) as H.
  destruct (Split.aggressive_passes (fun _ => true) 10 fs 0) as [t removed].
  cbn [fst] in H.
  assert (E : filter
                (fun root_path =>
                   negb (Split.is_kept_folder root_path)
                   && negb (Fs.path_eqb root_path [])
                   && Split.is_directory_truly_empty t root_path)
                (Fs.walk_roots_bottom_up [] t) = []).
  { apply (no_empty_when_all_hold t _ (fun p => negb (Fs.path_eqb p [])) H). }
  rewrite E. cbn [fold_left fst snd List.length]. split; [reflexivity|].
  split; [|exact H].
  unfold Verification.verify_no_empty_folders.
  pose proof (no_empty_when_all_hold t
                (map (fun x => fst (fst x)) (Fs.walk [] t)) (fun _ => true) H) as E'.
  etransitivity; [|exact E']. apply filter_ext. intros p.
  now rewrite andb_true_r.
Qed.

(** The theorem at a tree with a chain of empty folders beside a folder with
    a file. *)
Lemma aggressive_pruning_leaves_no_empty_folder_witness :
  let fs := Fs.Dir [(lit "A", Fs.Dir [(lit "B", Fs.Dir [(lit "C", Fs.Dir [])])]);
                    (lit "Needs Labeling", Fs.Dir []);
                    (lit "D", Fs.Dir [(lit "f.txt", Fs.File 1 0)])] in
  Verification.verify_no_empty_folders
    (fst (Split.remove_empty_dirs_aggressive (fun _ => true) fs)) = []
  /\ FrameSpec.holds_file
       (fst (Split.remove_empty_dirs_aggressive (fun _ => true) fs)) [lit "D"].
Proof.
  intros fs.
  destruct (aggressive_pruning_leaves_no_empty_folder fs) as [_ [H1 H2]].
  split; [exact H1|]. apply H2; reflexivity.
Defined.

Section KeptFolders.
Import Py Fs FrameSpec Split.
Variable can_remove : path -> bool.

Lemma kept_not_below (p d : path) :
  is_kept_folder p = false -> is_kept_folder d = true -> is_prefix p d = false.
Proof.
  intros Hp Hd. destruct (is_prefix p d) eqn:E; auto. exfalso.
  apply is_prefix_inv in E. destruct E as [r ->].
  pose proof (kept_folder_short _ Hd) as Hl. rewrite length_app in Hl.
  destruct p as [|c p]; [discriminate Hp|].
  destruct p; [|cbn in Hl; lia]. destruct r; [|cbn in Hl; lia].
  cbn [app] in Hd. congruence.
Qed.

Lemma force_remove_keeps_kept (t : node) (p d : path) :
  is_kept_folder p = false -> is_kept_folder d = true ->
  isdir t d = true ->
  isdir (fst (force_remove_directory can_remove t p)) d = true.
Proof.
  intros Hp Hd Hi. unfold force_remove_directory.
  destruct (lookup t p) as [[j m|es]|]; cbn [fst]; auto.
  destruct (can_remove p); cbn [fst]; auto.
  apply isdir_remove; auto. now apply kept_not_below.
Qed.

Lemma pass_step_keeps_kept (acc : node * nat) (p d : path) :
  is_kept_folder d = true -> isdir (fst acc) d = true ->
  isdir (fst (pass_step can_remove acc p)) d = true.
Proof.
  destruct acc as [t k]. cbn [fst]. intros Hd Hi. unfold pass_step.
  destruct (is_kept_folder p) eqn:Ek; cbn [orb fst]; auto.
  destruct (negb (exists_ t p)); cbn [fst]; auto.
  destruct (is_directory_truly_empty t p); cbn [fst]; auto.
  pose proof (force_remove_keeps_kept t p d Ek Hd Hi) as H.
  destruct (force_remove_directory can_remove t p) as [t' ok] eqn:E.
  cbn [fst] in H. now destruct ok.
Qed.

Lemma fold_pass_step_keeps_kept (l : list path) (acc : node * nat) (d : path) :
  is_kept_folder d = true -> isdir (fst acc) d = true ->
  isdir (fst (fold_left (pass_step can_remove) l acc)) d = true.
Proof.
  revert acc. induction l as [|p l IH]; intros acc Hd Hi; [exact Hi|].
  cbn [fold_left]. apply IH; auto. now apply pass_step_keeps_kept.
Qed.

Lemma aggressive_passes_keep_kept (n : nat) (t : node) (k : nat) (d : path) :
  is_kept_folder d = true -> isdir t d = true ->
  isdir (fst (aggressive_passes can_remove n t k)) d = true.
Proof.
  revert t k. induction n as [|n IH]; intros t k Hd Hi; [exact Hi|].
  cbn [aggressive_passes].
  pose proof (fold_pass_step_keeps_kept
                (sorted (fun a b : path => List.length b <=? List.length a)
                        (walk_dirs_bottom_up [] t)) (t, 0) d Hd Hi) as H.
  fold (aggressive_pass can_remove t) in H.
  destruct (aggressive_pass can_remove t) as [t' c]. cbn [fst] in H.
  destruct (c =? 0); [exact H | now apply IH].
Qed.

Lemma fold_final_step_keeps_kept (l : list path) (acc : node * nat) (d : path) :
  (forall p, In p l -> is_kept_folder p = false) ->
  is_kept_folder d = true -> isdir (fst acc) d = true ->
  isdir (fst (fold_left (final_step can_remove) l acc)) d = true.
Proof.
  revert acc. induction l as [|p l IH]; intros acc Hl Hd Hi; [exact Hi|].
  cbn [fold_left]. apply IH; auto.
  - intros q Hq. apply Hl. now right.
  - destruct acc as [t k]. unfold final_step.
    pose proof (force_remove_keeps_kept t p d (Hl p (or_introl eq_refl)) Hd Hi) as H.
    destruct (force_remove_directory can_remove t p) as [t' ok].
    cbn [fst] in *. now destruct ok.
Qed.

End KeptFolders.

(** X2: the pruning never removes the main folder's working folders
    [Needs Labeling], [__WEBP To be move to the right folders] and
    [gslisting], empty or not, whether its removals succeed or fail. *)
Theorem aggressive_pruning_keeps_kept_folders
    (can_remove : Fs.path -> bool) (fs : Fs.node) (d : Fs.path) :
  In d Split.kept_folders ->
  Fs.isdir fs d = true ->
  Fs.isdir (fst (Split.remove_empty_dirs_aggressive can_remove fs)) d = true.
Proof.
  intros Hin Hi.
  assert (Hd : Split.is_kept_folder d = true).
  { unfold Split.is_kept_folder. apply existsb_exists. exists d. split; auto.
    now apply path_eqb_eq. }
  unfold Split.remove_empty_dirs_aggressive.
  pose proof (aggressive_passes_keep_kept can_remove 10 fs 0 d Hd Hi) as H.
  destruct (Split.aggressive_passes can_remove 10 fs 0) as [t removed].
  cbn [fst] in H.
  match goal with
  | |- context [fold_left (Split.final_step can_remove) ?l ?a] =>
      pose proof (fold_final_step_keeps_kept can_remove l a d) as F;
      destruct (fold_left (Split.final_step can_remove) l a) as [t' fr]
  end.
  cbn [fst] in *. apply F; auto.
  intros p Hp. apply filter_In in Hp. destruct Hp as [_ Hp].
  apply andb_true_iff in Hp. destruct Hp as [Hp _].
  apply andb_true_iff in Hp. destruct Hp as [Hp _].
  now apply negb_true_iff in Hp.
Qed.

(** The theorem at a tree whose working folders are empty. *)
Lemma aggressive_pruning_keeps_kept_folders_witness :
  Fs.isdir
    (fst (Split.remove_empty_dirs_aggressive (fun _ => true)
            (Fs.Dir [(lit "Needs Labeling", Fs.Dir []);
                     (lit "gslisting", Fs.Dir []);
                     (lit "A", Fs.Dir [])])))
    [lit "gslisting"] = true.
Proof.
  apply aggressive_pruning_keeps_kept_folders.
  - right. right. right. now left.
  - reflexivity.
Defined.

(** ** [split.py]: the intake of [.gslisting] folders and of [.mov] files *)
Section IntakeFacts.
Import Py Fs FrameSpec Split Intake.

Lemma to_uint_not_nil (n : nat) : Nat.to_uint n <> Decimal.Nil.
Proof.
  intros E. pose proof (DecimalNat.Unsigned.of_to n) as H. rewrite E in H.
  cbn in H. subst n. discriminate E.
Qed.

(** [str] gives different numbers different texts. *)
Lemma str_of_nat_inj (j k : nat) : str_of_nat j = str_of_nat k -> j = k.
Proof.
  unfold str_of_nat, lit. intros E.
  apply (f_equal String.string_of_list_ascii) in E.
  rewrite !String.string_of_list_ascii_of_string in E.
  apply (f_equal DecimalString.NilZero.uint_of_string) in E.
  rewrite !DecimalString.NilZero.usu in E by apply to_uint_not_nil.
  inversion E as [E']. now apply DecimalNat.Unsigned.to_uint_inj.
Qed.

Lemma numbered_name_inj (name : str) (j k : nat) :
  numbered_name name j = numbered_name name k -> j = k.
Proof.
  unfold numbered_name. intros E. apply app_inv_head in E.
  apply app_inv_head in E. apply app_inv_tail in E. now apply str_of_nat_inj.
Qed.

Lemma exists_in_listdir (fs : node) (q : path) (c : str) :
  exists_ fs (q ++ [c]) = true -> In c (listdir fs q).
Proof.
  unfold exists_, listdir. rewrite lookup_app.
  destruct (lookup fs q) as [[j m|es]|]; cbn [lookup]; try discriminate.
  destruct (dict_get str_eqb es c) as [ch|] eqn:E; [|discriminate].
  intros _. apply dict_get_entry in E. apply in_map_iff. now exists (c, ch).
Qed.

(** The loop leaves without a name only if every name it tried is taken. *)
Lemma first_free_none (fuel : nat) (fs : node) (q : path) (name : str) (c : nat) :
  first_free fuel fs q name c = None ->
  forall j, c <= j < c + fuel -> exists_ fs (q ++ [numbered_name name j]) = true.
Proof.
  revert c. induction fuel as [|fuel IH]; intros c H j Hj; [lia|].
  cbn [first_free] in H.
  destruct (exists_ fs (q ++ [numbered_name name c])) eqn:E; [|discriminate].
  destruct (Nat.eq_dec j c) as [->|N]; [exact E|].
  apply (IH (S c) H). lia.
Qed.

(** The name that the loop leaves with is the first that is free. *)
Lemma first_free_some (fuel : nat) (fs : node) (q : path) (name : str)
    (c : nat) (r : str) :
  first_free fuel fs q name c = Some r ->
  exists k, c <= k /\ r = numbered_name name k
            /\ exists_ fs (q ++ [r]) = false
            /\ forall j, c <= j < k ->
                         exists_ fs (q ++ [numbered_name name j]) = true.
Proof.
  revert c. induction fuel as [|fuel IH]; intros c H; [discriminate|].
  cbn [first_free] in H.
  destruct (exists_ fs (q ++ [numbered_name name c])) eqn:E.
  - destruct (IH (S c) H) as [k [Hk [Hr [Hf Hb]]]].
    exists k. repeat split; auto; [lia|]. intros j Hj.
    destruct (Nat.eq_dec j c) as [->|N]; [exact E | apply Hb; lia].
  - inversion H; subst. exists c. repeat split; auto. intros j Hj. lia.
Qed.

(** The bound on the turns of the loop is never reached: the names of
    different counters differ, and the folder has too few entries for them
    all to be taken. *)
Lemma first_free_enough (fs : node) (q : path) (name : str) (c : nat) :
  first_free (S (List.length (listdir fs q))) fs q name c <> None.
Proof.
  intros H.
  pose proof (first_free_none _ fs q name c H) as Hall.
  set (n := S (List.length (listdir fs q))) in *.
  assert (Hn : NoDup (map (numbered_name name) (seq c n))).
  { apply NoDup_map_NoDup_ForallPairs; [|apply seq_NoDup].
    intros x y _ _. apply numbered_name_inj. }
  assert (Hi : incl (map (numbered_name name) (seq c n)) (listdir fs q)).
  { intros r Hr. apply in_map_iff in Hr. destruct Hr as [j [<- Hj]].
    apply in_seq in Hj. apply exists_in_listdir. apply Hall. lia. }
  pose proof (NoDup_incl_length Hn Hi) as Hl.
  rewrite length_map, length_seq in Hl. unfold n in Hl. lia.
Qed.

(** A move to a free name of a directory that is not below the source *)
Lemma move_into_dir (fs : node) (src q : path) (c : str) (x : node) :
  lookup fs src = Some x -> isdir fs q = true -> is_prefix src q = false ->
  lookup fs (q ++ [c]) = None ->
  exists fs', move fs src (q ++ [c]) = Some fs'
              /\ lookup fs' (q ++ [c]) = Some x /\ lookup fs' src = None.
Proof.
  intros Hs Hq Nq Hn.
  assert (Nsrc : src <> []) by (intros ->; discriminate).
  assert (Ne : src <> q ++ [c]) by (intros ->; congruence).
  assert (Np : is_prefix src (q ++ [c]) = false).
  { destruct (is_prefix src (q ++ [c])) eqn:E; auto. exfalso.
    apply is_prefix_inv in E. destruct E as [r E].
    destruct r as [|a r] using rev_ind.
    - rewrite app_nil_r in E. congruence.
    - rewrite app_assoc in E. apply app_inj_tail in E. destruct E as [-> _].
      rewrite is_prefix_self_app in Nq. discriminate. }
  assert (Np' : is_prefix (q ++ [c]) src = false).
  { apply (absent_not_prefix fs); auto. congruence. }
  unfold move. rewrite Hs.
  assert (Ed : isdir fs (q ++ [c]) = false) by (unfold isdir; now rewrite Hn).
  rewrite Ed. cbn [andb].
  assert (Ee : path_eqb src (q ++ [c]) = false).
  { unfold path_eqb. destruct (list_eq_dec _ src (q ++ [c])); congruence. }
  rewrite Ee, Np.
  assert (Ex : exists_ fs (q ++ [c]) = false) by (unfold exists_; now rewrite Hn).
  rewrite Ex, andb_false_r.
  destruct (put_into_dir (remove fs src) q c x) as [fs' [Hp Hl]].
  { now apply isdir_remove. }
  exists fs'. split; [exact Hp|]. split; [exact Hl|].
  eapply put_keeps_none; eauto. now apply lookup_remove_same.
Qed.

End IntakeFacts.

(** X3: a [.gslisting] folder is moved, whole, to a name of the folder
    [gslisting] that is not taken: its own name, or else the first of
    [<stem>_1<suffix>], [<stem>_2<suffix>], ... that is free.  The loop that
    looks for the name always ends, nothing in [gslisting] is replaced, and
    every file outside the moved folder stays where it is. *)
Theorem gslisting_folder_gets_first_free_name
    (fs : Fs.node) (folder_path gslisting_folder : Fs.path) (x : Fs.node) :
  Fs.lookup fs folder_path = Some x ->
  Fs.isdir fs gslisting_folder = true ->
  Fs.is_prefix folder_path gslisting_folder = false ->
  exists name fs',
    Intake.process_gslisting_folder fs folder_path gslisting_folder
    = Some (fs', Intake.Returns (gslisting_folder ++ [name]))
    /\ Fs.lookup fs (gslisting_folder ++ [name]) = None
    /\ (name = Fs.basename folder_path
        \/ (Fs.exists_ fs (gslisting_folder ++ [Fs.basename folder_path]) = true
            /\ exists k,
                 1 <= k
                 /\ name = Intake.numbered_name (Fs.basename folder_path) k
                 /\ forall j, 1 <= j < k ->
                      Fs.exists_ fs
                        (gslisting_folder
                         ++ [Intake.numbered_name (Fs.basename folder_path) j])
                      = true))
    /\ Fs.lookup fs' (gslisting_folder ++ [name]) = Some x
    /\ Fs.lookup fs' folder_path = None
    /\ forall p i m,
         FrameSpec.file_at fs p i m -> Fs.is_prefix folder_path p = false ->
         FrameSpec.file_at fs' p i m.
Proof.
  intros Hs Hq Nq.
  assert (Hname : exists name,
             Intake.free_name fs gslisting_folder (Fs.basename folder_path)
             = Some name
             /\ Fs.exists_ fs (gslisting_folder ++ [name]) = false
             /\ (name = Fs.basename folder_path
                 \/ (Fs.exists_ fs (gslisting_folder ++ [Fs.basename folder_path])
                     = true
                     /\ exists k,
                          1 <= k
                          /\ name = Intake.numbered_name (Fs.basename folder_path) k
                          /\ forall j, 1 <= j < k ->
                               Fs.exists_ fs
                                 (gslisting_folder
                                  ++ [Intake.numbered_name
                                        (Fs.basename folder_path) j])
                               = true))).
  { unfold Intake.free_name.
    destruct (Fs.exists_ fs (gslisting_folder ++ [Fs.basename folder_path])) eqn:E.
    - destruct (Intake.first_free _ fs gslisting_folder
                  (Fs.basename folder_path) 1) as [r|] eqn:Ef.
      + destruct (first_free_some _ _ _ _ _ _ Ef) as [k [Hk [Hr [Hfree Hb]]]].
        exists r. split; [reflexivity|]. split; [exact Hfree|]. right.
        split; [reflexivity|]. exists k. auto.
      + exfalso. exact (first_free_enough _ _ _ _ Ef).
    - exists (Fs.basename folder_path). auto. }
  destruct Hname as [name [Hf [Hfree Hwhich]]].
  assert (Hn : Fs.lookup fs (gslisting_folder ++ [name]) = None).
  { unfold Fs.exists_ in Hfree.
    destruct (Fs.lookup fs (gslisting_folder ++ [name])); [discriminate | reflexivity]. }
  destruct (move_into_dir fs folder_path gslisting_folder name x Hs Hq Nq Hn)
    as [fs' [Hm [Hl Hsrc]]].
  exists name, fs'. unfold Intake.process_gslisting_folder. rewrite Hf.
  assert (Ex : Fs.exists_ fs gslisting_folder = true).
  { unfold Fs.exists_. unfold Fs.isdir in Hq.
    destruct (Fs.lookup fs gslisting_folder); [reflexivity | discriminate]. }
  rewrite Ex, andb_false_r, Hm.
  repeat split; auto.
  intros p i m Hp Np. eapply move_keeps_file; eauto.
  apply (absent_not_prefix fs); auto. unfold FrameSpec.file_at in Hp. congruence.
Qed.

(** The theorem at a folder [gslisting] where the name and its first
    numbered variant are taken. *)
Lemma gslisting_folder_gets_first_free_name_witness :
  let fs := Fs.Dir [(lit "gslisting",
                     Fs.Dir [(lit "a.gslisting", Fs.Dir []);
                             (lit "a_1.gslisting", Fs.File 1 0)]);
                    (lit "B", Fs.Dir [(lit "a.gslisting",
                                       Fs.Dir [(lit "f", Fs.File 2 0)])])] in
  exists name fs',
    Intake.process_gslisting_folder fs [lit "B"; lit "a.gslisting"] [lit "gslisting"]
    = Some (fs', Intake.Returns ([lit "gslisting"] ++ [name]))
    /\ Fs.lookup fs' ([lit "gslisting"] ++ [name])
       = Some (Fs.Dir [(lit "f", Fs.File 2 0)]).
Proof.
  intros fs.
  destruct (gslisting_folder_gets_first_free_name fs
              [lit "B"; lit "a.gslisting"] [lit "gslisting"]
              (Fs.Dir [(lit "f", Fs.File 2 0)]))
    as [name [fs' [H1 [_ [_ [H2 _]]]]]].
  - reflexivity.
  - reflexivity.
  - reflexivity.
  - exists name, fs'. split; [exact H1 | exact H2].
Defined.

Section MovFacts.
Import Py Fs FrameSpec Split Intake.

(** A file moved to the path of another file takes its place. *)
Lemma move_file_onto_file (fs : node) (src dst : path) (i j : nat) (m m' : Z) :
  file_at fs src i m -> file_at fs dst j m' -> src <> dst ->
  exists fs', move fs src dst = Some fs'
              /\ file_at fs' dst i m /\ lookup fs' src = None.
Proof.
  intros Hs Hd N.
  assert (Nsrc : src <> []).
  { intros ->. unfold file_at in *. cbn in Hs. inversion Hs; subst.
    destruct dst; [congruence | discriminate Hd]. }
  destruct dst as [|c q _] using rev_ind.
  { unfold file_at in *. cbn in Hd. inversion Hd; subst.
    destruct src; [congruence | discriminate Hs]. }
  assert (Hq : isdir fs q = true)
    by (eapply file_at_prefix_isdir; [exact Hd | discriminate]).
  assert (Np : is_prefix src (q ++ [c]) = false).
  { eapply file_not_prefix; eauto. unfold file_at in Hd. congruence. }
  assert (Nq : is_prefix src q = false).
  { eapply file_not_prefix; eauto.
    - unfold isdir in Hq. destruct (lookup fs q); [discriminate | discriminate].
    - intros ->. unfold file_at in Hs. unfold isdir in Hq. rewrite Hs in Hq.
      discriminate. }
  assert (Np' : is_prefix (q ++ [c]) src = false).
  { eapply file_not_prefix; eauto. unfold file_at in Hs. congruence. }
  unfold move. unfold file_at in Hs, Hd. rewrite Hs.
  assert (Ed : isdir fs (q ++ [c]) = false) by (unfold isdir; now rewrite Hd).
  rewrite Ed. cbn [andb].
  assert (Ee : path_eqb src (q ++ [c]) = false).
  { unfold path_eqb. destruct (list_eq_dec _ src (q ++ [c])); congruence. }
  rewrite Ee, Np. cbn [is_dir andb].
  destruct (put_into_dir (remove fs src) q c (File i m)) as [fs' [Hp Hl]].
  { now apply isdir_remove. }
  exists fs'. split; [exact Hp|]. split; [exact Hl|].
  eapply put_keeps_none; eauto. now apply lookup_remove_same.
Qed.

(** The letter is the one at the place that the number of matches gives,
    also when there is none. *)
Lemma mov_seq_id (l : list path) :
  (if Organize.is_nil l then Some "A"%char
   else nth_error ascii_uppercase (List.length l))
  = nth_error ascii_uppercase (List.length l).
Proof. now destruct l. Qed.

End MovFacts.

(** X4: a [.mov] file gets the letter whose place in the alphabet is the
    number of entries that match [<brand>-<product>-*<suffix>]; with 26
    matches or more there is no letter left: the call raises [IndexError]
    and moves nothing. *)
Theorem mov_letters_run_out (fs : Fs.node) (file_path webp_folder : Fs.path) :
  26 <= List.length (Intake.mov_existing fs file_path webp_folder) ->
  Intake.process_mov_file fs file_path webp_folder = (fs, Intake.IndexError).
Proof.
  intros H. unfold Intake.process_mov_file.
  rewrite mov_seq_id.
  assert (E : nth_error Intake.ascii_uppercase
                (List.length (Intake.mov_existing fs file_path webp_folder)) = None).
  { apply nth_error_None. exact H. }
  now rewrite E.
Qed.

(** The theorem at a folder that holds the 26 names from [Br-Pr-A.mov] to
    [Br-Pr-Z.mov]. *)
Lemma mov_letters_run_out_witness :
  let fs := Fs.Dir [(lit "W", Fs.Dir [(lit "Br-Pr-A.mov", Fs.File 1 0); (lit "Br-Pr-B.mov", Fs.File 2 0); (lit "Br-Pr-C.mov", Fs.File 3 0); (lit "Br-Pr-D.mov", Fs.File 4 0); (lit "Br-Pr-E.mov", Fs.File 5 0); (lit "Br-Pr-F.mov", Fs.File 6 0); (lit "Br-Pr-G.mov", Fs.File 7 0); (lit "Br-Pr-H.mov", Fs.File 8 0); (lit "Br-Pr-I.mov", Fs.File 9 0); (lit "Br-Pr-J.mov", Fs.File 10 0); (lit "Br-Pr-K.mov", Fs.File 11 0); (lit "Br-Pr-L.mov", Fs.File 12 0); (lit "Br-Pr-M.mov", Fs.File 13 0); (lit "Br-Pr-N.mov", Fs.File 14 0); (lit "Br-Pr-O.mov", Fs.File 15 0); (lit "Br-Pr-P.mov", Fs.File 16 0); (lit "Br-Pr-Q.mov", Fs.File 17 0); (lit "Br-Pr-R.mov", Fs.File 18 0); (lit "Br-Pr-S.mov", Fs.File 19 0); (lit "Br-Pr-T.mov", Fs.File 20 0); (lit "Br-Pr-U.mov", Fs.File 21 0); (lit "Br-Pr-V.mov", Fs.File 22 0); (lit "Br-Pr-W.mov", Fs.File 23 0); (lit "Br-Pr-X.mov", Fs.File 24 0); (lit "Br-Pr-Y.mov", Fs.File 25 0); (lit "Br-Pr-Z.mov", Fs.File 26 0)]);
                    (lit "Br", Fs.Dir [(lit "Pr", Fs.Dir [(lit "clip.mov", Fs.File 99 0)])])] in
  Intake.process_mov_file fs [lit "Br"; lit "Pr"; lit "clip.mov"] [lit "W"]
  = (fs, Intake.IndexError).
Proof.
  intros fs. apply mov_letters_run_out. vm_compute. lia.
Defined.

(** X5: the letter is not checked to be free.  When the name with the letter
    that the number of matches gives is the name of a file, the incoming
    file takes its place: the file that was there is replaced. *)
Theorem mov_replaces_file_of_same_letter
    (fs : Fs.node) (file_path webp_folder : Fs.path) (c : ascii)
    (i j : nat) (m m' : Z) :
  let dest :=
    webp_folder
    ++ [Intake.mov_brand file_path ++ lit "-" ++ Intake.mov_product file_path
        ++ lit "-" ++ [c] ++ Split.suffix (Fs.basename file_path)] in
  FrameSpec.file_at fs file_path i m ->
  nth_error Intake.ascii_uppercase
    (List.length (Intake.mov_existing fs file_path webp_folder)) = Some c ->
  FrameSpec.file_at fs dest j m' ->
  file_path <> dest ->
  exists fs',
    Intake.process_mov_file fs file_path webp_folder = (fs', Intake.Returns dest)
    /\ FrameSpec.file_at fs' dest i m
    /\ Fs.lookup fs' file_path = None.
Proof.
  intros dest Hs Hc Hd N. unfold Intake.process_mov_file.
  rewrite mov_seq_id, Hc.
  destruct (move_file_onto_file fs file_path dest i j m m' Hs Hd N)
    as [fs' [Hm [H1 H2]]].
  exists fs'. fold dest. now rewrite Hm.
Qed.

(** The theorem at a folder where [Br-Pr-B.mov] is the only match. *)
Lemma mov_replaces_file_of_same_letter_witness :
  let fs := Fs.Dir [(lit "W", Fs.Dir [(lit "Br-Pr-B.mov", Fs.File 1 0)]);
                    (lit "Br", Fs.Dir [(lit "Pr", Fs.Dir [(lit "clip.mov", Fs.File 2 0)])])] in
  exists fs',
    Intake.process_mov_file fs [lit "Br"; lit "Pr"; lit "clip.mov"] [lit "W"]
    = (fs', Intake.Returns [lit "W"; lit "Br-Pr-B.mov"])
    /\ FrameSpec.file_at fs' [lit "W"; lit "Br-Pr-B.mov"] 2 0.
Proof.
  intros fs.
  destruct (mov_replaces_file_of_same_letter fs
              [lit "Br"; lit "Pr"; lit "clip.mov"] [lit "W"] "B"%char 2 1 0%Z 0%Z)
    as [fs' [H1 [H2 _]]].
  - reflexivity.
  - reflexivity.
  - reflexivity.
  - discriminate.
  - exists fs'. split; [exact H1 | exact H2].
Defined.

(** ** [organize.py]: [remove_empty_folders] *)
Section RemoveEmptyFacts.
Import Py Fs FrameSpec Cleanup.
Variable can_rmdir : path -> bool.

Lemma remove_empty_from_dir (here : path) (es : list (str * node)) :
  remove_empty_from can_rmdir here (Dir es) =
  Dir (filter (fun e => negb (rmdir_done can_rmdir here e))
         (map (fun e => (fst e, remove_empty_from can_rmdir (here ++ [fst e]) (snd e)))
              es)).
Proof. reflexivity. Qed.

(** A path that is there after the walk below it was there before, and the
    entry that leads to it is not removed unless the path ends there. *)
Lemma remove_empty_from_keeps_path (n : node) (here q : path) :
  q <> [] ->
  (exists x, lookup (remove_empty_from can_rmdir here n) q = Some x) ->
  is_empty_dir (remove_empty_from can_rmdir here n) = false.
Proof.
  intros N [x H]. destruct n as [j m|es]; [reflexivity|].
  destruct q as [|c q]; [congruence|].
  rewrite remove_empty_from_dir in *. cbn [lookup] in H.
  destruct (filter _ _) as [|e l]; [discriminate H | reflexivity].
Qed.

(** The pass deletes no file. *)
Lemma remove_empty_from_keeps_files (here : path) (n : node) :
  keeps_files n (remove_empty_from can_rmdir here n).
Proof.
  unfold keeps_files, file_at. intros p. revert here n.
  induction p as [|c p IH]; intros here n i m H.
  - cbn in H. inversion H; subst. reflexivity.
  - destruct n as [j mt|es]; [discriminate|].
    rewrite remove_empty_from_dir. cbn [lookup] in *.
    destruct (dict_get str_eqb es c) as [ch|] eqn:E; [|discriminate].
    rewrite (dict_get_filter_map
               (fun k v => remove_empty_from can_rmdir (here ++ [k]) v)
               (fun e => negb (rmdir_done can_rmdir here e)) es c ch E).
    + now apply IH.
    + apply negb_true_iff. unfold rmdir_done. cbn [fst snd].
      specialize (IH (here ++ [c]) ch i m H).
      destruct p as [|d p].
      * cbn [lookup] in IH. injection IH as IH. rewrite IH. reflexivity.
      * rewrite (remove_empty_from_keeps_path ch (here ++ [c]) (d :: p));
          [now rewrite !andb_false_r | discriminate | eauto].
Qed.

(** A directory named [Old Images] stays, and so does every directory above
    it. *)
Lemma remove_empty_from_keeps_old_images (n : node) (here p : path) :
  isdir n (p ++ [lit "Old Images"]) = true ->
  isdir (remove_empty_from can_rmdir here n) (p ++ [lit "Old Images"]) = true.
Proof.
  revert n here. induction p as [|c p IH]; intros n here H.
  - cbn [app] in *. unfold isdir in *. destruct n as [j m|es]; [discriminate|].
    rewrite remove_empty_from_dir. cbn [lookup] in *.
    destruct (dict_get str_eqb es "Old Images") as [ch|] eqn:E; [|discriminate].
    rewrite (dict_get_filter_map
               (fun k v => remove_empty_from can_rmdir (here ++ [k]) v)
               (fun e => negb (rmdir_done can_rmdir here e)) es _ ch E).
    + destruct ch; [discriminate | reflexivity].
    + unfold rmdir_done. cbn [fst snd]. rewrite str_eqb_refl.
      now rewrite andb_false_r.
  - cbn [app] in *. unfold isdir in *. destruct n as [j m|es]; [discriminate|].
    rewrite remove_empty_from_dir. cbn [lookup] in *.
    destruct (dict_get str_eqb es c) as [ch|] eqn:E; [|discriminate].
    specialize (IH ch (here ++ [c]) H).
    rewrite (dict_get_filter_map
               (fun k v => remove_empty_from can_rmdir (here ++ [k]) v)
               (fun e => negb (rmdir_done can_rmdir here e)) es c ch E).
    + exact IH.
    + apply negb_true_iff. unfold rmdir_done. cbn [fst snd].
      rewrite (remove_empty_from_keeps_path ch (here ++ [c])
                 (p ++ [lit "Old Images"])).
      * now rewrite !andb_false_r.
      * destruct p; discriminate.
      * destruct (lookup (remove_empty_from can_rmdir (here ++ [c]) ch)
                    (p ++ [lit "Old Images"])); [eauto | discriminate].
Qed.

(** An empty directory that the pass leaves is named [Old Images], or could
    not be removed. *)
Lemma remove_empty_from_survivor (n : node) (here p : path) (c : str) :
  lookup (remove_empty_from can_rmdir here n) (p ++ [c]) = Some (Dir []) ->
  c = lit "Old Images" \/ can_rmdir (here ++ p ++ [c]) = false.
Proof.
  revert n here. induction p as [|d p IH]; intros n here H.
  - cbn [app] in *. destruct n as [j m|es]; [discriminate|].
    rewrite remove_empty_from_dir in H. cbn [lookup] in H.
    destruct (dict_get str_eqb _ c) as [x|] eqn:E; [|discriminate].
    apply dict_get_filter_map_inv
      with (g := fun k v => remove_empty_from can_rmdir (here ++ [k]) v) in E.
    destruct E as [ch [Hin [Hx Hf]]]. inversion H; subst x. rewrite H1 in Hf.
    unfold rmdir_done in Hf. cbn [fst snd is_dir is_empty_dir andb] in Hf.
    destruct (str_eqb c "Old Images") eqn:Ec.
    + left. now apply str_eqb_eq.
    + right. cbn [negb andb] in Hf. now apply negb_true_iff in Hf.
  - cbn [app] in *. destruct n as [j m|es]; [discriminate|].
    rewrite remove_empty_from_dir in H. cbn [lookup] in H.
    destruct (dict_get str_eqb _ d) as [x|] eqn:E; [|discriminate].
    apply dict_get_filter_map_inv
      with (g := fun k v => remove_empty_from can_rmdir (here ++ [k]) v) in E.
    destruct E as [ch [Hin [Hx Hf]]]. subst x.
    destruct (IH ch (here ++ [d]) H) as [Hc|Hc]; [now left | right].
    now rewrite <- app_assoc in Hc.
Qed.

End RemoveEmptyFacts.

(** X6: [remove_empty_folders] deletes no file and never removes a directory
    named [Old Images], nor a directory above one; an empty directory that it
    leaves is named [Old Images] or is one whose removal failed. *)
Theorem remove_empty_folders_spares_old_images
    (can_rmdir : Fs.path -> bool) (fs : Fs.node) :
  FrameSpec.keeps_files fs (Cleanup.remove_empty_folders can_rmdir fs)
  /\ (forall p q,
        Fs.isdir fs ((p ++ [lit "Old Images"]) ++ q) = true ->
        Fs.isdir (Cleanup.remove_empty_folders can_rmdir fs)
                 (p ++ [lit "Old Images"]) = true)
  /\ (forall p c,
        Fs.lookup (Cleanup.remove_empty_folders can_rmdir fs) (p ++ [c])
        = Some (Fs.Dir []) ->
        c = lit "Old Images" \/ can_rmdir (p ++ [c]) = false).
Proof.
  split; [apply remove_empty_from_keeps_files|]. split.
  - intros p q H. apply remove_empty_from_keeps_old_images.
    unfold Fs.isdir in *. rewrite lookup_app in H.
    destruct (Fs.lookup fs (p ++ [lit "Old Images"])) as [[j m|es]|];
      [|reflexivity|discriminate].
    destruct q; discriminate.
  - intros p c H. exact (remove_empty_from_survivor can_rmdir fs [] p c H).
Qed.

(** The theorem at a folder that holds nothing but an empty [Old Images]. *)
Lemma remove_empty_folders_spares_old_images_witness :
  Fs.isdir
    (Cleanup.remove_empty_folders (fun _ => true)
       (Fs.Dir [(lit "A", Fs.Dir [(lit "Old Images", Fs.Dir [])]);
                (lit "B", Fs.Dir [(lit "C", Fs.Dir [])])]))
    ([lit "A"] ++ [lit "Old Images"]) = true.
Proof.
  refine (proj1 (proj2 (remove_empty_folders_spares_old_images (fun _ => true) _))
            [lit "A"] [] _).
  reflexivity.
Defined.

(** ** [organize.py]: the category of a file *)
Section CategoryFacts.
Import Py Re OsPath Materialize.

Lemma lower_char_dot (x : ascii) : Ascii.eqb (lower_char x) "." = Ascii.eqb x ".".
Proof. destruct x as [[] [] [] [] [] [] [] []]; vm_compute; reflexivity. Qed.

Lemma lower_char_slash (x : ascii) : Ascii.eqb (lower_char x) "/" = Ascii.eqb x "/".
Proof. destruct x as [[] [] [] [] [] [] [] []]; vm_compute; reflexivity. Qed.

Lemma lower_char_idem (x : ascii) : lower_char (lower_char x) = lower_char x.
Proof. destruct x as [[] [] [] [] [] [] [] []]; vm_compute; reflexivity. Qed.

Lemma lower_idem (s : str) : lower (lower s) = lower s.
Proof.
  unfold lower. rewrite map_map. apply map_ext. intros x. apply lower_char_idem.
Qed.

Lemma rfind_lower (c : ascii) (s : str) :
  (forall x, Ascii.eqb (lower_char x) c = Ascii.eqb x c) ->
  rfind c (lower s) = rfind c s.
Proof.
  intros H. induction s as [|x s IH]; [reflexivity|].
  cbn [lower map rfind]. fold (lower s). now rewrite IH, H.
Qed.

Lemma name_start_lower (s : str) : name_start (lower s) = name_start s.
Proof. unfold name_start. now rewrite (rfind_lower "/" s lower_char_slash). Qed.

Lemma existsb_not_dot_lower (s : str) :
  existsb not_dot (lower s) = existsb not_dot s.
Proof.
  induction s as [|x s IH]; [reflexivity|]. cbn [lower map existsb].
  fold (lower s). rewrite IH. unfold not_dot. now rewrite lower_char_dot.
Qed.

(** Lower case goes through [os.path.splitext]. *)
Lemma splitext_lower (p : str) :
  splitext (lower p) = (lower (fst (splitext p)), lower (snd (splitext p))).
Proof.
  unfold splitext. rewrite name_start_lower, (rfind_lower "." p lower_char_dot).
  destruct (rfind "." p) as [d|]; [|reflexivity].
  assert (E : firstn (d - name_start p) (skipn (name_start p) (lower p))
              = lower (firstn (d - name_start p) (skipn (name_start p) p))).
  { unfold lower. now rewrite skipn_map, firstn_map. }
  rewrite E, existsb_not_dot_lower.
  destruct ((name_start p <=? d) && _); cbn [fst snd]; [|reflexivity].
  unfold lower. now rewrite firstn_map, skipn_map.
Qed.

Lemma str_basename_lower (s : str) : str_basename (lower s) = lower (str_basename s).
Proof.
  unfold str_basename. rewrite name_start_lower. unfold lower.
  now rewrite skipn_map.
Qed.

Lemma get_file_category_lower (f : str) :
  get_file_category (lower f) = get_file_category f.
Proof.
  unfold get_file_category.
  rewrite splitext_lower, str_basename_lower. cbn [snd].
  now rewrite !lower_idem.
Qed.

End CategoryFacts.

(** X7: the category of a file does not depend on the case of its letters:
    two names that are equal in lower case have the same category. *)
Theorem get_file_category_ignores_case (f g : str) :
  Py.lower f = Py.lower g ->
  Materialize.get_file_category f = Materialize.get_file_category g.
Proof.
  intros H.
  rewrite <- (get_file_category_lower f), <- (get_file_category_lower g).
  now rewrite H.
Qed.

(** The theorem at [Photo-1.JPG] and [photo-1.jpg]. *)
Lemma get_file_category_ignores_case_witness :
  Materialize.get_file_category "Photo-1.JPG"
  = Materialize.get_file_category "photo-1.jpg".
Proof.
  apply get_file_category_ignores_case. reflexivity.
Defined.

Section MediaFacts.
Import Py Re OsPath Materialize Split Classify.

(** For a name, [pathlib]'s suffix is the extension of [os.path.splitext]
    when it is not empty and a character before it is not a dot. *)
Lemma suffix_is_ext (f : str) :
  contains "/" f = false -> suffix f <> [] ->
  existsb not_dot (stem f) = true ->
  splitext f = (stem f, suffix f).
Proof.
  intros Hs Hn Hd. unfold splitext, suffix, stem in *.
  assert (E0 : name_start f = 0).
  { unfold name_start. apply rfind_none in Hs. now rewrite Hs. }
  rewrite E0. destruct (rfind "." f) as [i|]; [|congruence].
  destruct ((0 <? i) && (i <? List.length f - 1)); [|congruence].
  cbn [Nat.leb andb skipn]. rewrite Nat.sub_0_r, Hd. reflexivity.
Qed.

Lemma in_media_extensions (e : str) :
  existsb (str_eqb e) media_extensions = true -> In e media_extensions.
Proof.
  intros H. apply existsb_exists in H. destruct H as [x [Hx E]].
  apply str_eqb_eq in E. now subst.
Qed.

End MediaFacts.

(** X8: a name that [split.py] takes for a media file, with a character other
    than a dot before its suffix, has a category in [organize.py]: the six
    media extensions are all among those that [get_file_category] knows. *)
Theorem media_file_has_category (f : str) :
  Py.contains "/" f = false ->
  existsb OsPath.not_dot (Split.stem f) = true ->
  Classify.is_media_file f = true ->
  Materialize.get_file_category f <> None.
Proof.
  intros Hs Hd Hm. unfold Classify.is_media_file in Hm.
  apply in_media_extensions in Hm.
  assert (Hn : Split.suffix f <> []).
  { intros E. rewrite E in Hm. cbn in Hm.
    repeat (destruct Hm as [Hm|Hm]; [discriminate Hm|]). exact Hm. }
  unfold Materialize.get_file_category.
  rewrite (suffix_is_ext f Hs Hn Hd). cbn [snd].
  destruct (Py.startswith _ _); [discriminate|].
  cbn in Hm.
  repeat (destruct Hm as [Hm|Hm];
          [rewrite <- Hm; vm_compute; discriminate|]).
  destruct Hm.
Qed.

(** The theorem at [Widget-A100.PNG]. *)
Lemma media_file_has_category_witness :
  Materialize.get_file_category "Widget-A100.PNG" <> None.
Proof.
  apply media_file_has_category; reflexivity.
Defined.

(** ** [organize.py]: the sequence suffix of a name *)
Section SuffixFacts.
Import Py Re OsPath Organize Materialize.

Lemma search_at_inv {A : Type} (m : str -> option A) (s pre : str) (r : A) :
  search_at m s = Some (pre, r) -> exists rest, s = pre ++ rest /\ m rest = Some r.
Proof.
  revert pre. induction s as [|c s IH]; intros pre H; cbn [search_at] in H.
  - destruct (m []) as [r0|] eqn:E; [|discriminate].
    inversion H; subst. now exists [].
  - destruct (m (c :: s)) as [r0|] eqn:E.
    + inversion H; subst. now exists (c :: s).
    + destruct (search_at m s) as [[pre' r']|]; [|discriminate].
      inversion H; subst. destruct (IH pre' eq_refl) as [rest [-> Hm]].
      now exists rest.
Qed.

(** The leftmost match is where the first match is. *)
Lemma search_at_first {A : Type} (m : str -> option A) (pre rest : str) (r : A) :
  (forall a b, pre = a ++ b -> b <> [] -> m (b ++ rest) = None) ->
  m rest = Some r ->
  search_at m (pre ++ rest) = Some (pre, r).
Proof.
  induction pre as [|c pre IH]; intros Hn Hm.
  - cbn [app]. destruct rest; cbn [search_at]; now rewrite Hm.
  - cbn [app search_at].
    assert (E : m ((c :: pre) ++ rest) = None)
      by (apply (Hn [] (c :: pre)); [reflexivity | discriminate]).
    cbn [app] in E. rewrite E.
    rewrite IH; auto. intros a b -> Nb. apply (Hn (c :: a) b); auto.
Qed.

Lemma search_at_none {A : Type} (m : str -> option A) (s : str) :
  (forall a b, s = a ++ b -> m b = None) -> search_at m s = None.
Proof.
  induction s as [|c s IH]; intros Hn.
  - cbn [search_at]. now rewrite (Hn [] [] eq_refl).
  - cbn [search_at]. rewrite (Hn [] (c :: s) eq_refl).
    rewrite IH; auto. intros a b ->. apply (Hn (c :: a) b). reflexivity.
Qed.

Lemma take_while_forall (p : ascii -> bool) (s : str) :
  forallb p (take_while p s) = true.
Proof.
  induction s as [|c s IH]; [reflexivity|]. cbn [take_while].
  destruct (p c) eqn:E; [|reflexivity]. cbn [forallb]. now rewrite E, IH.
Qed.

Lemma match_letter_suffix_inv (s r : str) :
  match_letter_suffix s = Some r ->
  exists sep c tail, s = sep :: c :: tail /\ r = [c] /\ is_dash sep = true
                     /\ is_alpha c = true /\ at_eos tail = true.
Proof.
  unfold match_letter_suffix. destruct s as [|c0 [|c1 t]]; try discriminate.
  destruct (is_dash c0 && is_alpha c1 && at_eos t) eqn:E; [|discriminate].
  intros H. inversion H; subst.
  repeat (apply andb_true_iff in E; destruct E as [E ?]).
  exists c0, c1, t. auto.
Qed.

Lemma match_digit_suffix_inv (s r : str) :
  match_digit_suffix s = Some r ->
  exists sep tail, s = sep :: r ++ tail /\ is_dash sep = true /\ r <> []
                   /\ forallb is_digit r = true /\ at_eos tail = true.
Proof.
  unfold match_digit_suffix. destruct s as [|c0 t]; [discriminate|].
  destruct (is_dash c0 && negb (is_empty (take_while is_digit t))
            && at_eos (drop_while is_digit t)) eqn:E; [|discriminate].
  intros H. inversion H; subst.
  repeat (apply andb_true_iff in E; destruct E as [E ?]).
  exists c0, (drop_while is_digit t). rewrite take_drop_while.
  repeat split; auto.
  - destruct (take_while is_digit t); [discriminate | discriminate].
  - apply take_while_forall.
Qed.

Lemma match_letter_digit_suffix_inv (s r : str) :
  match_letter_digit_suffix s = Some r ->
  exists sep c ds tail,
    s = sep :: r ++ tail /\ r = c :: ds /\ is_dash sep = true
    /\ is_alpha c = true /\ ds <> [] /\ forallb is_digit ds = true
    /\ at_eos tail = true.
Proof.
  unfold match_letter_digit_suffix. destruct s as [|c0 [|c1 t]]; try discriminate.
  destruct (is_dash c0 && is_alpha c1 && negb (is_empty (take_while is_digit t))
            && at_eos (drop_while is_digit t)) eqn:E; [|discriminate].
  intros H. inversion H; subst.
  repeat (apply andb_true_iff in E; destruct E as [E ?]).
  exists c0, c1, (take_while is_digit t), (drop_while is_digit t).
  cbn [app]. rewrite take_drop_while. repeat split; auto.
  - destruct (take_while is_digit t); [discriminate | discriminate].
  - apply take_while_forall.
Qed.

End SuffixFacts.

(** X9: what [extract_basename_and_suffix] returns is a split of the name
    without its extension and version marker: the base name, one hyphen or
    underscore, and the suffix, which is a letter, a run of digits, or a
    letter and a run of digits, at the end of the text (or before its final
    line feed); without a suffix the base name is that text whole. *)
Theorem extract_basename_and_suffix_splits (filename : str) :
  let text := fst (Organize.strip_version (fst (OsPath.splitext filename))) in
  let r := Materialize.extract_basename_and_suffix filename in
  match snd r with
  | Some s =>
      exists sep tail,
        text = fst r ++ sep :: s ++ tail
        /\ Materialize.is_dash sep = true
        /\ Re.at_eos tail = true
        /\ s <> []
        /\ (forallb Py.is_digit s = true
            \/ exists c ds, s = c :: ds /\ Py.is_alpha c = true
                            /\ forallb Py.is_digit ds = true)
  | None => fst r = text
  end.
Proof.
  cbv zeta. unfold Materialize.extract_basename_and_suffix.
  destruct (OsPath.splitext filename) as [basename_no_ext ext]. cbn [fst].
  set (text := fst (Organize.strip_version basename_no_ext)).
  destruct (Materialize.search_at Materialize.match_letter_suffix text)
    as [[b s]|] eqn:E1.
  { cbn [fst snd]. apply search_at_inv in E1. destruct E1 as [rest [Ht Hm]].
    apply match_letter_suffix_inv in Hm.
    destruct Hm as [sep [c [tail [-> [-> [Hd [Ha He]]]]]]].
    exists sep, tail. repeat split; auto; [discriminate|].
    right. exists c, []. auto. }
  destruct (Materialize.search_at Materialize.match_digit_suffix text)
    as [[b s]|] eqn:E2.
  { cbn [fst snd]. apply search_at_inv in E2. destruct E2 as [rest [Ht Hm]].
    apply match_digit_suffix_inv in Hm.
    destruct Hm as [sep [tail [-> [Hd [Ns [Hs He]]]]]].
    exists sep, tail. repeat split; auto. }
  destruct (Materialize.search_at Materialize.match_letter_digit_suffix text)
    as [[b s]|] eqn:E3.
  { cbn [fst snd]. apply search_at_inv in E3. destruct E3 as [rest [Ht Hm]].
    apply match_letter_digit_suffix_inv in Hm.
    destruct Hm as [sep [c [ds [tail [-> [-> [Hd [Ha [Ns [Hs He]]]]]]]]]].
    exists sep, tail. repeat split; auto; [discriminate|].
    right. exists c, ds. auto. }
  reflexivity.
Qed.

Section TrailingNumber.
Import Py Re OsPath Organize Materialize.

Lemma dash_not_digit (c : ascii) : is_dash c = true -> is_digit c = false.
Proof. destruct c as [[] [] [] [] [] [] [] []]; vm_compute; congruence. Qed.

Lemma dash_not_alpha (c : ascii) : is_dash c = true -> is_alpha c = false.
Proof. destruct c as [[] [] [] [] [] [] [] []]; vm_compute; congruence. Qed.

Lemma dash_not_newline (c : ascii) : is_dash c = true -> c <> newline.
Proof. intros H ->. discriminate H. Qed.

Lemma dash_not_v (c : ascii) : is_dash c = true -> c <> "v"%char.
Proof. intros H ->. discriminate H. Qed.

Lemma drop_while_app_all (p : ascii -> bool) (x y : str) :
  forallb p x = true -> drop_while p (x ++ y) = drop_while p y.
Proof.
  induction x as [|c x IH]; [reflexivity|]. cbn [forallb app drop_while].
  intros H. apply andb_true_iff in H. destruct H as [-> H]. now apply IH.
Qed.

Lemma forallb_rev {A : Type} (p : A -> bool) (l : list A) :
  forallb p (rev l) = forallb p l.
Proof.
  induction l as [|x l IH]; [reflexivity|]. cbn [rev forallb].
  rewrite forallb_app, IH. cbn [forallb]. rewrite andb_true_r. apply andb_comm.
Qed.

(** Read from its end, a text that ends in a character that is no digit and
    a run of digits shows that character first after the digits. *)
Lemma drop_digits_rev (a d : str) (c : ascii) :
  forallb is_digit d = true -> is_digit c = false ->
  drop_while is_digit (rev (a ++ c :: d)) = c :: rev a.
Proof.
  intros Hd Hc. rewrite rev_app_distr. cbn [rev]. rewrite <- !app_assoc.
  rewrite drop_while_app_all by (now rewrite forallb_rev).
  cbn [app drop_while]. now rewrite Hc.
Qed.

(** The first character, read from the end, of a text that ends with [tail] *)
Lemma drop_digits_rev_tail (a tail : str) (c : ascii) :
  at_eos tail = true -> is_digit c = false ->
  exists x r, drop_while is_digit (rev (a ++ c :: tail)) = x :: r
              /\ (x = c \/ x = newline).
Proof.
  intros He Hc. apply at_eos_inv in He. destruct He as [->| ->].
  - rewrite (drop_digits_rev a [] c eq_refl Hc). eauto.
  - rewrite rev_app_distr. cbn [rev app drop_while].
    change (is_digit newline) with false. cbn iota. eauto.
Qed.

Lemma at_eos_two (x : str) (a b : ascii) (y : str) : at_eos (x ++ a :: b :: y) = false.
Proof. destruct x as [|c [|d x]]; reflexivity. Qed.

Lemma drop_digits_keeps_end (b : str) (sep : ascii) (ds : str) :
  is_digit sep = false ->
  exists x, drop_while is_digit (b ++ sep :: ds) = x ++ sep :: ds.
Proof.
  intros Hs. induction b as [|c b IH]; cbn [app drop_while].
  - rewrite Hs. now exists [].
  - destruct (is_digit c); [exact IH | now exists (c :: b)].
Qed.

(** No version marker ends a text that ends in a separator and digits. *)
Lemma no_marker_after_dash (base : str) (sep : ascii) (ds : str) :
  is_dash sep = true -> forallb is_digit ds = true ->
  strip_version (base ++ sep :: ds) = (base ++ sep :: ds, []).
Proof.
  intros Hsep Hds. unfold strip_version.
  destruct (search_version (base ++ sep :: ds)) as [[pre g]|] eqn:E; [|reflexivity].
  exfalso. apply search_version_inv in E.
  destruct E as [ds' [tail [-> [N' [Hd' [He E]]]]]].
  apply (f_equal (fun s => drop_while is_digit (rev s))) in E.
  rewrite (drop_digits_rev base ds sep Hds (dash_not_digit _ Hsep)) in E.
  apply at_eos_inv in He. destruct He as [->| ->].
  - assert (X : pre ++ ("_"%char :: "v"%char :: ds') ++ []
                = (pre ++ ["_"%char]) ++ "v"%char :: ds')
      by (now rewrite app_nil_r, <- app_assoc).
    rewrite X, (drop_digits_rev _ ds' "v" Hd' eq_refl) in E.
    inversion E. now apply (dash_not_v sep).
  - assert (X : pre ++ ("_"%char :: "v"%char :: ds') ++ [newline]
                = (pre ++ "_"%char :: "v"%char :: ds') ++ newline :: [])
      by (now rewrite <- app_assoc).
    rewrite X, (drop_digits_rev _ [] newline eq_refl eq_refl) in E.
    inversion E. now apply (dash_not_newline sep).
Qed.

Lemma no_letter_suffix_before_digits (base : str) (sep : ascii) (ds : str) :
  is_dash sep = true -> ds <> [] -> forallb is_digit ds = true ->
  search_at match_letter_suffix (base ++ sep :: ds) = None.
Proof.
  intros Hsep Nds Hds. apply search_at_none. intros a b E.
  destruct (match_letter_suffix b) as [r|] eqn:Em; [|reflexivity]. exfalso.
  apply match_letter_suffix_inv in Em.
  destruct Em as [c0 [c [tail [-> [_ [_ [Ha He]]]]]]].
  apply (f_equal (fun s => drop_while is_digit (rev s))) in E.
  rewrite (drop_digits_rev base ds sep Hds (dash_not_digit _ Hsep)) in E.
  assert (X : a ++ c0 :: c :: tail = (a ++ [c0]) ++ c :: tail)
    by (now rewrite <- app_assoc).
  rewrite X in E.
  destruct (drop_digits_rev_tail (a ++ [c0]) tail c He (alpha_not_digit c Ha))
    as [x [r' [Ex Hx]]].
  rewrite Ex in E. inversion E; subst x. destruct Hx as [->| ->].
  - rewrite (dash_not_alpha _ Hsep) in Ha. discriminate.
  - discriminate Hsep.
Qed.

Lemma digit_suffix_found (base : str) (sep : ascii) (ds : str) :
  is_dash sep = true -> ds <> [] -> forallb is_digit ds = true ->
  search_at match_digit_suffix (base ++ sep :: ds) = Some (base, ds).
Proof.
  intros Hsep Nds Hds. apply search_at_first.
  - intros a b -> Nb. destruct b as [|c0 b]; [congruence|].
    cbn [app]. unfold match_digit_suffix.
    destruct (drop_digits_keeps_end b sep ds (dash_not_digit _ Hsep)) as [x ->].
    destruct ds as [|d ds]; [congruence|].
    now rewrite at_eos_two, andb_false_r.
  - unfold match_digit_suffix.
    destruct (take_while_all is_digit ds Hds) as [-> ->].
    rewrite Hsep. destruct ds; [congruence | reflexivity].
Qed.

End TrailingNumber.

(** X10: a hyphen or underscore and a run of digits at the end of a name
    (before its extension) are always taken for the sequence suffix:
    [Uniserve-UNIO22-4.jpg] has the base name [Uniserve-UNIO22] and the
    suffix [4]. *)
Theorem trailing_number_is_suffix (filename base ext : str) (sep : ascii) (ds : str) :
  Materialize.is_dash sep = true ->
  ds <> [] -> forallb Py.is_digit ds = true ->
  OsPath.splitext filename = (base ++ sep :: ds, ext) ->
  Materialize.extract_basename_and_suffix filename = (base, Some ds).
Proof.
  intros Hsep Nds Hds Hx. unfold Materialize.extract_basename_and_suffix.
  rewrite Hx, (no_marker_after_dash base sep ds Hsep Hds). cbn [fst].
  rewrite (no_letter_suffix_before_digits base sep ds Hsep Nds Hds).
  now rewrite (digit_suffix_found base sep ds Hsep Nds Hds).
Qed.

(** The theorem at [Uniserve-UNIO22-4.jpg]. *)
Lemma trailing_number_is_suffix_witness :
  Materialize.extract_basename_and_suffix "Uniserve-UNIO22-4.jpg"
  = (lit "Uniserve-UNIO22", Some (lit "4")).
Proof.
  apply (trailing_number_is_suffix "Uniserve-UNIO22-4.jpg" "Uniserve-UNIO22"
           ".jpg" "-" "4").
  - reflexivity.
  - discriminate.
  - reflexivity.
  - reflexivity.
Defined.

Section FolderCode.
Import Py Re OsPath Organize Consolidate Materialize.

(** A single code is its own representative, or has none. *)
Lemma consolidate_single (code : str) :
  match dict_get str_eqb (consolidate_product_codes [code]) code with
  | Some c => c = code
  | None => True
  end.
Proof.
  unfold consolidate_product_codes, group_codes. cbn [is_nil fold_left].
  unfold group_step. destruct (match_leading_alnum code) as [b|]; [|exact I].
  cbn [dict_append dict_get fold_left consolidate_group snd List.length
       Nat.eqb hd dict_set app].
  now rewrite str_eqb_refl.
Qed.

Lemma determine_single (f code : str) (name variant : option str) (suffix : option str)
    (basename : str) :
  extract_basename_and_suffix f = (basename, suffix) ->
  extract_name_code_variant basename = (name, Some code, variant) ->
  code <> [] ->
  determine_final_product_codes [f] = [(f, code)].
Proof.
  intros Hb He Nc. unfold determine_final_product_codes, collect_codes.
  cbn [fold_left]. rewrite Hb, He.
  assert (Ht : truthy (Some code) = true) by (destruct code; [congruence | reflexivity]).
  rewrite Ht. cbn [existsb app dict_set fold_left].
  pose proof (consolidate_single code) as Hc.
  destruct (dict_get str_eqb (consolidate_product_codes [code]) code) as [c|];
    [subst c|]; reflexivity.
Qed.

End FolderCode.

(** X11: the product folder of a file named [<brand>-<code>-<digits><ext>]
    is the code without the digits: the number is cut off as a sequence
    suffix before the code is read, so the three-token rule that keeps
    [UNIO22-4] together does not reach the folder name. *)
Theorem folder_code_drops_trailing_number
    (filename brand ext ds : str) (toks : list str) :
  Re.fullmatch_alpha brand = true ->
  forallb ExtractSpec.code_token toks = true ->
  ExtractSpec.recoverable toks = true ->
  ds <> [] -> forallb Py.is_digit ds = true ->
  OsPath.splitext filename
  = ((brand ++ lit "-" ++ Py.join "-" toks) ++ "-"%char :: ds, ext) ->
  Materialize.determine_final_product_codes [filename]
  = [(filename, Py.join "-" toks)].
Proof.
  intros Hb Ht Hr Nds Hds Hx.
  apply (determine_single filename (Py.join "-" toks) (Some brand) None (Some ds)
           (brand ++ lit "-" ++ Py.join "-" toks)).
  - now apply (trailing_number_is_suffix filename _ ext "-" ds).
  - now apply brand_code_recovered.
  - destruct toks as [|t1 [|t2 r]]; [discriminate Hr | |].
    + cbn [ExtractSpec.recoverable] in Hr. apply Nat.leb_le in Hr.
      cbn [Py.join]. destruct t1; [cbn in Hr; lia | discriminate].
    + cbn [forallb] in Ht. apply andb_true_iff in Ht. destruct Ht as [H1 _].
      apply code_token_inv in H1. destruct H1 as [N1 _].
      rewrite join_cons2. destruct t1; [congruence | discriminate].
Qed.

(** The theorem at [Uniserve-UNIO22-4.jpg], whose stem is parsed whole into
    the code [UNIO22-4]. *)
Lemma folder_code_drops_trailing_number_witness :
  Materialize.determine_final_product_codes [lit "Uniserve-UNIO22-4.jpg"]
  = [(lit "Uniserve-UNIO22-4.jpg", lit "UNIO22")]
  /\ Organize.extract_name_code_variant "Uniserve-UNIO22-4"
     = (Some (lit "Uniserve"), Some (lit "UNIO22-4"), None).
Proof.
  split; [|reflexivity].
  apply (folder_code_drops_trailing_number "Uniserve-UNIO22-4.jpg" "Uniserve"
           ".jpg" "4" [lit "UNIO22"]); try reflexivity. discriminate.
Defined.

(** ** [organize.py]: the table of [consolidate_product_codes] *)
Section ConsolidateTable.
Import Py Re Organize Consolidate ConsolidateSpec.

Lemma consolidate_fold_other (c : str) (gs : list (str * list str))
    (d : list (str * str)) :
  (forall g, In g gs -> ~ In c (snd g)) ->
  dict_get str_eqb (fold_left consolidate_group gs d) c = dict_get str_eqb d c.
Proof.
  revert d. induction gs as [|g gs IH]; intros d H; [reflexivity|].
  cbn [fold_left]. rewrite IH by (intros g' Hg'; apply H; now right).
  rewrite consolidate_group_get.
  destruct (existsb (str_eqb c) (snd g)) eqn:E; [|reflexivity].
  exfalso. apply existsb_str_eqb in E. apply (H g); [now left | exact E].
Qed.

(** A code that is not among the codes, or that does not start with a letter
    or a digit, has no entry. *)
Lemma consolidate_no_entry (codes : list str) (c : str) :
  ~ In c codes \/ match_leading_alnum c = None ->
  dict_get str_eqb (consolidate_product_codes codes) c = None.
Proof.
  intros H. unfold consolidate_product_codes.
  destruct (is_nil codes); [reflexivity|].
  rewrite consolidate_fold_other; [reflexivity|].
  intros [b g] Hg Hc. cbn [snd] in Hc.
  apply group_codes_entry in Hg. subst g. unfold group_of in Hc.
  apply filter_In in Hc. destruct Hc as [Hin Hb].
  destruct H as [H|H]; [contradiction|].
  unfold same_base in Hb. rewrite H in Hb. discriminate.
Qed.

End ConsolidateTable.

(** X12: the table of [consolidate_product_codes] has an entry exactly for
    the given codes that start with a letter or a digit; the code that stands
    for a code is a given code with the same leading run of letters and
    digits, and it stands for itself, so the table applied twice is the
    table applied once. *)
Theorem consolidate_table_closed (codes : list str) (c : str) :
  (Py.dict_get Py.str_eqb (Consolidate.consolidate_product_codes codes) c = None
   <-> (~ In c codes \/ Re.match_leading_alnum c = None))
  /\ (forall r,
        Py.dict_get Py.str_eqb (Consolidate.consolidate_product_codes codes) c
        = Some r ->
        In r codes
        /\ Re.match_leading_alnum r = Re.match_leading_alnum c
        /\ Py.dict_get Py.str_eqb (Consolidate.consolidate_product_codes codes) r
           = Some r).
Proof.
  assert (Hget : forall b, In c codes -> Re.match_leading_alnum c = Some b ->
            exists r,
              Py.dict_get Py.str_eqb (Consolidate.consolidate_product_codes codes) c
              = Some r
              /\ In r codes /\ Re.match_leading_alnum r = Some b
              /\ Py.dict_get Py.str_eqb
                   (Consolidate.consolidate_product_codes codes) r = Some r).
  { intros b Hin Hb.
    assert (Hg : In c (ConsolidateSpec.group_of b codes)).
    { apply filter_In. split; auto. now apply same_base_iff. }
    assert (Ng : ConsolidateSpec.group_of b codes <> [])
      by (intros E; rewrite E in Hg; exact Hg).
    destruct (representative_least _ Ng) as [Hr _].
    apply filter_In in Hr. destruct Hr as [Hr1 Hr2]. apply same_base_iff in Hr2.
    exists (Consolidate.representative (ConsolidateSpec.group_of b codes)).
    split; [now apply consolidate_get|]. split; [exact Hr1|]. split; [exact Hr2|].
    now apply consolidate_get. }
  split.
  - split; [|apply consolidate_no_entry].
    intros Hn. destruct (in_dec (list_eq_dec ascii_dec) c codes) as [Hin|Hin];
      [|now left].
    destruct (Re.match_leading_alnum c) as [b|] eqn:Hb; [|now right].
    destruct (Hget b Hin eq_refl) as [r [Hr _]]. congruence.
  - intros r Hr.
    destruct (in_dec (list_eq_dec ascii_dec) c codes) as [Hin|Hin].
    2:{ rewrite consolidate_no_entry in Hr by (now left). discriminate. }
    destruct (Re.match_leading_alnum c) as [b|] eqn:Hb.
    2:{ rewrite consolidate_no_entry in Hr by (now right). discriminate. }
    destruct (Hget b Hin eq_refl) as [r' [Hr' [H1 [H2 H3]]]].
    rewrite Hr in Hr'. inversion Hr'; subst r'. auto.
Qed.

(** The theorem at three codes, one of which starts with a dot. *)
Lemma consolidate_table_closed_witness :
  let codes := [lit "A1"; lit ".5"; lit "A1-20"] in
  Py.dict_get Py.str_eqb (Consolidate.consolidate_product_codes codes) ".5" = None
  /\ Py.dict_get Py.str_eqb (Consolidate.consolidate_product_codes codes) "A1-20"
     = Some (lit "A1-20").
Proof.
  intros codes.
  destruct (consolidate_table_closed codes ".5") as [[_ H1] _].
  destruct (consolidate_table_closed codes "A1") as [_ H2].
  split.
  - apply H1. now right.
  - apply (H2 "A1-20"). reflexivity.
Defined.

(** ** [organize.py]: a second run *)
Section SecondRun.
Import Py Re OsPath Organize Fs FrameSpec Materialize.
Variable clock : nat -> str.

Lemma dict_set_same {V : Type} (d : list (str * V)) (k : str) (v : V) :
  dict_get str_eqb d k = Some v -> dict_set str_eqb d k v = d.
Proof.
  induction d as [|[k' v'] d IH]; [discriminate|]. cbn [dict_get dict_set].
  destruct (str_eqb k k') eqn:E.
  - intros H. inversion H; subst. reflexivity.
  - intros H. now rewrite IH.
Qed.

(** [os.makedirs(p, exist_ok=True)] on a directory that is there changes
    nothing. *)
Lemma makedirs_existing (fs : node) (p : path) :
  isdir fs p = true -> makedirs fs p = Some fs.
Proof.
  unfold isdir. revert fs. induction p as [|c p IH]; intros fs H.
  - destruct fs; [discriminate | reflexivity].
  - destruct fs as [j m|es]; [discriminate|]. cbn [lookup] in H.
    cbn [makedirs]. destruct (dict_get str_eqb es c) as [ch|] eqn:E; [|discriminate].
    rewrite (IH ch H). now rewrite dict_set_same.
Qed.

Lemma isdir_prefix (fs : node) (p r : path) :
  isdir fs (p ++ r) = true -> isdir fs p = true.
Proof.
  unfold isdir. rewrite lookup_app.
  destruct (lookup fs p) as [[j m|es]|]; try discriminate; auto.
  destruct r; discriminate.
Qed.

Lemma with_tree_same (st : state) : with_tree st (tree st) = st.
Proof. now destruct st. Qed.

Lemma make_category_folders_existing (st : state) (parts : list str) (target : path) :
  running st = true -> isdir (tree st) (target ++ parts) = true ->
  make_category_folders st target parts = (st, target ++ parts).
Proof.
  intros Hr. unfold make_category_folders.
  revert target. induction parts as [|part parts IH]; intros target H.
  - cbn. now rewrite app_nil_r.
  - cbn [fold_left].
    assert (H' : isdir (tree st) ((target ++ [part]) ++ parts) = true)
      by (now rewrite <- app_assoc).
    assert (E : do_makedirs st (target ++ [part]) = st).
    { unfold do_makedirs. rewrite Hr. cbn [negb].
      rewrite (makedirs_existing _ _ (isdir_prefix _ _ _ H')).
      apply with_tree_same. }
    rewrite E, (IH _ H'). now rewrite <- app_assoc.
Qed.

Lemma makedirs_empty (r : path) :
  exists t, makedirs (Dir []) r = Some t /\ lookup t r = Some (Dir []).
Proof.
  induction r as [|c r IH]; [now exists (Dir [])|].
  destruct IH as [t [Hm Hl]]. cbn [makedirs dict_get]. rewrite Hm.
  eexists. split; [reflexivity|]. cbn [dict_set lookup dict_get].
  now rewrite str_eqb_refl.
Qed.

(** The creation of a path whose first missing component lies in a
    directory succeeds and ends in an empty directory. *)
Lemma makedirs_fresh (fs : node) (p : path) (c : str) (r : path) :
  isdir fs p = true -> lookup fs (p ++ [c]) = None ->
  exists t, makedirs fs ((p ++ [c]) ++ r) = Some t
            /\ lookup t ((p ++ [c]) ++ r) = Some (Dir []).
Proof.
  unfold isdir. revert fs. induction p as [|d p IH]; intros fs Hd Hn.
  - destruct fs as [j m|es]; [discriminate|]. cbn [app lookup] in *.
    destruct (dict_get str_eqb es c) as [ch|] eqn:E; [discriminate|].
    destruct (makedirs_empty r) as [t [Hm Hl]].
    cbn [makedirs]. rewrite E, Hm. eexists. split; [reflexivity|].
    cbn [lookup]. now rewrite dict_get_set_same.
  - destruct fs as [j m|es]; [discriminate|]. cbn [app lookup] in *.
    destruct (dict_get str_eqb es d) as [ch|] eqn:E; [|discriminate].
    destruct (IH ch Hd Hn) as [t [Hm Hl]].
    cbn [makedirs]. rewrite E, Hm. eexists. split; [reflexivity|].
    cbn [lookup]. now rewrite dict_get_set_same.
Qed.

Lemma same_asset_refl (f : str) : same_asset f f = true.
Proof. unfold same_asset. now rewrite str_eqb_refl. Qed.

(** The duplicate test finds the file itself when no other file of the
    folder is a variant of it. *)
Lemma finds_itself (fs : node) (d : path) (filename : str) (i : nat) (m : Z) :
  file_at fs (d ++ [filename]) i m ->
  (forall e, In e (listdir fs d) -> isfile fs (d ++ [e]) = true ->
             same_asset filename e = true -> e = filename) ->
  find_existing_file_variant fs d filename = Some (d ++ [filename]).
Proof.
  intros Hf Hv. unfold find_existing_file_variant.
  assert (Hd : isdir fs d = true)
    by (eapply file_at_prefix_isdir; [exact Hf | discriminate]).
  assert (He : exists_ fs d = true).
  { unfold exists_. unfold isdir in Hd. destruct (lookup fs d); [reflexivity | discriminate]. }
  rewrite He. cbn [negb].
  assert (Hi : isfile fs (d ++ [filename]) = true).
  { unfold isfile. unfold file_at in Hf. now rewrite Hf. }
  assert (Hin : In filename (listdir fs d)).
  { apply exists_in_listdir. unfold exists_. unfold file_at in Hf. now rewrite Hf. }
  destruct (find _ (listdir fs d)) as [e|] eqn:E.
  - apply find_some in E. destruct E as [E1 E2].
    apply andb_true_iff in E2. destruct E2 as [E2 E3].
    now rewrite (Hv e E1 E2 E3).
  - exfalso. pose proof (find_none _ _ E filename Hin) as N. cbn beta in N.
    now rewrite Hi, same_asset_refl in N.
Qed.

End SecondRun.

(** X13: the organizer is not idempotent.  A file that is already in its
    category folder is matched by the duplicate test against itself: when
    the run comes to it again, and no other file of the folder is a variant
    of it, the file is moved to [Old Images] under its [_replaced_] name, and
    nothing is left at its place. *)
Theorem second_run_quarantines_placed_file
    (clock : nat -> str) (st : Materialize.state)
    (target_folder : Fs.path) (filename : str) (i : nat) (m : Z) :
  let parts :=
    Materialize.category_parts (Materialize.get_file_category filename) in
  let folder := target_folder ++ parts in
  let quarantine := (target_folder ++ [lit "Old Images"]) ++ parts in
  let new_name :=
    Materialize.replaced_name filename (clock (Materialize.stamps st)) in
  Materialize.running st = true ->
  FrameSpec.file_at (Materialize.tree st) (folder ++ [filename]) i m ->
  Materialize.find_file_path (Materialize.tree st) filename
  = Some (folder ++ [filename]) ->
  (forall e, In e (Fs.listdir (Materialize.tree st) folder) ->
             Fs.isfile (Materialize.tree st) (folder ++ [e]) = true ->
             Materialize.same_asset filename e = true -> e = filename) ->
  Fs.lookup (Materialize.tree st) (target_folder ++ [lit "Old Images"]) = None ->
  let st' := Materialize.place_file clock target_folder st filename in
  Materialize.running st' = true
  /\ Fs.lookup (Materialize.tree st') (folder ++ [filename]) = None
  /\ FrameSpec.file_at (Materialize.tree st') (quarantine ++ [new_name]) i m.
Proof.
  intros parts folder quarantine new_name Hrun Hfile Hpath Hvar Hoi st'.
  assert (Hfolder : Fs.isdir (Materialize.tree st) folder = true)
    by (eapply file_at_prefix_isdir; [exact Hfile | discriminate]).
  assert (Htarget : Fs.isdir (Materialize.tree st) target_folder = true)
    by (exact (isdir_prefix _ _ _ Hfolder)).
  destruct (makedirs_fresh (Materialize.tree st) target_folder (lit "Old Images")
              parts Htarget Hoi) as [t [Hmk Hempty]].
  fold quarantine in Hmk, Hempty.
  assert (Hq : Fs.exists_ (Materialize.tree st) quarantine = false).
  { unfold Fs.exists_, quarantine. now rewrite lookup_app, Hoi. }
  assert (Hfile_t : FrameSpec.file_at t (folder ++ [filename]) i m)
    by (eapply makedirs_keeps_files; eauto).
  assert (Hdir_t : Fs.isdir t quarantine = true)
    by (unfold Fs.isdir; now rewrite Hempty).
  assert (Hfree : Fs.lookup t (quarantine ++ [new_name]) = None)
    by (now rewrite lookup_app, Hempty).
  destruct (move_file_into_dir t (folder ++ [filename]) quarantine new_name i m
              Hfile_t Hdir_t Hfree) as [fs' [Hmove [Hnew Hgone]]].
  assert (E : st' = Materialize.mk_state fs' (S (Materialize.stamps st))
                      (Materialize.stat st)).
  { unfold st', Materialize.place_file. rewrite Hrun. cbn [negb]. rewrite Hpath.
    fold parts.
    rewrite (make_category_folders_existing st parts target_folder Hrun Hfolder).
    rewrite Hrun. cbn [negb]. fold folder.
    rewrite (finds_itself _ folder filename i m Hfile Hvar).
    unfold Materialize.create_old_images_folder. fold parts. fold quarantine.
    rewrite Hq. unfold Materialize.do_makedirs. rewrite Hrun. cbn [negb].
    rewrite Hmk. unfold Materialize.handle_existing_file.
    assert (Hrun_t : Materialize.running (Materialize.with_tree st t) = true)
      by exact Hrun.
    rewrite Hrun_t. cbn [negb].
    unfold Fs.basename. rewrite last_last.
    cbn [Materialize.tree Materialize.stamps Materialize.stat Materialize.with_tree].
    fold new_name. rewrite Hmove.
    assert (Hrun' : Materialize.running
                      (Materialize.mk_state fs' (S (Materialize.stamps st))
                         (Materialize.stat st)) = true) by exact Hrun.
    rewrite Hrun'. cbn [negb].
    assert (Hp : Fs.path_eqb (folder ++ [filename]) (folder ++ [filename]) = true)
      by (now apply path_eqb_eq).
    now rewrite Hp. }
  rewrite E. cbn [Materialize.tree]. repeat split; auto.
Qed.

(** The theorem at the tree that a first run leaves for [Widget-A100.jpg]. *)
Lemma second_run_quarantines_placed_file_witness :
  let st := Materialize.mk_state
              (Fs.Dir [(lit "Widget",
                        Fs.Dir [(lit "A100",
                          Fs.Dir [(lit "JPEG",
                            Fs.Dir [(lit "Widget-A100.jpg", Fs.File 1 10)])])])])
              0 Materialize.Normal in
  let st' := Materialize.place_file (fun _ => lit "T")
               [lit "Widget"; lit "A100"] st "Widget-A100.jpg" in
  Fs.lookup (Materialize.tree st')
    [lit "Widget"; lit "A100"; lit "JPEG"; lit "Widget-A100.jpg"] = None
  /\ FrameSpec.file_at (Materialize.tree st')
       [lit "Widget"; lit "A100"; lit "Old Images"; lit "JPEG";
        lit "Widget-A100_replaced_T.jpg"] 1 10.
Proof.
  intros st st'.
  destruct (second_run_quarantines_placed_file (fun _ => lit "T") st
              [lit "Widget"; lit "A100"] "Widget-A100.jpg" 1 10%Z)
    as [_ [H1 H2]].
  - reflexivity.
  - reflexivity.
  - reflexivity.
  - intros e [<-|[]] _ _. reflexivity.
  - reflexivity.
  - split; [exact H1 | exact H2].
Defined.

(** ** [split.py] and [organize.py]: the versions of a name *)
Section VersionFacts.
Import Py Re OsPath Organize Materialize Split Classify.

Lemma uint_digits (d : Decimal.uint) :
  forallb is_digit (lit (DecimalString.NilEmpty.string_of_uint d)) = true.
Proof. induction d; cbn; auto. Qed.

(** [str(n)] is a run of digits, and not empty. *)
Lemma str_of_nat_digits (n : nat) :
  forallb is_digit (str_of_nat n) = true /\ str_of_nat n <> [].
Proof.
  unfold str_of_nat. pose proof (to_uint_not_nil n) as N.
  destruct (Nat.to_uint n) as [|d|d|d|d|d|d|d|d|d|d] eqn:E;
    try congruence;
    (split; [|discriminate]);
    unfold DecimalString.NilZero.string_of_uint;
    apply uint_digits.
Qed.

Lemma contains_sub_version (c : ascii) (s : str) :
  contains c s = false -> contains c (sub_version s) = false.
Proof.
  induction s as [|x s IH]; intros H.
  - cbn. destruct (match_version_here []); reflexivity.
  - cbn [sub_version]. destruct (match_version_here (x :: s)) as [g|].
    + now apply contains_skipn.
    + change (Ascii.eqb c x || contains c s = false) in H.
      apply orb_false_iff in H. destruct H as [H1 H2].
      change (Ascii.eqb c x || contains c (sub_version s) = false).
      now rewrite H1, IH.
Qed.

(** A name whose only dot, if any, is its first character has no
    extension. *)
Lemma splitext_no_inner_dot (x : str) :
  contains "." (skipn 1 x) = false -> splitext x = (x, []).
Proof.
  intros H. unfold splitext. destruct x as [|c t]; [reflexivity|].
  cbn [skipn] in H. apply rfind_none in H. cbn [rfind]. rewrite H.
  destruct (Ascii.eqb c "."); [|reflexivity].
  rewrite Nat.sub_0_l. cbn [firstn existsb]. now rewrite andb_false_r.
Qed.

Lemma endswith_dot (a : str) : endswith (a ++ ["."%char]) "." = true.
Proof.
  unfold endswith. rewrite rev_app_distr. cbn. reflexivity.
Qed.

(** The two shapes of a name that does not end in a dot: without suffix,
    its only dot, if any, the first character; or with a suffix that starts
    at its last dot. *)
Lemma name_shape (name : str) :
  endswith name "." = false ->
  (suffix name = [] /\ stem name = name /\ contains "." (skipn 1 name) = false)
  \/ (exists e', suffix name = "."%char :: e' /\ contains "." e' = false
                 /\ e' = skipn (S (List.length (stem name))) name).
Proof.
  intros He. unfold suffix, stem.
  destruct (rfind "." name) as [i|] eqn:E.
  - destruct (rfind_split "." name i E) as [Hs Hn].
    pose proof (rfind_lt "." name i E) as Hlt.
    destruct ((0 <? i) && (i <? List.length name - 1)) eqn:Eb.
    + right. exists (skipn (S i) name).
      apply andb_true_iff in Eb. destruct Eb as [E1 E2].
      apply Nat.ltb_lt in E1, E2.
      assert (Hl : List.length (firstn i name) = i)
        by (rewrite length_firstn; lia).
      split; [|split].
      * rewrite Hs at 1. rewrite skipn_app, Hl, Nat.sub_diag.
        rewrite skipn_all2 by lia. reflexivity.
      * now apply rfind_none.
      * now rewrite Hl.
    + left. split; [reflexivity|]. split; [reflexivity|].
      apply andb_false_iff in Eb. destruct Eb as [Eb|Eb].
      * apply Nat.ltb_ge in Eb. assert (i = 0) by lia. subst i.
        now apply rfind_none.
      * apply Nat.ltb_ge in Eb. exfalso.
        assert (Hend : skipn (S i) name = []) by (apply skipn_all2; lia).
        rewrite Hend in Hs. rewrite Hs, endswith_dot in He. discriminate.
  - left. split; [reflexivity|]. split; [reflexivity|].
    apply contains_skipn. now apply rfind_none.
Qed.

Lemma sub_version_dot (s : str) :
  contains "." (skipn 1 s) = false -> contains "." (skipn 1 (sub_version s)) = false.
Proof.
  intros H. destruct s as [|c t]; [cbn; destruct (match_version_here []); reflexivity|].
  cbn [skipn] in H. cbn [sub_version].
  destruct (match_version_here (c :: t)) as [g|] eqn:E.
  - apply match_version_here_inv in E.
    destruct E as [ds [tail [-> [_ [_ [_ E]]]]]].
    injection E as Ec Et. subst c. do 2 apply contains_skipn.
    change (false || contains "." t = false). exact H.
  - cbn [skipn]. now apply contains_sub_version.
Qed.

(** The key of a versioned name: the number is not in it. *)
Lemma normalize_versioned (name : str) (n : nat) :
  contains "/" name = false -> endswith name "." = false ->
  normalize_filename (versioned_name name n)
  = lower (strip (remove_seps (sub_version (stem name)))) ++ lower (suffix name).
Proof.
  intros Hs He. unfold versioned_name.
  destruct (str_of_nat_digits n) as [Hd Nd].
  set (s := sub_version (stem name)). set (N := str_of_nat n) in *.
  assert (Hmark : strip_version (s ++ "_"%char :: "v"%char :: N) = (s, "_"%char :: "v"%char :: N)).
  { unfold strip_version.
    pose proof (search_version_marker s N [] Nd Hd eq_refl) as H.
    rewrite app_nil_r in H. now rewrite H. }
  destruct (name_shape name He) as [[E1 [E2 E3]]|[e' [E1 [E2 E3]]]].
  - rewrite E1, app_nil_r. change (lit "_v" ++ N) with ("_"%char :: "v"%char :: N).
    unfold normalize_filename. rewrite splitext_no_inner_dot.
    + now rewrite Hmark.
    + assert (Hs' : contains "." (skipn 1 s) = false).
      { unfold s. rewrite E2. now apply sub_version_dot. }
      destruct s as [|c t]; cbn [app skipn] in *.
      * apply (proj2 (digits_no_slash_dot N Hd)).
      * rewrite contains_app, Hs'. cbn [orb].
        apply (proj2 (digits_no_slash_dot N Hd)).
  - rewrite E1.
    assert (X : s ++ lit "_v" ++ N ++ "."%char :: e'
                = (s ++ "_"%char :: "v"%char :: N) ++ "."%char :: e')
      by (now rewrite <- app_assoc).
    rewrite X. unfold normalize_filename. rewrite splitext_app.
    + assert (Hnd : existsb not_dot
                      (skipn (name_start (s ++ "_"%char :: "v"%char :: N))
                             (s ++ "_"%char :: "v"%char :: N)) = true)
        by (apply marker_not_dot; exact Hd).
      rewrite Hnd, Hmark. reflexivity.
    + exact E2.
    + rewrite E3. now apply contains_skipn.
Qed.

End VersionFacts.

(** X14: the versions that [split.py] makes of a name have one normalized
    key in [organize.py], whatever their numbers, so the duplicate test of
    the organizer takes each for a variant of the others. *)
Theorem versions_share_key (name : str) (n k : nat) :
  Py.contains "/" name = false ->
  Py.endswith name "." = false ->
  Organize.normalize_filename (Split.versioned_name name n)
  = Organize.normalize_filename (Split.versioned_name name k)
  /\ Materialize.same_asset (Split.versioned_name name n)
                            (Split.versioned_name name k) = true.
Proof.
  intros Hs He.
  assert (E : Organize.normalize_filename (Split.versioned_name name n)
              = Organize.normalize_filename (Split.versioned_name name k))
    by (now rewrite !normalize_versioned).
  split; [exact E|]. unfold Materialize.same_asset. rewrite E.
  now rewrite str_eqb_refl.
Qed.

(** The theorem at [a-b.jpg], versions 1 and 12. *)
Lemma versions_share_key_witness :
  Materialize.same_asset (Split.versioned_name "a-b.jpg" 1)
                         (Split.versioned_name "a-b.jpg" 12) = true.
Proof.
  apply (versions_share_key "a-b.jpg" 1 12); reflexivity.
Defined.

Section Reversion.
Import Py Re OsPath Organize Split Classify.

Lemma search_bool_app (m : str -> bool) (pre rest : str) :
  m rest = true -> search_bool m (pre ++ rest) = true.
Proof.
  intros H. induction pre as [|c pre IH]; cbn [app].
  - destruct rest; cbn [search_bool]; now rewrite H.
  - cbn [search_bool]. rewrite IH. apply orb_true_r.
Qed.

(** [re.sub] cuts a marker at the end of a text off. *)
Lemma sub_version_marker (pre ds : str) :
  ds <> [] -> forallb is_digit ds = true ->
  sub_version (pre ++ "_"%char :: "v"%char :: ds) = pre.
Proof.
  intros N H. induction pre as [|a x IH].
  - cbn [app]. pose proof (match_version_here_marker ds [] N H eq_refl) as E.
    rewrite app_nil_r in E.
    assert (X : sub_version ("_"%char :: "v"%char :: ds)
                = skipn (List.length ("_"%char :: "v"%char :: ds))
                        ("_"%char :: "v"%char :: ds)).
    { cbn [sub_version]. now rewrite E. }
    rewrite X. apply skipn_all.
  - cbn [app sub_version].
    pose proof (match_version_here_before a x ds []) as E.
    rewrite app_nil_r in E. rewrite E. now rewrite IH.
Qed.

Lemma no_inner_dot_no_suffix (x : str) :
  contains "." (skipn 1 x) = false -> suffix x = [] /\ stem x = x.
Proof.
  intros H. unfold suffix, stem. destruct x as [|c t]; [split; reflexivity|].
  cbn [skipn] in H. apply rfind_none in H. cbn [rfind]. rewrite H.
  destruct (Ascii.eqb c "."); split; reflexivity.
Qed.

Lemma suffix_after_dot (r e' : str) :
  r <> [] -> e' <> [] -> contains "." e' = false ->
  suffix (r ++ "."%char :: e') = "."%char :: e'
  /\ stem (r ++ "."%char :: e') = r.
Proof.
  intros Nr Ne Hd. unfold suffix, stem.
  assert (E : rfind "." (r ++ "."%char :: e') = Some (List.length r)).
  { rewrite rfind_app. cbn [rfind]. apply rfind_none in Hd. rewrite Hd.
    cbn. now rewrite Nat.add_0_r. }
  rewrite E.
  assert (B : (0 <? List.length r)
              && (List.length r <? List.length (r ++ "."%char :: e') - 1) = true).
  { apply andb_true_iff. rewrite !Nat.ltb_lt, length_app. cbn [List.length].
    destruct r; [congruence|]. destruct e'; [congruence|]. cbn [List.length]. lia. }
  rewrite B. split.
  - rewrite skipn_app, Nat.sub_diag, skipn_all. reflexivity.
  - rewrite firstn_app, Nat.sub_diag, firstn_all. cbn [firstn].
    now rewrite app_nil_r.
Qed.

(** Stem and suffix of a versioned name *)
Lemma versioned_parts (name : str) (n : nat) :
  endswith name "." = false ->
  stem (versioned_name name n)
  = sub_version (stem name) ++ "_"%char :: "v"%char :: str_of_nat n
  /\ suffix (versioned_name name n) = suffix name.
Proof.
  intros He. unfold versioned_name.
  destruct (str_of_nat_digits n) as [Hd Nd].
  set (s := sub_version (stem name)). set (N := str_of_nat n) in *.
  destruct (name_shape name He) as [[E1 [E2 E3]]|[e' [E1 [E2 E3]]]].
  - rewrite E1, app_nil_r.
    change (lit "_v" ++ N) with ("_"%char :: "v"%char :: N).
    destruct (no_inner_dot_no_suffix (s ++ "_"%char :: "v"%char :: N)) as [H1 H2].
    + assert (Hs' : contains "." (skipn 1 s) = false).
      { unfold s. rewrite E2. now apply sub_version_dot. }
      destruct s as [|c t]; cbn [app skipn] in *.
      * apply (proj2 (digits_no_slash_dot N Hd)).
      * rewrite contains_app, Hs'. cbn [orb].
        apply (proj2 (digits_no_slash_dot N Hd)).
    + now rewrite H1, H2.
  - rewrite E1.
    assert (X : s ++ lit "_v" ++ N ++ "."%char :: e'
                = (s ++ "_"%char :: "v"%char :: N) ++ "."%char :: e')
      by (now rewrite <- app_assoc).
    rewrite X. apply and_comm. apply suffix_after_dot; auto.
    + destruct s; discriminate.
    + intros ->. unfold suffix in E1.
      destruct (rfind "." name) as [i|] eqn:Er; [|discriminate].
      destruct ((0 <? i) && (i <? List.length name - 1)) eqn:Eb; [|discriminate].
      apply andb_true_iff in Eb. destruct Eb as [_ Eb]. apply Nat.ltb_lt in Eb.
      apply (f_equal (@List.length ascii)) in E1.
      rewrite length_skipn in E1. cbn in E1. lia.
Qed.

End Reversion.

(** X15: a name that [get_versioned_filename] makes is recognised by
    [is_versioned_file]; and, for a name that does not end in a dot, giving a
    versioned name a new version replaces its number: the markers do not
    pile up. *)
Theorem versioned_name_is_versioned (name : str) (n k : nat) :
  Classify.is_versioned_file (Split.versioned_name name n) = true
  /\ (Py.endswith name "." = false ->
      Split.versioned_name (Split.versioned_name name n) k
      = Split.versioned_name name k).
Proof.
  split.
  - unfold Classify.is_versioned_file, Split.versioned_name.
    apply search_bool_app. destruct (str_of_nat_digits n) as [Hd Nd].
    destruct (Py.str_of_nat n) as [|d N]; [congruence|].
    cbn [forallb] in Hd. apply andb_true_iff in Hd. destruct Hd as [Hd _].
    cbn. now rewrite Hd.
  - intros He. destruct (versioned_parts name n He) as [H1 H2].
    destruct (str_of_nat_digits n) as [Hd Nd].
    unfold Split.versioned_name at 1. rewrite H1, H2.
    now rewrite (sub_version_marker _ _ Nd Hd).
Qed.

(** The theorem at [report_v1.txt], which becomes [report_v2.txt]. *)
Lemma versioned_name_is_versioned_witness :
  Split.versioned_name (Split.versioned_name "report.txt" 1) 2
  = Split.versioned_name "report.txt" 2.
Proof.
  apply (versioned_name_is_versioned "report.txt" 1 2). reflexivity.
Defined.

Section SequenceSuffix.
Import Py Re OsPath Organize Split Classify.

Lemma suffix_not_empty_tail (name e' : str) :
  suffix name = "."%char :: e' -> e' <> [].
Proof.
  intros E1 ->. unfold suffix in E1.
  destruct (rfind "." name) as [i|] eqn:Er; [|discriminate].
  destruct ((0 <? i) && (i <? List.length name - 1)) eqn:Eb; [|discriminate].
  apply andb_true_iff in Eb. destruct Eb as [_ Eb]. apply Nat.ltb_lt in Eb.
  apply (f_equal (@List.length ascii)) in E1.
  rewrite length_skipn in E1. cbn in E1. lia.
Qed.

Lemma stem_suffix (name : str) : stem name ++ suffix name = name.
Proof.
  unfold stem, suffix. destruct (rfind "." name) as [i|]; [|apply app_nil_r].
  destruct ((0 <? i) && (i <? List.length name - 1)); [|apply app_nil_r].
  apply firstn_skipn.
Qed.

(** Stem and suffix of a name with [-0] put before its suffix *)
Lemma sequenced_parts (name : str) :
  endswith name "." = false ->
  stem (stem name ++ lit "-0" ++ suffix name) = stem name ++ lit "-0"
  /\ suffix (stem name ++ lit "-0" ++ suffix name) = suffix name.
Proof.
  intros He.
  destruct (name_shape name He) as [[E1 [E2 E3]]|[e' [E1 [E2 E3]]]].
  - rewrite E1, app_nil_r, E2.
    destruct (no_inner_dot_no_suffix (name ++ lit "-0")) as [H1 H2].
    + destruct name as [|c t]; [reflexivity|]. cbn [app skipn] in *.
      rewrite contains_app, E3. reflexivity.
    + now rewrite H1, H2.
  - rewrite E1.
    assert (X : stem name ++ lit "-0" ++ "."%char :: e'
                = (stem name ++ lit "-0") ++ "."%char :: e')
      by (now rewrite <- app_assoc).
    rewrite X. apply and_comm. apply suffix_after_dot; auto.
    + destruct (stem name); discriminate.
    + exact (suffix_not_empty_tail name e' E1).
Qed.

End SequenceSuffix.

(** X16: for a name that does not end in a dot, what
    [ensure_sequence_suffix] returns has a sequence suffix, with the suffix
    of the name kept, and is returned as it is when given again. *)
Theorem ensure_sequence_suffix_ensures (name : str) :
  Py.endswith name "." = false ->
  Classify.has_sequence_suffix (Classify.ensure_sequence_suffix name) = true
  /\ Split.suffix (Classify.ensure_sequence_suffix name) = Split.suffix name
  /\ Classify.ensure_sequence_suffix (Classify.ensure_sequence_suffix name)
     = Classify.ensure_sequence_suffix name.
Proof.
  intros He.
  assert (H : Classify.has_sequence_suffix (Classify.ensure_sequence_suffix name)
              = true
              /\ Split.suffix (Classify.ensure_sequence_suffix name)
                 = Split.suffix name).
  { unfold Classify.ensure_sequence_suffix.
    destruct (Classify.has_sequence_suffix name) eqn:E; [now split|].
    destruct (sequenced_parts name He) as [H1 H2]. split; [|exact H2].
    unfold Classify.has_sequence_suffix. rewrite H1.
    apply search_bool_app. reflexivity. }
  destruct H as [H1 H2]. repeat split; auto.
  unfold Classify.ensure_sequence_suffix at 1. now rewrite H1.
Qed.

(** The theorem at [photo.jpg], which becomes [photo-0.jpg]. *)
Lemma ensure_sequence_suffix_ensures_witness :
  Classify.ensure_sequence_suffix "photo.jpg" = "photo-0.jpg"
  /\ Classify.has_sequence_suffix (Classify.ensure_sequence_suffix "photo.jpg")
     = true.
Proof.
  split; [reflexivity|].
  apply (ensure_sequence_suffix_ensures "photo.jpg"). reflexivity.
Defined.

Section PlainParts.
Import Py Re Organize ExtractSpec PartsSpec.
















End PlainParts.


Section ReturnedPath.
Import Py Re Fs FrameSpec Split.

Variable dir_mtime : path -> Z.

Lemma insert_sorted_last {A : Type} (leb : A -> A -> bool) (a x : A) (l : list A) :
  leb a x = true ->
  insert_sorted leb a (l ++ [x]) = insert_sorted leb a l ++ [x].
Proof.
  intros H. induction l as [|y l IH]; cbn [app insert_sorted].
  - now rewrite H.
  - destruct (leb a y); [reflexivity|]. now rewrite IH.
Qed.

(** An element that the order puts after every other stays last. *)
Lemma sorted_last {A : Type} (leb : A -> A -> bool) (l : list A) (x : A) :
  (forall y, In y l -> leb y x = true) ->
  sorted leb (l ++ [x]) = sorted leb l ++ [x].
Proof.
  induction l as [|a l IH]; intros H; [reflexivity|].
  cbn [app]. change (sorted leb (a :: l ++ [x]))
    with (insert_sorted leb a (sorted leb (l ++ [x]))).
  rewrite IH by (intros y Hy; apply H; now right).
  rewrite insert_sorted_last by (apply H; now left). reflexivity.
Qed.

Lemma enumerate_from_last {B : Type} (n : nat) (l : list B) (x : B) :
  enumerate_from n (l ++ [x])
  = enumerate_from n l ++ [(n + List.length l, x)].
Proof.
  revert n. induction l as [|y l IH]; intros n; cbn [app enumerate_from length].
  - now rewrite Nat.add_0_r.
  - rewrite IH. replace (S n + List.length l) with (n + S (List.length l)) by lia.
    reflexivity.
Qed.

Lemma enumerate_from_length {B : Type} (n : nat) (l : list B) :
  List.length (enumerate_from n l) = List.length l.
Proof.
  revert n. induction l as [|y l IH]; intros n; cbn; auto.
Qed.

(** When no conflicting entry is newer than the incoming file, the last
    renaming of the chain is that of the incoming file, to the path that
    [resolve_conflict] returns. *)
Lemma newest_is_renamed_last (fs : node) (source dest webp : path) :
  (forall t f, In (t, f) (collect_conflicting dir_mtime fs source dest) ->
               (t <= get_file_timestamp dir_mtime fs source)%Z) ->
  In (source,
      webp ++ [versioned_name (basename source)
                 (List.length (version_chain dir_mtime fs source dest webp))])
     (version_chain dir_mtime fs source dest webp).
Proof.
  intros H. unfold version_chain, conflicting_files.
  unfold collect_conflicting in *.
  set (l0 := map (fun f => (get_file_timestamp dir_mtime fs f, f)) _) in *.
  rewrite sorted_last.
  - rewrite enumerate_from_last, map_app. cbn [map fst snd].
    rewrite !length_app, !length_map, enumerate_from_length. cbn [length].
    apply in_or_app. right. left. f_equal. f_equal. f_equal. f_equal. lia.
  - intros [t f] Hy. cbn [fst]. apply Z.leb_le. apply (H t f).
    apply in_or_app. now left.
Qed.

Lemma makedirs_keeps_free (fs fs' : node) (q : path) (c : str) :
  makedirs fs q = Some fs' -> lookup fs (q ++ [c]) = None ->
  lookup fs' (q ++ [c]) = None.
Proof.
  revert fs fs'. induction q as [|d q IH]; intros fs fs' Hm Hn.
  - destruct fs; cbn in Hm; [discriminate|]. now inversion Hm; subst.
  - destruct fs as [j mt|es]; [discriminate|]. cbn [makedirs] in Hm.
    destruct (makedirs _ q) as [ch'|] eqn:Em; [|discriminate].
    inversion Hm; subst. cbn [app lookup] in *. rewrite dict_get_set_same.
    apply (IH _ _ Em).
    destruct (dict_get str_eqb es d) as [ch|]; auto.
    destruct q; reflexivity.
Qed.

End ReturnedPath.

(** X18: when no conflicting entry is newer than the incoming file (ties
    included), and the names of the chain are free in the destination
    folder, the path that [resolve_conflict] returns is where the incoming
    file is afterwards. *)
Theorem resolve_conflict_returns_newest
    (dir_mtime : Fs.path -> Z) (fs : Fs.node)
    (source_file dest_file webp_folder : Fs.path) (i : nat) (m : Z) :
  FrameSpec.file_at fs source_file i m ->
  (forall t f,
     In (t, f) (Split.collect_conflicting dir_mtime fs source_file dest_file) ->
     (t <= m)%Z) ->
  Fs.isdir fs webp_folder = true ->
  NoDup (map fst (Split.version_chain dir_mtime fs source_file dest_file webp_folder)) ->
  NoDup (map snd (Split.version_chain dir_mtime fs source_file dest_file webp_folder)) ->
  (forall e,
     In e (Split.version_chain dir_mtime fs source_file dest_file webp_folder) ->
     (exists j mt, FrameSpec.file_at fs (fst e) j mt)
     /\ Fs.lookup fs (snd e) = None) ->
  exists fs' p,
    Split.resolve_conflict dir_mtime fs source_file dest_file webp_folder
    = (fs', Some p)
    /\ FrameSpec.file_at fs' p i m.
Proof.
  intros Hs Hnew Hd N1 N2 H.
  assert (Ht : Split.get_file_timestamp dir_mtime fs source_file = m).
  { unfold Split.get_file_timestamp. unfold FrameSpec.file_at in Hs.
    now rewrite Hs. }
  pose proof (newest_is_renamed_last dir_mtime fs source_file dest_file webp_folder)
    as Hin.
  rewrite Ht in Hin. specialize (Hin Hnew).
  unfold Split.resolve_conflict.
  assert (E : Split.version_chain dir_mtime fs source_file dest_file webp_folder
              = map (fun e => (fst e, webp_folder ++ [snd e]))
                  (map (fun e => (snd (snd e),
                                  Split.versioned_name (Fs.basename (snd (snd e))) (fst e)))
                       (Split.enumerate_from 1
                          (Split.conflicting_files dir_mtime fs source_file dest_file)))).
  { unfold Split.version_chain. rewrite map_map. reflexivity. }
  rewrite E in N1, N2, H.
  destruct (fold_rename_step_paths webp_folder _ fs Hd N1 N2 H) as [fs' [Hf [Hp _]]].
  rewrite <- E in Hf, Hp. exists fs'. rewrite Hf.
  eexists. split; [reflexivity|].
  apply (Hp _ i m Hin). exact Hs.
Qed.

(** The theorem where the incoming [a.jpg] is newer than the [a.jpg] and
    the [a_v5.jpg] of the folder: it is returned, and found, as [a_v3.jpg]. *)
Lemma resolve_conflict_returns_newest_witness :
  let fs := Fs.Dir [(lit "in", Fs.Dir [(lit "a.jpg", Fs.File 3 30)]);
                    (lit "w", Fs.Dir [(lit "a.jpg", Fs.File 2 20);
                                      (lit "a_v5.jpg", Fs.File 1 10)])] in
  exists fs' p,
    Split.resolve_conflict (fun _ => 0%Z) fs
      [lit "in"; lit "a.jpg"] [lit "w"; lit "a.jpg"] [lit "w"]
    = (fs', Some p)
    /\ FrameSpec.file_at fs' p 3 30.
Proof.
  intros fs.
  apply (resolve_conflict_returns_newest (fun _ => 0%Z) fs
           [lit "in"; lit "a.jpg"] [lit "w"; lit "a.jpg"] [lit "w"] 3 30%Z).
  - reflexivity.
  - intros t f Hin. vm_compute in Hin.
    destruct Hin as [E|[E|[E|[]]]]; inversion E; subst; lia.
  - reflexivity.
  - vm_compute. repeat (constructor; [cbn; intuition discriminate|]). constructor.
  - vm_compute. repeat (constructor; [cbn; intuition discriminate|]). constructor.
  - intros e He. vm_compute in He.
    destruct He as [<-|[<-|[<-|[]]]]; (split; [eexists; eexists|]; reflexivity).
Defined.

(** X19: without a conflict, [move_file_safely] is a plain move that makes
    the parent folders first: when these can be made and nothing has the
    name of the destination, the file is at the destination afterwards, which
    is the path returned, it is no longer at its place, and every other
    file is where it was. *)
Theorem move_file_safely_without_conflict
    (dir_mtime : Fs.path -> Z) (fs fs1 : Fs.node)
    (source_file parent webp_folder : Fs.path) (name : str) (i : nat) (m : Z) :
  FrameSpec.file_at fs source_file i m ->
  Fs.makedirs fs parent = Some fs1 ->
  Fs.lookup fs (parent ++ [name]) = None ->
  exists fs2,
    Split.move_file_safely dir_mtime fs source_file (parent ++ [name]) webp_folder
    = (fs2, Some (parent ++ [name]))
    /\ FrameSpec.file_at fs2 (parent ++ [name]) i m
    /\ Fs.lookup fs2 source_file = None
    /\ (forall p j mt, FrameSpec.file_at fs p j mt -> p <> source_file ->
                       FrameSpec.file_at fs2 p j mt).
Proof.
  intros Hs Hm Hn. unfold Split.move_file_safely.
  rewrite removelast_last, Hm.
  pose proof (makedirs_keeps_free fs fs1 parent name Hm Hn) as Hn1.
  pose proof (makedirs_isdir fs fs1 parent Hm) as Hd1.
  pose proof (makedirs_keeps_files fs fs1 parent Hm) as Hk.
  assert (Hs1 : FrameSpec.file_at fs1 source_file i m) by (apply Hk; exact Hs).
  unfold Fs.exists_. rewrite Hn1. cbn [negb].
  destruct (move_file_into_dir fs1 source_file parent name i m Hs1 Hd1 Hn1)
    as [fs2 [Em [Hat Hgone]]].
  rewrite Em. exists fs2. repeat split; auto.
  intros p j mt Hp Np.
  destruct (move_file_into_dir_frame fs1 fs2 source_file parent name i m
              Hs1 Hd1 Hn1 Em) as [_ [Hfr _]].
  apply Hfr; auto.
Qed.

(** The theorem where [in/a.jpg] goes to [w/x/a.jpg] and the folder [x] is
    not there yet. *)
Lemma move_file_safely_without_conflict_witness :
  let fs := Fs.Dir [(lit "in", Fs.Dir [(lit "a.jpg", Fs.File 3 30)]);
                    (lit "w", Fs.Dir [(lit "b.jpg", Fs.File 2 20)])] in
  exists fs2,
    Split.move_file_safely (fun _ => 0%Z) fs
      [lit "in"; lit "a.jpg"] ([lit "w"; lit "x"] ++ [lit "a.jpg"]) [lit "w"]
    = (fs2, Some ([lit "w"; lit "x"] ++ [lit "a.jpg"]))
    /\ FrameSpec.file_at fs2 ([lit "w"; lit "x"] ++ [lit "a.jpg"]) 3 30
    /\ Fs.lookup fs2 [lit "in"; lit "a.jpg"] = None.
Proof.
  intros fs.
  destruct (move_file_safely_without_conflict (fun _ => 0%Z) fs
              (Fs.Dir [(lit "in", Fs.Dir [(lit "a.jpg", Fs.File 3 30)]);
                       (lit "w", Fs.Dir [(lit "b.jpg", Fs.File 2 20);
                                         (lit "x", Fs.Dir [])])])
              [lit "in"; lit "a.jpg"] [lit "w"; lit "x"] [lit "w"]
              (lit "a.jpg") 3 30%Z)
    as [fs2 [E [H1 [H2 _]]]]; [reflexivity | reflexivity | reflexivity |].
  exists fs2. auto.
Defined.
